(** * oneXRD: the numerical core, embedded and checked against its specification

    The first half of the file embeds the Python sources, one module per
    source file; the second half states and proves their properties.

    - [Background]    : [oneXRD/analysis/background.py]
    - [Qpa]           : [plugins/quantitative_analysis/analysis.py]
    - [SearchMatch]   : [oneXRD/analysis/search_match.py]
    - [GenericReader] : [oneXRD/importers/readers/generic_reader.py]
    - [BrukerReader]  : [oneXRD/importers/readers/bruker_reader.py]
    - [XrdData]       : [oneXRD/core/xrd_data.py]
    - [Project]       : [oneXRD/core/project.py]
    - [MainApp]       : [oneXRD/main_app.py], the background callbacks
    - [Importers]     : [oneXRD/importers/__init__.py]

    Conventions.  Python [int]s are [Z].  The analysis functions
    (background, search-match, RIR) compute on IEEE doubles; they are
    embedded over the rationals [Q], that is, with exact arithmetic in
    place of rounding, and numbers are compared with [Qeq] and [Qle].  The
    Bruker reader, whose angles are single-precision by construction, is
    embedded over [spec_float] with the rounding of each operation.
    Exceptions are explicit: a function that can raise returns a [result].
    NumPy, pandas and Python primitives are given the meaning their
    documentation gives them, each in a definition that carries the
    primitive's name. *)

From Stdlib Require Import ZArith QArith Qminmax Qabs Sorted Lia Lqa.
From Stdlib Require Import Ascii String SpecFloat.
From stdpp Require Import base list gmap strings.

Open Scope Z_scope.

(** Outcome of a call that may raise. *)
Inductive result (E A : Type) : Type :=
| Ok (a : A)
| Raise (e : E).
Arguments Ok {E A} a.
Arguments Raise {E A} e.

(** ** Rational helpers shared by the modules *)

Definition Qsum (l : list Q) : Q := fold_right Qplus 0%Q l.

(** * Python text primitives

    Text is a [string] of 8-bit characters: the bytes of a file, which is
    also what decoding them as Latin-1 gives.  For a file opened in text
    mode the newlines are already translated to ["\n"].  A file system
    maps a path to the contents of the file. *)

Module Text.


Definition newline : ascii := "010"%char.

(** [str.isspace] on one character. *)
Definition is_space (c : ascii) : bool :=
  let n := nat_of_ascii c in
  ((9 <=? n) && (n <=? 13) || (28 <=? n) && (n <=? 32)
   || (n =? 133) || (n =? 160))%nat.

(** ["\n"] as a string. *)
Definition nl : string := String newline EmptyString.

Definition is_empty (s : string) : bool :=
  match s with
  | EmptyString => true
  | String _ _ => false
  end.

Fixpoint lstrip (s : string) : string :=
  match s with
  | EmptyString => EmptyString
  | String c s' => if is_space c then lstrip s' else s
  end.

Fixpoint rstrip (s : string) : string :=
  match s with
  | EmptyString => EmptyString
  | String c s' =>
    let t := rstrip s' in
    if is_empty t && is_space c then EmptyString else String c t
  end.

(** [str.strip()] *)
Definition strip (s : string) : string := rstrip (lstrip s).

Fixpoint take_while (p : ascii -> bool) (s : string) : string :=
  match s with
  | EmptyString => EmptyString
  | String c s' => if p c then String c (take_while p s') else EmptyString
  end.

Fixpoint drop_while (p : ascii -> bool) (s : string) : string :=
  match s with
  | EmptyString => EmptyString
  | String c s' => if p c then drop_while p s' else s
  end.

(** [s[:n]] and [s[n:]] *)
Fixpoint take_string (n : nat) (s : string) : string :=
  match n, s with
  | S n', String c s' => String c (take_string n' s')
  | _, _ => EmptyString
  end.

Fixpoint drop_string (n : nat) (s : string) : string :=
  match n, s with
  | S n', String _ s' => drop_string n' s'
  | _, _ => s
  end.

Definition is_digit (c : ascii) : bool :=
  let n := nat_of_ascii c in ((48 <=? n) && (n <=? 57))%nat.

(** [int(s)] for a string of decimal digits, most significant first. *)
Definition int_of_digits (s : string) : Z :=
  fold_left (fun acc c => 10 * acc + Z.of_nat (nat_of_ascii c - 48))
            (list_ascii_of_string s) 0.

End Text.

(** * Background estimation *)

Module Background.

(** What [subtract_polynomial] can raise: its own [BackgroundError], the
    [IndexError] of NumPy's integer-array indexing, and whatever
    [np.polyfit] raises ([NumpyError]). *)
Inductive error : Type :=
| BackgroundError
| IndexError
| NumpyError.

(** [a[i]] for one integer of an index array: negative indices count from
    the end, anything outside [-n, n) is an [IndexError]. *)
Definition np_index {A : Type} (a : list A) (i : Z) : option A :=
  let n := Z.of_nat (length a) in
  if (0 <=? i) && (i <? n) then a !! Z.to_nat i
  else if (- n <=? i) && (i <? 0) then a !! Z.to_nat (i + n)
  else None.

(** [a[selected_indices]] *)
Definition np_take {A : Type} (a : list A) (idx : list Z) : option (list A) :=
  mapM (np_index a) idx.

(** [np.poly1d(coeffs)(x)]: Horner evaluation, highest degree first. *)
Definition poly1d (coeffs : list Q) (x : Q) : Q :=
  fold_left (fun y c => (y * x + c)%Q) coeffs 0%Q.

Section Polynomial.

(** [np.polyfit] is NumPy's; the function is parametric in it.  [None]
    stands for any exception it raises. *)
Variable polyfit : list Q -> list Q -> Z -> option (list Q).

Definition subtract_polynomial (angles intensities : list Q)
    (selected_indices : list Z) (poly_order : Z)
  : result error (list Q) :=
  if Z.of_nat (length selected_indices) <=? poly_order then
    Raise BackgroundError
  else
    match np_take angles selected_indices with
    | None => Raise IndexError
    | Some selected_angles =>
      match np_take intensities selected_indices with
      | None => Raise IndexError
      | Some selected_intensities =>
        match polyfit selected_angles selected_intensities poly_order with
        | None => Raise NumpyError
        | Some coeffs =>
          let p := poly1d coeffs in
          let background := map p angles in
          Ok background
        end
      end
    end.

End Polynomial.

(** *** An exact least-squares instance of [np.polyfit]

    Solves the normal equations of the Vandermonde system by Gaussian
    elimination over [Q].  For sample points that determine the polynomial
    (full column rank) this is the least-squares solution NumPy
    approximates; in the rank-deficient case, where NumPy warns and returns
    a minimum-norm solution, this instance returns [None]. *)

Definition vander_row (deg : nat) (x : Q) : list Q :=
  map (fun k => Qpower x (Z.of_nat k)) (rev (seq 0 (S deg))).

Definition dot (u v : list Q) : Q := Qsum (zip_with Qmult u v).

Fixpoint transpose (cols : nat) (m : list (list Q)) : list (list Q) :=
  match cols with
  | O => []
  | S c => map (fun r => default 0%Q (head r)) m :: transpose c (map (drop 1) m)
  end.

Fixpoint pick_pivot (seen rows : list (list Q))
  : option (list Q * list (list Q)) :=
  match rows with
  | [] => None
  | r :: rest =>
    if Qeq_bool (default 0%Q (head r)) 0 then pick_pivot (seen ++ [r]) rest
    else Some (r, seen ++ rest)
  end.

Fixpoint solve (n : nat) (rows : list (list Q)) : option (list Q) :=
  match n with
  | O => Some []
  | S n' =>
    match pick_pivot [] rows with
    | None => None
    | Some (p, rest) =>
      let a := default 0%Q (head p) in
      let p' := map (fun v => Qred (v / a)) (drop 1 p) in
      let rest' :=
        map (fun r =>
               zip_with (fun v w => Qred (v - default 0%Q (head r) * w))
                        (drop 1 r) p') rest in
      match solve n' rest' with
      | None => None
      | Some xs =>
        Some (Qred (default 0%Q (last p') - dot (take n' p') xs) :: xs)
      end
    end
  end.

Definition lstsq_polyfit (x y : list Q) (deg : Z) : option (list Q) :=
  if (deg <? 0) || (length x =? 0)%nat || negb (length x =? length y)%nat
  then None
  else
    let d := Z.to_nat deg in
    let v := map (vander_row d) x in
    let vt := transpose (S d) v in
    let normal := map (fun c => map (dot c) vt ++ [dot c y]) vt in
    solve (S d) normal.

(** *** Iterative erosion *)

(** [np.roll(a, shift)]: element [i] of the result is element
    [(i - shift) mod n] of [a]. *)
Definition np_roll {A : Type} (a : list A) (shift : Z) : list A :=
  rotate (Z.to_nat ((- shift) mod Z.of_nat (length a))) a.

(** The body of the loop of [subtract_iterative_erosion]. *)
Definition erosion_step (background : list Q) : list Q :=
  let shifted_left := np_roll background 1 in
  let shifted_right := np_roll background (-1) in
  let neighbors_avg :=
    zip_with (fun l r => ((l + r) / 2)%Q) shifted_left shifted_right in
  zip_with Qmin background neighbors_avg.

(** [range(iterations)] is empty for a non-positive count. *)
Definition subtract_iterative_erosion (intensities : list Q) (iterations : Z)
  : list Q :=
  Nat.iter (Z.to_nat iterations) erosion_step intensities.

(** *** Vocabulary of the properties *)

(** A change of intensity scale and offset. *)
Definition affine (k c x : Q) : Q := (k * x + c)%Q.

End Background.

(** * Quantitative phase analysis (RIR method) *)

Module Qpa.

Inductive error : Type :=
| QpaError.

(** A phase is a Python [dict].  The function reads the entries
    ['intensity'] and ['rir'] only, both numbers; the mapping keeps the
    numeric entries, and an absent key is an absent entry. *)
Abbreviation phase := (gmap string Q).

(** [dict.get(key, 0)] *)
Definition get (p : phase) (key : string) : Q := default 0%Q (p !! key).

(** The [for phase in phase_data] loop, carrying [i_over_rir_sum] and
    [i_over_rir_values]; the [raise] leaves the loop at once. *)
Fixpoint rir_loop (phase_data : list phase)
    (i_over_rir_sum : Q) (i_over_rir_values : list Q)
  : result error (Q * list Q) :=
  match phase_data with
  | [] => Ok (i_over_rir_sum, i_over_rir_values)
  | p :: rest =>
    let intensity := get p "intensity" in
    let rir := get p "rir" in
    if Qle_bool rir 0 then Raise QpaError
    else
      let value := (intensity / rir)%Q in
      rir_loop rest (i_over_rir_sum + value)%Q (i_over_rir_values ++ [value])
  end.

Definition calculate_rir_quantification (phase_data : list phase)
  : result error (list Q) :=
  match phase_data with
  | [] => Ok []
  | _ =>
    match rir_loop phase_data 0%Q [] with
    | Raise e => Raise e
    | Ok (i_over_rir_sum, i_over_rir_values) =>
      if Qeq_bool i_over_rir_sum 0 then
        Ok (replicate (length phase_data) 0%Q)
      else
        let weight_percents :=
          map (fun val => (val / i_over_rir_sum * 100)%Q) i_over_rir_values in
        Ok weight_percents
    end
  end.

(** [{'intensity': i, 'rir': r}] *)
Definition mk_phase (i r : Q) : phase :=
  <["intensity" := i]> (<["rir" := r]> ∅).

(** *** Vocabulary of the properties *)

(** [v_i = intensity_i / RIR_i] *)
Definition phase_value (p : phase) : Q :=
  (get p "intensity" / get p "rir")%Q.

(** The loop reads a phase through [get] on the two keys only. *)
Definition same_reads (p q : phase) : Prop :=
  get p "intensity" = get q "intensity" /\ get p "rir" = get q "rir".




End Qpa.

(** * Search-match scoring *)

Module SearchMatch.

Inductive error : Type :=
| SearchMatchError.

(** A row of [experimental_peaks]: its index label ([Series.name]) and its
    ['angle'].  Labels are whatever the caller's frame carries; they need
    not be the positions [0, 1, ...]. *)
Record peak_row : Type := {
  row_name : Z;
  row_angle : Q
}.

(** A row of [reference_pattern]. *)
Record ref_row : Type := {
  r_angle : Q;
  r_intensity : Q
}.

(** A [pd.DataFrame] as far as the function looks at it: the column
    labels and the rows, in order. *)
Record DataFrame (row : Type) : Type := {
  columns : list string;
  rows : list row
}.
Arguments columns {row} d.
Arguments rows {row} d.

(** One entry of [matched_peaks_info]. *)
Record match_record : Type := {
  exp_angle : Q;
  ref_angle : Q;
  ref_intensity : Q;
  delta_angle : Q
}.

(** A NumPy double as far as division by zero is concerned: finite values
    are exact rationals, and [x / 0] is [nan] or an infinity (with a
    warning), never an exception. *)
Inductive npfloat : Type :=
| Finite (q : Q)
| PosInf
| NegInf
| NaN.

Definition np_div (a b : Q) : npfloat :=
  if Qeq_bool b 0 then
    if Qeq_bool a 0 then NaN
    else if Qle_bool 0 a then PosInf else NegInf
  else Finite (a / b).

(** [x * 100.0] *)
Definition np_mul_100 (x : npfloat) : npfloat :=
  match x with
  | Finite q => Finite (q * 100)
  | other => other
  end.

(** A stable instance of [sort_values(by='intensity', ascending=False)]:
    rows of equal intensity keep their order. *)
Fixpoint insert_desc (r : ref_row) (l : list ref_row) : list ref_row :=
  match l with
  | [] => [r]
  | h :: t =>
    if Qle_bool (r_intensity h) (r_intensity r) then r :: l
    else h :: insert_desc r t
  end.

Definition stable_sort_values (l : list ref_row) : list ref_row :=
  fold_right insert_desc [] l.

(** [numpy.argmin]: position of the first occurrence of the minimum. *)
Fixpoint argmin_from (best : nat) (best_val : Q) (i : nat) (l : list Q)
  : nat :=
  match l with
  | [] => best
  | x :: t =>
    if Qle_bool best_val x then argmin_from best best_val (S i) t
    else argmin_from i x (S i) t
  end.

Definition argmin (l : list Q) : nat :=
  match l with
  | [] => 0%nat
  | x :: t => argmin_from 0 x 1 t
  end.

(** The variables the loop updates. *)
Record state : Type := {
  matched_peaks_info : list match_record;
  matched_reference_intensity : Q;
  used_exp_indices : gset Z
}.

Definition in_window (min_angle max_angle : Q) (e : peak_row) : bool :=
  Qle_bool min_angle (row_angle e) && Qle_bool (row_angle e) max_angle.

Definition unused (used : gset Z) (e : peak_row) : bool :=
  negb (bool_decide (row_name e ∈ used)).

(** The candidates of one reference peak: the rows inside the window,
    without those whose label is already used. *)
Definition potential_matches (experimental_peaks : list peak_row)
    (ref_angle angle_tolerance : Q) (used : gset Z) : list peak_row :=
  let min_angle := (ref_angle - angle_tolerance)%Q in
  let max_angle := (ref_angle + angle_tolerance)%Q in
  List.filter (unused used)
    (List.filter (in_window min_angle max_angle) experimental_peaks).

(** [potential_matches.iloc[(potential_matches['angle'] - ref_angle)
    .abs().argmin()]], for a non-empty candidate list with first row
    [first]. *)
Definition closest (ref_angle : Q) (first : peak_row)
    (candidates : list peak_row) : peak_row :=
  nth (argmin (map (fun e => Qabs (row_angle e - ref_angle)) candidates))
      candidates first.

(** One pass through the body of [for ref_idx, ref_peak in ...]. *)
Definition match_step (experimental_peaks : list peak_row)
    (angle_tolerance : Q) (st : state) (ref_peak : ref_row) : state :=
  let ref_angle := r_angle ref_peak in
  let ref_intensity := r_intensity ref_peak in
  match potential_matches experimental_peaks ref_angle angle_tolerance
          (used_exp_indices st) with
  | [] => st
  | (first :: _) as candidates =>
    let closest_match := closest ref_angle first candidates in
    {| used_exp_indices := {[row_name closest_match]} ∪ used_exp_indices st;
       matched_peaks_info :=
         matched_peaks_info st ++
         [{| exp_angle := row_angle closest_match;
             ref_angle := ref_angle;
             ref_intensity := ref_intensity;
             delta_angle := (row_angle closest_match - ref_angle)%Q |}];
       matched_reference_intensity :=
         (matched_reference_intensity st + ref_intensity)%Q |}
  end.

Definition initial_state : state :=
  {| matched_peaks_info := [];
     matched_reference_intensity := 0%Q;
     used_exp_indices := ∅ |}.

Definition match_loop (experimental_peaks : list peak_row)
    (angle_tolerance : Q) (reference : list ref_row) (st : state) : state :=
  fold_left (match_step experimental_peaks angle_tolerance) reference st.

(** [all(col in df.columns for col in required)] *)
Definition has_columns {row : Type} (df : DataFrame row)
    (required : list string) : bool :=
  forallb (fun col => bool_decide (col ∈ columns df)) required.

Section Sorting.

(** [sort_values(by='intensity', ascending=False)] is pandas'.  Its
    default algorithm does not fix the order of rows of equal intensity,
    so the function is parametric in it. *)
Variable sort_values : list ref_row -> list ref_row.

(** The function returns the figure of merit and the match table; the
    empty table is [pd.DataFrame()]. *)
Definition perform_search_match (experimental_peaks : DataFrame peak_row)
    (reference_pattern : DataFrame ref_row) (angle_tolerance : Q)
  : result error (npfloat * list match_record) :=
  if negb (has_columns experimental_peaks ["angle"]) then
    Raise SearchMatchError
  else if negb (has_columns reference_pattern ["angle"; "intensity"]) then
    Raise SearchMatchError
  else
    match rows reference_pattern with
    | [] => Ok (Finite 0, [])
    | _ =>
      let reference := sort_values (rows reference_pattern) in
      let total_reference_intensity := Qsum (map r_intensity reference) in
      let st := match_loop (rows experimental_peaks) angle_tolerance
                  reference initial_state in
      match matched_peaks_info st with
      | [] => Ok (Finite 0, [])
      | _ =>
        let figure_of_merit :=
          np_mul_100 (np_div (matched_reference_intensity st)
                             total_reference_intensity) in
        Ok (figure_of_merit, matched_peaks_info st)
      end
    end.

End Sorting.

(** Frames with the default [RangeIndex] and the columns the callers
    build. *)
Definition peaks_frame (angles : list Q) : DataFrame peak_row :=
  {| columns := ["angle"; "intensity"];
     rows := imap (fun i a => {| row_name := Z.of_nat i; row_angle := a |})
                  angles |}.

Definition reference_frame (l : list (Q * Q)) : DataFrame ref_row :=
  {| columns := ["angle"; "intensity"];
     rows := map (fun p => {| r_angle := fst p; r_intensity := snd p |}) l |}.

(** *** Vocabulary of the properties *)

(** The reference pattern of the module's own test block. *)
Definition nacl : DataFrame ref_row :=
  reference_frame [(317 # 10, 100); (455 # 10, 80); (565 # 10, 60)]%Q.

(** [a] may come before [b] in the sorted reference. *)
Definition stronger (a b : ref_row) : Prop :=
  (r_intensity b <= r_intensity a)%Q.

(** What [sort_values(by='intensity', ascending=False)] guarantees: the
    same rows, in order of decreasing intensity. *)
Definition sorts_by_intensity (sort_values : list ref_row -> list ref_row)
  : Prop :=
  forall l, sort_values l ≡ₚ l /\ StronglySorted stronger (sort_values l).

(** The record the loop appends when reference peak [r] takes row [e]. *)
Definition record_of (r : ref_row) (e : peak_row) : match_record :=
  {| exp_angle := row_angle e;
     ref_angle := r_angle r;
     ref_intensity := r_intensity r;
     delta_angle := (row_angle e - r_angle r)%Q |}.

(** [chosen] lists, for a run over [reference], the position of each
    matched reference row together with the experimental row it took. *)
Definition traces (reference : list ref_row) (recs : list match_record)
    (chosen : list (nat * peak_row)) : Prop :=
  Forall2 (fun rec c =>
             exists r, reference !! c.1 = Some r /\ rec = record_of r c.2)
          recs chosen.

(** A position in [reference] seen from [r :: reference]. *)
Definition shift (c : nat * peak_row) : nat * peak_row := (S c.1, c.2).

(** [pairs] attributes every record of [table] to a position of the
    (sorted) reference and a position of the experimental rows. *)
Definition assigns (reference : list ref_row)
    (experimental_peaks : list peak_row) (table : list match_record)
    (pairs : list (nat * nat)) : Prop :=
  Forall2 (fun rec p =>
             exists r e,
               reference !! p.1 = Some r /\
               experimental_peaks !! p.2 = Some e /\
               rec = record_of r e)
          table pairs.

(** [|angle(e) - angle(r)|], the quantity [argmin] minimises. *)
Definition distance (r : ref_row) (e : peak_row) : Q :=
  Qabs (row_angle e - r_angle r).

(** The experimental row lies in the window of some reference row. *)
Definition near_reference (reference : list ref_row) (angle_tolerance : Q)
    (e : peak_row) : bool :=
  existsb (fun r => in_window (r_angle r - angle_tolerance)
                              (r_angle r + angle_tolerance) e)
          reference.

(** The labels of the experimental rows taken so far. *)
Definition taken (chosen : list (nat * peak_row)) : list Z :=
  map (fun c => row_name c.2) chosen.

(** No two rows of the reference pattern have the same intensity. *)
Definition distinct_intensities (reference : list ref_row) : Prop :=
  forall a b,
    a ∈ reference -> b ∈ reference ->
    (r_intensity a == r_intensity b)%Q -> a = b.

(** The frame with the rows that satisfy [keep]. *)
Definition select_rows {row : Type} (keep : row -> bool)
    (df : DataFrame row) : DataFrame row :=
  {| columns := columns df; rows := List.filter keep (rows df) |}.

End SearchMatch.

(** * Generic two-column text reader *)

Module GenericReader.
Import Text.

(** The four ways the function raises [DataImportError], told apart by
    their messages.  [Unexpected] wraps every other exception, which are
    those of the file layer: a path that is a directory or may not be
    read, bytes that the codec of the locale does not decode.  The file
    system maps the path of a file to its text, and a path it does not
    map is a path at which nothing exists; directories, files that may
    not be read and bytes that do not decode are not represented.  So
    [Unexpected] is an outcome of the function that the embedding does
    not produce. *)
Inductive error : Type :=
| FileNotFound
| NoDataPoints
| CouldNotParse
| Unexpected.

(** [str.startswith(prefixes)] for a tuple of prefixes. *)
Definition startswith (s : string) (prefixes : list string) : bool :=
  existsb (fun p => String.prefix p s) prefixes.

(** The lines a text file yields when iterated, without their line
    terminators (which [strip] and [loadtxt] discard anyway). *)
Fixpoint lines_from (current : string) (s : string) : list string :=
  match s with
  | EmptyString => if is_empty current then [] else [current]
  | String c s' =>
    if Ascii.eqb c newline then current :: lines_from EmptyString s'
    else lines_from (current +:+ String c EmptyString) s'
  end.

Definition readlines (content : string) : list string :=
  lines_from EmptyString content.

(** The first loop: [header_rows] after [for i, line in enumerate(f)],
    entered at line number [i]. *)
Fixpoint count_header_rows (lines : list string) (i header_rows : nat)
  : nat :=
  match lines with
  | [] => header_rows
  | line :: rest =>
    let line := strip line in
    if is_empty line || startswith line ["#"; "!"; "/"; " "] then
      count_header_rows rest (S i) (i + 1)
    else header_rows
  end.

(** *** [np.loadtxt] *)

Inductive ndarray : Type :=
| Array0 (x : Q)
| Array1 (v : list Q)
| Array2 (m : list (list Q)).

Definition ndim (a : ndarray) : nat :=
  match a with
  | Array0 _ => 0
  | Array1 _ => 1
  | Array2 _ => 2
  end.

(** [a.shape[1]] of a two-dimensional array. *)
Definition shape1 (a : ndarray) : nat :=
  match a with
  | Array2 (r :: _) => length r
  | _ => 0
  end.

(** [a[:, k]] of a two-dimensional array. *)
Definition column (k : nat) (a : ndarray) : list Q :=
  match a with
  | Array2 m => map (fun r => nth k r 0%Q) m
  | _ => []
  end.

(** The text before the first ["#"]. *)
Fixpoint remove_comment (s : string) : string :=
  match s with
  | EmptyString => EmptyString
  | String c s' =>
    if Ascii.eqb c "#" then EmptyString else String c (remove_comment s')
  end.

(** [str.split()]: the maximal runs of non-whitespace. *)
Fixpoint split_whitespace (current : string) (s : string) : list string :=
  match s with
  | EmptyString => if is_empty current then [] else [current]
  | String c s' =>
    if is_space c then
      if is_empty current then split_whitespace EmptyString s'
      else current :: split_whitespace EmptyString s'
    else split_whitespace (current +:+ String c EmptyString) s'
  end.

(** [str.split(d)]: the pieces between occurrences of [d]. *)
Fixpoint split_on (d : ascii) (current : string) (s : string) : list string :=
  match s with
  | EmptyString => [current]
  | String c s' =>
    if Ascii.eqb c d then current :: split_on d EmptyString s'
    else split_on d (current +:+ String c EmptyString) s'
  end.

(** The fields of one line; no fields means the line is skipped. *)
Definition split_line (delimiter : option ascii) (line : string)
  : list string :=
  let line := remove_comment line in
  match delimiter with
  | None => split_whitespace EmptyString line
  | Some d => if is_empty line then [] else split_on d EmptyString line
  end.

Definition all_length {A : Type} (n : nat) (m : list (list A)) : bool :=
  forallb (fun r => (length r =? n)%nat) m.

(** The default [ndmin=0]: axes of length one are squeezed away. *)
Definition squeeze (m : list (list Q)) : ndarray :=
  match m with
  | [] => Array1 []
  | [[x]] => Array0 x
  | [r] => Array1 r
  | r :: _ => if (length r =? 1)%nat then Array1 (concat m) else Array2 m
  end.

Section Reader.

(** Python's [float] on a field; [None] is its [ValueError]. *)
Variable float : string -> option Q.

(** [np.loadtxt(f, skiprows=..., delimiter=...)] on the lines of the
    file: [None] is the [ValueError] of a field that is not a number or
    of rows of different lengths. *)
Definition loadtxt (lines : list string) (skiprows : nat)
    (delimiter : option ascii) : option ndarray :=
  let fields :=
    List.filter (fun r => negb (length r =? 0)%nat)
      (map (split_line delimiter) (drop skiprows lines)) in
  match mapM (mapM float) fields with
  | None => None
  | Some m =>
    match m with
    | [] => Some (squeeze m)
    | r :: _ => if all_length (length r) m then Some (squeeze m) else None
    end
  end.

(** The [for delimiter in [None, ',', '\t']] loop. *)
Fixpoint try_delimiters (lines : list string) (header_rows : nat)
    (delimiters : list (option ascii))
  : result error (list Q * list Q) :=
  match delimiters with
  | [] => Raise CouldNotParse
  | delimiter :: rest =>
    match loadtxt lines header_rows delimiter with
    | None => try_delimiters lines header_rows rest
    | Some data =>
      if (ndim data =? 2)%nat && (2 <=? shape1 data)%nat then
        let angles := column 0 data in
        let intensities := column 1 data in
        if (length angles =? 0)%nat then Raise NoDataPoints
        else Ok (angles, intensities)
      else try_delimiters lines header_rows rest
    end
  end.

Definition read_generic_text_file (fs : gmap string string)
    (filepath : string) : result error (list Q * list Q) :=
  match fs !! filepath with
  | None => Raise FileNotFound
  | Some content =>
    let lines := readlines content in
    let header_rows := count_header_rows lines 0 0 in
    try_delimiters lines header_rows [None; Some ","%char; Some "009"%char]
  end.

End Reader.

(** *** A decimal instance of [float]

    Accepts an optional sign, digits, and an optional fractional part,
    with surrounding whitespace; Python's [float] accepts more (exponents,
    [inf], [nan], underscores), which the examples do not use. *)

Definition digit_of (c : ascii) : option Z :=
  let n := nat_of_ascii c in
  if ((48 <=? n) && (n <=? 57))%nat then Some (Z.of_nat (n - 48)) else None.

(** Digits read so far as [num / 10^scale]; [dot] tells whether the
    decimal point was seen, [any] whether any digit was. *)
Fixpoint decimal_from (num : Z) (scale : nat) (dot any : bool) (s : string)
  : option Q :=
  match s with
  | EmptyString =>
    if any then Some (Qred (num # Pos.of_nat (10 ^ scale))) else None
  | String c s' =>
    if Ascii.eqb c "." then
      if dot then None else decimal_from num scale true any s'
    else
      match digit_of c with
      | None => None
      | Some d =>
        decimal_from (10 * num + d) (if dot then S scale else scale)
          dot true s'
      end
  end.

Definition decimal_float (s : string) : option Q :=
  match strip s with
  | String "-" s' => Qopp <$> decimal_from 0 0 false false s'
  | String "+" s' => decimal_from 0 0 false false s'
  | s' => decimal_from 0 0 false false s'
  end.

(** *** Vocabulary of the properties *)

(** The file of the module's first test, in a one-file file system. *)
Definition sample : string :=
  "# h" +:+ nl +:+ "10.0 150.5" +:+ nl +:+ "10.1 200.0" +:+ nl
  +:+ "10.2 180.2".

(** The test the first loop applies to a line. *)
Definition header_line (line : string) : bool :=
  is_empty (strip line) || startswith (strip line) ["#"; "!"; "/"; " "].

(** The first character of a line that is not whitespace, if any. *)
Definition first_nonspace (line : string) : option ascii :=
  match lstrip line with
  | EmptyString => None
  | String c _ => Some c
  end.

(** The header test as the specification words it: the line is blank, or
    its first character is ['#'], ['!'], ['/'] or whitespace. *)
Definition claimed_header_line (line : string) : bool :=
  match line with
  | EmptyString => true
  | String c _ =>
    Ascii.eqb c "#" || Ascii.eqb c "!" || Ascii.eqb c "/" || is_space c
  end.

(** The rows [loadtxt] converts: the field lists that are not empty. *)
Definition field_rows (lines : list string) (skiprows : nat)
    (delimiter : option ascii) : list (list string) :=
  List.filter (fun r => negb (length r =? 0)%nat)
    (map (split_line delimiter) (drop skiprows lines)).

(** Under [delimiter], the rows after the header are the table [m]: every
    field is a number, and there are at least two rows, all of the same
    length, which is at least two. *)
Definition parses (float : string -> option Q) (lines : list string)
    (skiprows : nat) (delimiter : option ascii) (m : list (list Q)) : Prop :=
  mapM (mapM float) (field_rows lines skiprows delimiter) = Some m /\
  (2 <= length m)%nat /\
  exists n, (2 <= n)%nat /\ Forall (fun r => length r = n) m.

(** The delimiters in the order the function tries them. *)
Definition delimiters : list (option ascii) :=
  [None; Some ","%char; Some "009"%char].

End GenericReader.

(** * Bruker RAW v4 reader *)

Module BrukerReader.
Import Text.

(** The ways the function raises [DataImportError]. *)
Inductive error : Type :=
| FileNotFound
| MissingMetadata
| SizeMismatch (count read : Z)
| Unexpected.

(** *** IEEE 754 numbers

    Python floats are binary64 and [np.float32] is binary32.  Both are
    [spec_float]s, with the operations of [SpecFloat] at the precision and
    exponent range of the format. *)

Definition f32_mul : spec_float -> spec_float -> spec_float := SFmul 24 128.
Definition f32_add : spec_float -> spec_float -> spec_float := SFadd 24 128.
Definition f64_mul : spec_float -> spec_float -> spec_float := SFmul 53 1024.
Definition f64_add : spec_float -> spec_float -> spec_float := SFadd 53 1024.

(** The float nearest to [p / q] (ties to even), for [p >= 0]: the
    quotient is taken with two bits more than the format holds, and the
    remainder tells on which side of the midpoint the ratio lies. *)
Definition round_ratio (prec emax : Z) (p : Z) (q : positive) : spec_float :=
  match p with
  | Zpos _ =>
    let k := Z.max 0 (prec + 2 + Z.log2 (Zpos q) - Z.log2 p) in
    let '(m, r) := Z.div_eucl (Z.shiftl p k) (Zpos q) in
    let l :=
      if r =? 0 then loc_Exact
      else loc_Inexact (Z.compare (2 * r) (Zpos q)) in
    binary_round_aux prec emax false m (- k) l
  | _ => S754_zero false
  end.

(** Digits and dots read so far as [num / 10^scale]. *)
Fixpoint decimal_from (num : Z) (scale : nat) (dot any : bool) (s : string)
  : option (Z * nat) :=
  match s with
  | EmptyString => if any then Some (num, scale) else None
  | String c s' =>
    if Ascii.eqb c "." then
      if dot then None else decimal_from num scale true any s'
    else if is_digit c then
      decimal_from (10 * num + Z.of_nat (nat_of_ascii c - 48))
        (if dot then S scale else scale) dot true s'
    else None
  end.

(** [float(s)] for the strings the header patterns capture (digits and
    dots): the nearest binary64, or [None] for Python's [ValueError]
    (no digit, or more than one dot). *)
Definition python_float (s : string) : option spec_float :=
  match decimal_from 0 0 false false s with
  | Some (num, scale) =>
    Some (round_ratio 53 1024 num (Pos.of_nat (10 ^ scale)))
  | None => None
  end.

(** A Python float that meets an [np.float32] array is cast to binary32
    (NumPy keeps the array's type; a value beyond the binary32 range
    becomes an infinity, where NumPy before version 2 widened the result
    instead). *)
Definition f32_of_f64 (x : spec_float) : spec_float :=
  match x with
  | S754_finite s m e => binary_round 24 128 s m e
  | other => other
  end.

(** Element [i] of [np.arange(count, dtype=np.float32)]. *)
Definition f32_of_Z (i : Z) : spec_float := binary_normalize 24 128 i 0 false.

(** The binary32 with the given bit pattern. *)
Definition f32_of_bits (w : Z) : spec_float :=
  let s := Z.testbit w 31 in
  let e := Z.land (Z.shiftr w 23) 255 in
  let m := Z.land w 8388607 in
  if e =? 0 then
    match m with
    | Zpos p => S754_finite s p (-149)
    | _ => S754_zero s
    end
  else if e =? 255 then
    if m =? 0 then S754_infinity s else S754_nan
  else
    match m + 8388608 with
    | Zpos p => S754_finite s p (e - 150)
    | _ => S754_nan
    end.

(** The value of a finite float. *)
Definition SF2Q (x : spec_float) : option Q :=
  match x with
  | S754_zero _ => Some 0%Q
  | S754_finite s m e =>
    Some (Qred (((if s then Zneg m else Zpos m) # 1) * Qpower 2 e))%Q
  | _ => None
  end.

(** *** The header patterns *)

Definition is_digit_or_dot (c : ascii) : bool :=
  is_digit c || Ascii.eqb c ".".

(** A match of [key\s*(class+)] that starts at the first character of
    [s]; the result is the group.  Both repetitions are greedy, and as no
    character of the class is whitespace, giving back whitespace never
    helps. *)
Definition match_here (key : string) (class : ascii -> bool) (s : string)
  : option string :=
  if String.prefix key s then
    let rest := drop_while is_space (drop_string (String.length key) s) in
    let group := take_while class rest in
    if is_empty group then None else Some group
  else None.

(** [re.search(pattern, s).group(1)]: the leftmost match. *)
Fixpoint re_search (key : string) (class : ascii -> bool) (s : string)
  : option string :=
  match match_here key class s with
  | Some group => Some group
  | None =>
    match s with
    | EmptyString => None
    | String _ s' => re_search key class s'
    end
  end.

(** *** The payload *)

Definition byte (c : ascii) : Z := Z.of_nat (nat_of_ascii c).

(** [np.fromfile(f, dtype=np.float32, count=count)] on the bytes from the
    file position on: as many little-endian 4-byte items as are complete,
    [count] at most. *)
Fixpoint fromfile_float32 (count : nat) (s : string) : list spec_float :=
  match count, s with
  | S n, String b0 (String b1 (String b2 (String b3 s'))) =>
    f32_of_bits
      (byte b0 + Z.shiftl (byte b1) 8 + Z.shiftl (byte b2) 16
       + Z.shiftl (byte b3) 24)
    :: fromfile_float32 n s'
  | _, _ => []
  end.

(** [np.arange(count, dtype=np.float32)] *)
Definition arange_float32 (count : Z) : list spec_float :=
  map (fun i => f32_of_Z (Z.of_nat i)) (seq 0 (Z.to_nat count)).

Definition read_bruker_raw_v4 (fs : gmap string string) (filepath : string)
  : result error (list spec_float * list spec_float) :=
  match fs !! filepath with
  | None => Raise FileNotFound
  | Some file =>
    let header_text := take_string 2048 file in
    let start_match := re_search "START=" is_digit_or_dot header_text in
    let step_match := re_search "STEPSIZE=" is_digit_or_dot header_text in
    let count_match := re_search "COUNT=" is_digit header_text in
    match start_match, step_match, count_match with
    | Some start_text, Some step_text, Some count_text =>
      match python_float start_text with
      | None => Raise Unexpected
      | Some start_angle =>
        match python_float step_text with
        | None => Raise Unexpected
        | Some step_size =>
          let count := int_of_digits count_text in
          (* a count that does not fit a C [ssize_t] is an OverflowError;
             NumPy allocates the array before it reads, and a smaller
             count that it cannot allocate ends in the same wrapper,
             which the embedding leaves out *)
          if 2 ^ 63 <=? count then Raise Unexpected
          else
            let intensities :=
              fromfile_float32 (Z.to_nat count) (drop_string 2048 file) in
            if negb (Z.of_nat (length intensities) =? count) then
              Raise (SizeMismatch count (Z.of_nat (length intensities)))
            else
              let angles :=
                map (fun i => f32_add (f32_mul i (f32_of_f64 step_size))
                                      (f32_of_f64 start_angle))
                    (arange_float32 count) in
              Ok (angles, intensities)
        end
      end
    | _, _, _ => Raise MissingMetadata
    end
  end.

(** *** Building files, as the module's test block does *)

(** [str.ljust(width)] *)
Definition ljust (width : nat) (s : string) : string :=
  s +:+ string_of_list_ascii (repeat " "%char (width - String.length s)).

(** The four bytes of a 32-bit pattern, least significant first. *)
Definition bytes_of_bits (w : Z) : string :=
  string_of_list_ascii
    (map (fun k => ascii_of_nat (Z.to_nat (Z.land (Z.shiftr w (8 * k)) 255)))
         [0; 1; 2; 3]).

(** [array.tobytes()] of a float32 array given by its bit patterns. *)
Definition tobytes (ws : list Z) : string :=
  fold_right (fun w s => bytes_of_bits w +:+ s) EmptyString ws.

(** *** Vocabulary of the properties *)

(** The file the module's test block writes: a header padded to 2048
    bytes, then the float32 values 100.0, 150.5, 2000.0, 140.2, 90.0. *)
Definition sample_header : string :=
  ljust 2048
    (nl +:+ "    FORMAT= RAW4" +:+ nl +:+ "    DATE= 1-JAN-2024" +:+ nl
     +:+ "    START= 10.0" +:+ nl +:+ "    STEPSIZE= 0.02" +:+ nl
     +:+ "    COUNT= 5" +:+ nl +:+ "    ").

Definition sample_bits : list Z :=
  [0x42C80000; 0x43168000; 0x44FA0000; 0x430C3333; 0x42B40000].

Definition sample_fs : gmap string string :=
  {[ "test_bruker.raw" := sample_header +:+ tobytes sample_bits ]}.

(** The angle the function computes for point [i]: the product and the
    sum are single-precision operations on single-precision operands. *)
Definition angle_float32 (start_angle step_size : spec_float) (i : Z)
  : spec_float :=
  f32_add (f32_mul (f32_of_Z i) (f32_of_f64 step_size))
          (f32_of_f64 start_angle).

(** What Python computes for [START + i * STEPSIZE] on its own floats. *)
Definition angle_float64 (start_angle step_size : spec_float) (i : Z)
  : spec_float :=
  f64_add start_angle (f64_mul (binary_normalize 53 1024 i 0 false) step_size).

End BrukerReader.

(** * The data container *)

Module XrdData.
Import SearchMatch.

(** The [ValueError] of NumPy when two shapes do not broadcast. *)
Inductive error : Type :=
| ValueError.

(** [a - b] on one-dimensional arrays: element by element when the
    lengths agree, an array of length one is stretched to the other
    length, and any other pair of lengths is an error. *)
Definition np_sub (a b : list Q) : result error (list Q) :=
  if (length a =? length b)%nat then Ok (zip_with Qminus a b)
  else
    match a, b with
    | _, [y] => Ok (map (fun x => (x - y)%Q) a)
    | [x], _ => Ok (map (fun y => (x - y)%Q) b)
    | _, _ => Raise ValueError
    end.

Section Container.

(** The rows of the peak table are those of the peak finder; the
    container stores the table and never looks inside. *)
Context {peak : Type}.

(** [pd.DataFrame()] *)
Definition empty_frame : DataFrame peak := {| columns := []; rows := [] |}.

Record XRDData : Type := {
  filename : option string;
  is_reference : bool;
  raw_angles : list Q;
  raw_intensities : list Q;
  processed_angles : list Q;
  processed_intensities : list Q;
  background_curve : option (list Q);
  peaks_df : DataFrame peak
}.

(** [XRDData(raw_angles, raw_intensities, filename, is_reference)];
    [np.copy] of an array is the same list. *)
Definition init (raw_angles raw_intensities : list Q)
    (filename : option string) (is_reference : bool) : XRDData :=
  {| filename := filename;
     is_reference := is_reference;
     raw_angles := raw_angles;
     raw_intensities := raw_intensities;
     processed_angles := raw_angles;
     processed_intensities := raw_intensities;
     background_curve := None;
     peaks_df := empty_frame |}.

(** [os.path.basename] is the platform's. *)
Variable basename : string -> string.

(** [os.path.basename(self.filename) if self.filename else default]: the
    empty string counts as no filename. *)
Definition base_or (self : XRDData) (default : string) : string :=
  match filename self with
  | Some f => if Text.is_empty f then default else basename f
  | None => default
  end.

Definition display_name (self : XRDData) : string :=
  if is_reference self then base_or self "Reference" +:+ " (Ref)"
  else base_or self "Untitled".

(** A method returns the object as it leaves it, and what the call
    returned or raised.  [set_background] stores the curve before it
    subtracts, so the curve stays stored when the subtraction raises. *)
Definition set_background (background_curve : list Q) (self : XRDData)
  : XRDData * result error unit :=
  let self :=
    {| filename := filename self;
       is_reference := is_reference self;
       raw_angles := raw_angles self;
       raw_intensities := raw_intensities self;
       processed_angles := processed_angles self;
       processed_intensities := processed_intensities self;
       background_curve := Some background_curve;
       peaks_df := peaks_df self |} in
  match np_sub (raw_intensities self) background_curve with
  | Raise e => (self, Raise e)
  | Ok difference =>
    ({| filename := filename self;
        is_reference := is_reference self;
        raw_angles := raw_angles self;
        raw_intensities := raw_intensities self;
        processed_angles := processed_angles self;
        processed_intensities := difference;
        background_curve := Some background_curve;
        peaks_df := peaks_df self |},
     Ok tt)
  end.

Definition set_peaks (peaks_dataframe : DataFrame peak) (self : XRDData)
  : XRDData :=
  {| filename := filename self;
     is_reference := is_reference self;
     raw_angles := raw_angles self;
     raw_intensities := raw_intensities self;
     processed_angles := processed_angles self;
     processed_intensities := processed_intensities self;
     background_curve := background_curve self;
     peaks_df := peaks_dataframe |}.

Definition reset_processing (self : XRDData) : XRDData :=
  {| filename := filename self;
     is_reference := is_reference self;
     raw_angles := raw_angles self;
     raw_intensities := raw_intensities self;
     processed_angles := processed_angles self;
     processed_intensities := raw_intensities self;
     background_curve := None;
     peaks_df := empty_frame |}.

End Container.

Arguments XRDData peak : clear implicits.

(** [os.path.basename] of [posixpath]: what follows the last ["/"]. *)
Fixpoint posix_basename_from (current : string) (s : string) : string :=
  match s with
  | EmptyString => current
  | String c s' =>
    if Ascii.eqb c "/" then posix_basename_from EmptyString s'
    else posix_basename_from (current +:+ String c EmptyString) s'
  end.

Definition posix_basename (p : string) : string :=
  posix_basename_from EmptyString p.

(** *** Vocabulary of the properties *)

(** The calls that change a container. *)
Inductive call {peak : Type} : Type :=
| SetBackground (background_curve : list Q)
| SetPeaks (peaks_dataframe : DataFrame peak)
| ResetProcessing.
Arguments call peak : clear implicits.

(** The container after a call, whether the call raised or not. *)
Definition after {peak : Type} (self : XRDData peak) (c : call peak)
  : XRDData peak :=
  match c with
  | SetBackground background_curve => (set_background background_curve self).1
  | SetPeaks peaks_dataframe => set_peaks peaks_dataframe self
  | ResetProcessing => reset_processing self
  end.

(** [processed_intensities] is the raw data minus the stored curve, or
    the raw data when no curve is stored. *)
Definition consistent {peak : Type} (self : XRDData peak) : Prop :=
  match background_curve self with
  | None => processed_intensities self = raw_intensities self
  | Some curve =>
    processed_intensities self = zip_with Qminus (raw_intensities self) curve
  end.

(** A call whose curve, if it has one, has [n] points. *)
Definition fits {peak : Type} (n : nat) (c : call peak) : Prop :=
  match c with
  | SetBackground background_curve => length background_curve = n
  | _ => True
  end.

End XrdData.

(** * The session state *)

Module Project.
Import SearchMatch XrdData.

Inductive error : Type :=
| ValueError.

Section Session.
Context {peak : Type}.
Variable basename : string -> string.

Record Project : Type := {
  db_id : option Z;
  experimental_data : option (XRDData peak);
  reference_data : gmap string (XRDData peak)
}.

(** [Project()] *)
Definition init : Project :=
  {| db_id := None; experimental_data := None; reference_data := ∅ |}.

Definition has_experimental_data (self : Project) : bool :=
  match experimental_data self with
  | Some _ => true
  | None => false
  end.

Definition load_experimental_data (xrd_data_obj : XRDData peak)
    (db_id : option Z) (self : Project) : Project * result error unit :=
  if is_reference xrd_data_obj then (self, Raise ValueError)
  else
    ({| db_id := db_id;
        experimental_data := Some xrd_data_obj;
        reference_data := reference_data self |},
     Ok tt).

Definition add_reference (xrd_data_obj : XRDData peak) (self : Project)
  : Project * result error unit :=
  if negb (is_reference xrd_data_obj) then (self, Raise ValueError)
  else
    let name := display_name basename xrd_data_obj in
    ({| db_id := db_id self;
        experimental_data := experimental_data self;
        reference_data := <[name := xrd_data_obj]> (reference_data self) |},
     Ok tt).

Definition get_reference_by_name (name : string) (self : Project)
  : option (XRDData peak) :=
  reference_data self !! name.

Definition remove_reference (name : string) (self : Project)
  : Project * bool :=
  match reference_data self !! name with
  | Some _ =>
    ({| db_id := db_id self;
        experimental_data := experimental_data self;
        reference_data := delete name (reference_data self) |},
     true)
  | None => (self, false)
  end.

Definition clear_project (self : Project) : Project := init.

End Session.

Arguments Project peak : clear implicits.

(** *** Vocabulary of the properties *)

(** The calls that change a project. *)
Inductive call {peak : Type} : Type :=
| LoadExperimentalData (xrd_data_obj : XRDData peak) (db_id : option Z)
| AddReference (xrd_data_obj : XRDData peak)
| RemoveReference (name : string)
| ClearProject.
Arguments call peak : clear implicits.

(** The project after a call, whether the call raised or not. *)
Definition after {peak : Type} (basename : string -> string)
    (self : Project peak) (c : call peak) : Project peak :=
  match c with
  | LoadExperimentalData xrd_data_obj db_id =>
    (load_experimental_data xrd_data_obj db_id self).1
  | AddReference xrd_data_obj => (add_reference basename xrd_data_obj self).1
  | RemoveReference name => (remove_reference name self).1
  | ClearProject => clear_project self
  end.

(** What the two guards maintain: the experimental pattern is not a
    reference, and every stored reference is one, under its display
    name. *)
Definition well_formed {peak : Type} (basename : string -> string)
    (self : Project peak) : Prop :=
  (forall x, experimental_data self = Some x -> is_reference x = false) /\
  (forall name x,
     reference_data self !! name = Some x ->
     is_reference x = true /\ display_name basename x = name).

End Project.

(** * The controller's background callbacks *)

Module MainApp.
Import SearchMatch Background XrdData Project.

(** What a callback asks of the window, in the order of the calls. *)
Inductive event : Type :=
| ShowErrorMessage (title message : string)
| RefreshUi
| UpdateStatus (message : string).

(** The dictionary [get_bg_params] returns: ['method'] is always there,
    ['poly_order'] and ['iterations'] only for their method. *)
Record bg_params : Type := {
  method : string;
  poly_order : option Z;
  iterations : option Z
}.

(** What a callback lets escape: [bg_curve] read before any branch
    assigned it, or the [ValueError] of [set_background]. *)
Inductive error : Type :=
| UnboundLocalError
| BroadcastError.

Section Controller.
Context {peak : Type}.

(** The controller as far as the callbacks go: the project, and the
    requests made to the window so far.  [xrd_data] in the callbacks is
    the project's own object, so what a callback does to it shows in the
    project. *)
Record MainApplication : Type := {
  project : Project peak;
  view : list event
}.

Definition with_experimental_data (self : MainApplication)
    (xrd_data : XRDData peak) (events : list event) : MainApplication :=
  {| project :=
       {| db_id := db_id (project self);
          experimental_data := Some xrd_data;
          reference_data := reference_data (project self) |};
     view := view self ++ events |}.

(** [apply_background], given what [get_bg_params()] returned. *)
Definition apply_background (params : option bg_params)
    (self : MainApplication) : MainApplication * result error unit :=
  match experimental_data (project self) with
  | None => (self, Ok tt)
  | Some xrd_data =>
    match params with
    | None => (self, Ok tt)
    | Some params =>
      if String.eqb (method params) "Polynomial" then
        ({| project := project self;
            view := view self ++
              [ShowErrorMessage "Not Implemented"
                 "Polynomial background requires interactive point selection, which is not yet implemented."] |},
         Ok tt)
      else if String.eqb (method params) "Iterative Erosion" then
        let bg_curve :=
          subtract_iterative_erosion (raw_intensities xrd_data)
            (default 50 (iterations params)) in
        match set_background bg_curve xrd_data with
        | (xrd_data, Raise _) =>
          (with_experimental_data self xrd_data [], Raise BroadcastError)
        | (xrd_data, Ok _) =>
          (with_experimental_data self xrd_data
             [RefreshUi; UpdateStatus "Background subtracted."],
           Ok tt)
        end
      else (self, Raise UnboundLocalError)
    end
  end.

Definition clear_background (self : MainApplication) : MainApplication :=
  match experimental_data (project self) with
  | None => self
  | Some xrd_data =>
    with_experimental_data self (reset_processing xrd_data)
      [RefreshUi; UpdateStatus "Processing reset."]
  end.

End Controller.

Arguments MainApplication peak : clear implicits.

(** *** Vocabulary of the properties *)

(** The parameters of the erosion method with a given iteration count. *)
Definition erosion_params (n : Z) : bg_params :=
  {| method := "Iterative Erosion"; poly_order := None;
     iterations := Some n |}.

End MainApp.

(** * The importer engine *)

Module Importers.
Import Text.

(** [str.lower()] on one 8-bit character: the letters [A-Z] and the
    capitals of Latin-1. *)
Definition lower_char (c : ascii) : ascii :=
  let n := nat_of_ascii c in
  if ((65 <=? n) && (n <=? 90)
      || (192 <=? n) && (n <=? 222) && negb (n =? 215))%nat
  then ascii_of_nat (n + 32)
  else c.

Fixpoint lower (s : string) : string :=
  match s with
  | EmptyString => EmptyString
  | String c s' => String (lower_char c) (lower s')
  end.

(** What [load_data] returns: the arrays of the reader, which are
    double-precision for the text reader and single-precision for the
    Bruker reader. *)
Inductive arrays : Type :=
| Float64 (angles intensities : list Q)
| Float32 (angles intensities : list spec_float).

Inductive reader : Type :=
| read_bruker_raw_v4
| read_panalytical_xrdml
| read_cif_file
| read_generic_text_file.

(** [READER_MAPPING.get(extension)] *)
Definition READER_MAPPING (extension : string) : option reader :=
  if String.eqb extension ".raw" then Some read_bruker_raw_v4
  else if String.eqb extension ".xrdml" then Some read_panalytical_xrdml
  else if String.eqb extension ".cif" then Some read_cif_file
  else if String.eqb extension ".xy" then Some read_generic_text_file
  else if String.eqb extension ".csv" then Some read_generic_text_file
  else if String.eqb extension ".txt" then Some read_generic_text_file
  else None.

(** The exception a reader other than the text reader let out.  Each
    reader module defines a [DataImportError] class of its own, and
    [load_data] knows the one of the text reader only. *)
Inductive cause : Type :=
| FromBruker (e : BrukerReader.error)
| FromPanalytical
| FromCif.

(** The [DataImportError]s of [load_data], told apart by their
    messages: its own file-not-found error, an error of the text reader
    raised again as it is, and the wrapper
    ["An unexpected error occurred while processing ..."]. *)
Inductive error : Type :=
| FileNotFound
| Reader (e : GenericReader.error)
| UnexpectedError (c : cause).

Section Engine.

(** Python's [float], as in the text reader. *)
Variable float : string -> option Q.

(** [os.path.splitext] is the platform's. *)
Variable splitext : string -> string * string.

(** The XRDML and CIF readers rest on an XML parser and on pymatgen;
    [None] stands for any exception they raise. *)
Variable panalytical_reader :
  gmap string string -> string -> option (list Q * list Q).
Variable cif_reader :
  gmap string string -> string -> option (list Q * list Q).

(** [os.path.exists] is membership in the file system.  As for the
    readers, a path that is not mapped is a path at which nothing exists,
    and directories, for which [os.path.exists] is true as well, are not
    represented.  The messages of the errors carry the name of the file,
    which the error type leaves out. *)
Definition load_data (fs : gmap string string) (filepath : string)
  : result error arrays :=
  match fs !! filepath with
  | None => Raise FileNotFound
  | Some _ =>
    let extension := lower (splitext filepath).2 in
    let reader_func := READER_MAPPING extension in
    match default read_generic_text_file reader_func with
    | read_generic_text_file =>
      match GenericReader.read_generic_text_file float fs filepath with
      | Ok (angles, intensities) => Ok (Float64 angles intensities)
      | Raise e => Raise (Reader e)
      end
    | read_bruker_raw_v4 =>
      match BrukerReader.read_bruker_raw_v4 fs filepath with
      | Ok (angles, intensities) => Ok (Float32 angles intensities)
      | Raise e => Raise (UnexpectedError (FromBruker e))
      end
    | read_panalytical_xrdml =>
      match panalytical_reader fs filepath with
      | Some (angles, intensities) => Ok (Float64 angles intensities)
      | None => Raise (UnexpectedError FromPanalytical)
      end
    | read_cif_file =>
      match cif_reader fs filepath with
      | Some (angles, intensities) => Ok (Float64 angles intensities)
      | None => Raise (UnexpectedError FromCif)
      end
    end
  end.

End Engine.

(** *** [os.path.splitext] of [posixpath] *)

(** [s.rfind(c)], with [-1] for no occurrence; [i] is the position of
    the first character of [s]. *)
Fixpoint rfind_from (c : ascii) (i : Z) (found : Z) (s : string) : Z :=
  match s with
  | EmptyString => found
  | String c' s' =>
    rfind_from c (i + 1) (if Ascii.eqb c' c then i else found) s'
  end.

Definition rfind (c : ascii) (s : string) : Z := rfind_from c 0 (-1) s.

(** The extension starts at the last dot of the last component, unless
    only dots come before it in that component. *)
Definition posix_splitext (p : string) : string * string :=
  let sepIndex := rfind "/" p in
  let dotIndex := rfind "." p in
  if sepIndex <? dotIndex then
    let between :=
      take_string (Z.to_nat (dotIndex - (sepIndex + 1)))
        (drop_string (Z.to_nat (sepIndex + 1)) p) in
    if forallb (fun c => Ascii.eqb c ".") (list_ascii_of_string between)
    then (p, EmptyString)
    else (take_string (Z.to_nat dotIndex) p,
          drop_string (Z.to_nat dotIndex) p)
  else (p, EmptyString).

(** *** Vocabulary of the properties *)

(** The lengths of the two arrays of a result. *)
Definition sizes (a : arrays) : nat * nat :=
  match a with
  | Float64 angles intensities => (length angles, length intensities)
  | Float32 angles intensities => (length angles, length intensities)
  end.

End Importers.

(** * Properties *)

(** ** Background estimation *)

Module BackgroundSpec.
Import Background.

Example np_roll_right : np_roll [1; 2; 3; 4] 1 = [4; 1; 2; 3].
Proof. reflexivity. Qed.

Example np_roll_left : np_roll [1; 2; 3; 4] (-1) = [2; 3; 4; 1].
Proof. reflexivity. Qed.

Example polyfit_line :
  lstsq_polyfit [1; 2]%Q [2; 4]%Q 1 = Some [2; 0]%Q.
Proof. vm_compute. reflexivity. Qed.

Example polyfit_overdetermined :
  lstsq_polyfit [0; 1; 2]%Q [1; 1; 4]%Q 1 = Some [3 # 2; 1 # 2]%Q.
Proof. vm_compute. reflexivity. Qed.

Example erosion_pulls_peak_down :
  map Qred (subtract_iterative_erosion [1; 1; 9; 1; 1]%Q 1)
  = [1; 1; 1; 1; 1]%Q.
Proof. vm_compute. reflexivity. Qed.

(** *** The anchor-count guard of [subtract_polynomial] *)

Section Guard.
Variable polyfit : list Q -> list Q -> Z -> option (list Q).

Lemma guard_raises angles intensities sel order :
  Z.of_nat (length sel) <= order ->
  subtract_polynomial polyfit angles intensities sel order
  = Raise BackgroundError.
Proof.
  intros H. unfold subtract_polynomial.
  destruct (Z.leb_spec (Z.of_nat (length sel)) order); [reflexivity | lia].
Qed.

Lemma guard_passes angles intensities sel order :
  order < Z.of_nat (length sel) ->
  subtract_polynomial polyfit angles intensities sel order
  <> Raise BackgroundError.
Proof.
  intros H. unfold subtract_polynomial.
  destruct (Z.leb_spec (Z.of_nat (length sel)) order); [lia |].
  destruct (np_take angles sel); [| discriminate].
  destruct (np_take intensities sel); [| discriminate].
  destruct (polyfit _ _ _); discriminate.
Qed.
End Guard.

(** With exactly [poly_order + 1] anchors the call succeeds: two anchors
    and a polynomial of order 1 give the line through the two points. *)
Example two_anchors_order_one :
  exists background,
    subtract_polynomial lstsq_polyfit [10; 20; 30]%Q [1; 3; 9]%Q [0; 2] 1
    = Ok background /\ map Qred background = [1; 5; 9]%Q.
Proof. eexists. split; [reflexivity | vm_compute; reflexivity]. Qed.

(** C2 (as amended).  The guard of [subtract_polynomial] is
    [len(selected_indices) <= poly_order]: the call raises [BackgroundError]
    whenever the number of anchors is at most [poly_order], a successful
    return requires at least [poly_order + 1] anchors, and with exactly
    [poly_order + 1] anchors [BackgroundError] is not raised. *)
Theorem subtract_polynomial_requires_order_plus_one
    (polyfit : list Q -> list Q -> Z -> option (list Q))
    (angles intensities : list Q) (selected_indices : list Z)
    (poly_order : Z) :
  let r := subtract_polynomial polyfit angles intensities
             selected_indices poly_order in
  let n := Z.of_nat (length selected_indices) in
  (n <= poly_order -> r = Raise BackgroundError) /\
  (forall background, r = Ok background -> poly_order + 1 <= n) /\
  (n = poly_order + 1 -> r <> Raise BackgroundError).
Proof.
  intros r n. subst r n. split; [| split].
  - apply guard_raises.
  - intros background Hok.
    destruct (Z_le_gt_dec (Z.of_nat (length selected_indices)) poly_order)
      as [Hle | Hgt]; [| lia].
    rewrite (guard_raises polyfit angles intensities _ _ Hle) in Hok.
    discriminate.
  - intros Heq. apply guard_passes. lia.
Qed.

(** The claim C2 as stated fails: two anchors for a polynomial of order 1
    satisfy [len <= poly_order + 1], and the call returns the background
    (the line through the two anchor points) instead of raising. *)
Lemma subtract_polynomial_order_plus_one_not_rejected :
  Z.of_nat (length [0; 2]) <= 1 + 1 /\
  subtract_polynomial lstsq_polyfit [10; 20; 30]%Q [1; 3; 9]%Q [0; 2] 1
  <> Raise BackgroundError /\
  exists background,
    subtract_polynomial lstsq_polyfit [10; 20; 30]%Q [1; 3; 9]%Q [0; 2] 1
    = Ok background /\ map Qred background = [1; 5; 9]%Q.
Proof.
  split; [simpl; lia |]. split; [discriminate |].
  eexists. split; [reflexivity | vm_compute; reflexivity].
Qed.

(** The amended statement at the module's own error test (three anchors,
    order 4) and at two anchors for order 1. *)
Lemma subtract_polynomial_requires_order_plus_one_witness :
  subtract_polynomial lstsq_polyfit [10; 20; 30; 40]%Q [1; 3; 9; 4]%Q
    [0; 1; 2] 4
  = Raise BackgroundError /\
  subtract_polynomial lstsq_polyfit [10; 20; 30]%Q [1; 3; 9]%Q [0; 2] 1
  <> Raise BackgroundError.
Proof.
  split.
  - apply (proj1 (subtract_polynomial_requires_order_plus_one lstsq_polyfit
                    [10; 20; 30; 40]%Q [1; 3; 9; 4]%Q [0; 1; 2] 4)).
    simpl. lia.
  - apply (proj2 (proj2 (subtract_polynomial_requires_order_plus_one
                           lstsq_polyfit [10; 20; 30]%Q [1; 3; 9]%Q
                           [0; 2] 1))).
    reflexivity.
Defined.

(** C3.  [subtract_polynomial] raises [BackgroundError] for every call with
    at most [poly_order] anchors, and never raises it when the number of
    anchors is [poly_order + 1] or more. *)
Theorem subtract_polynomial_insufficient_anchors
    (polyfit : list Q -> list Q -> Z -> option (list Q))
    (angles intensities : list Q) (selected_indices : list Z)
    (poly_order : Z) :
  (Z.of_nat (length selected_indices) <= poly_order ->
   subtract_polynomial polyfit angles intensities selected_indices poly_order
   = Raise BackgroundError) /\
  (poly_order + 1 <= Z.of_nat (length selected_indices) ->
   subtract_polynomial polyfit angles intensities selected_indices poly_order
   <> Raise BackgroundError).
Proof.
  split.
  - apply guard_raises.
  - intros H. apply guard_passes. lia.
Qed.

(** The theorem with three anchors: too few for order 3, enough for
    order 2. *)
Lemma subtract_polynomial_insufficient_anchors_witness :
  subtract_polynomial lstsq_polyfit [10; 20; 30; 40]%Q [1; 3; 9; 4]%Q
    [0; 1; 3] 3
  = Raise BackgroundError /\
  subtract_polynomial lstsq_polyfit [10; 20; 30; 40]%Q [1; 3; 9; 4]%Q
    [0; 1; 3] 2
  <> Raise BackgroundError.
Proof.
  split.
  - apply (proj1 (subtract_polynomial_insufficient_anchors lstsq_polyfit
                    [10; 20; 30; 40]%Q [1; 3; 9; 4]%Q [0; 1; 3] 3)).
    simpl. lia.
  - apply (proj2 (subtract_polynomial_insufficient_anchors lstsq_polyfit
                    [10; 20; 30; 40]%Q [1; 3; 9; 4]%Q [0; 1; 3] 2)).
    simpl. lia.
Defined.

(** *** Iterative erosion *)

Lemma np_roll_length {A : Type} (a : list A) (shift : Z) :
  length (np_roll a shift) = length a.
Proof. apply length_rotate. Qed.

Lemma np_roll_lookup {A : Type} (a : list A) (shift : Z) (i : nat) :
  (i < length a)%nat ->
  np_roll a shift !! i
  = a !! Z.to_nat ((Z.of_nat i - shift) mod Z.of_nat (length a)).
Proof.
  intros Hi. unfold np_roll. rewrite lookup_rotate_r by assumption.
  unfold rotate_nat_add. f_equal. f_equal.
  assert (Hn : 0 < Z.of_nat (length a)) by lia.
  rewrite Z2Nat.id by (apply Z.mod_pos_bound; assumption).
  rewrite Zplus_mod_idemp_l. f_equal. lia.
Qed.

Lemma erosion_step_length (b : list Q) :
  length (erosion_step b) = length b.
Proof.
  unfold erosion_step.
  rewrite !length_zip_with, !np_roll_length. lia.
Qed.

Lemma erosion_step_lookup (b : list Q) (i : nat) :
  (i < length b)%nat ->
  exists c l r,
    b !! i = Some c /\
    b !! Z.to_nat ((Z.of_nat i - 1) mod Z.of_nat (length b)) = Some l /\
    b !! Z.to_nat ((Z.of_nat i + 1) mod Z.of_nat (length b)) = Some r /\
    erosion_step b !! i = Some (Qmin c ((l + r) / 2)).
Proof.
  intros Hi.
  assert (Hn : 0 < Z.of_nat (length b)) by lia.
  destruct (lookup_lt_is_Some_2 b i Hi) as [c Hc].
  destruct (lookup_lt_is_Some_2 b
              (Z.to_nat ((Z.of_nat i - 1) mod Z.of_nat (length b))))
    as [l Hl].
  { pose proof (Z.mod_pos_bound (Z.of_nat i - 1) _ Hn). lia. }
  destruct (lookup_lt_is_Some_2 b
              (Z.to_nat ((Z.of_nat i + 1) mod Z.of_nat (length b))))
    as [r Hr].
  { pose proof (Z.mod_pos_bound (Z.of_nat i + 1) _ Hn). lia. }
  exists c, l, r. repeat split; try assumption.
  unfold erosion_step.
  rewrite !lookup_zip_with, !np_roll_lookup by assumption.
  replace (Z.of_nat i - -1) with (Z.of_nat i + 1) by lia.
  rewrite Hc, Hl, Hr. reflexivity.
Qed.

Lemma erosion_step_le (b : list Q) (i : nat) (x y : Q) :
  b !! i = Some x -> erosion_step b !! i = Some y -> (y <= x)%Q.
Proof.
  intros Hx Hy.
  destruct (erosion_step_lookup b i) as (c & l & r & Hc & _ & _ & Hs).
  { eapply lookup_lt_Some; eassumption. }
  rewrite Hx in Hc. rewrite Hy in Hs.
  injection Hc as <-. injection Hs as ->.
  apply Q.le_min_l.
Qed.

Lemma rotate_Forall2 {A : Type} (R : A -> A -> Prop) (k : nat)
    (a a' : list A) :
  Forall2 R a a' -> Forall2 R (rotate k a) (rotate k a').
Proof.
  intros H. unfold rotate.
  rewrite <- (Forall2_length _ _ _ H).
  apply Forall2_app; [apply Forall2_drop | apply Forall2_take]; assumption.
Qed.

Lemma zip_with_Forall2 {A B C : Type} (RA : A -> A -> Prop)
    (RB : B -> B -> Prop) (RC : C -> C -> Prop) (f : A -> B -> C) :
  (forall x x' y y', RA x x' -> RB y y' -> RC (f x y) (f x' y')) ->
  forall l l' k k',
    Forall2 RA l l' -> Forall2 RB k k' ->
    Forall2 RC (zip_with f l k) (zip_with f l' k').
Proof.
  intros Hf l l' k k' Hl. revert k k'.
  induction Hl as [|x x' l l' Hx Hl IH]; intros k k' Hk; simpl.
  - constructor.
  - destruct Hk as [|y y' k k' Hy Hk]; constructor; auto.
Qed.

Lemma erosion_step_proper (b b' : list Q) :
  Forall2 Qeq b b' -> Forall2 Qeq (erosion_step b) (erosion_step b').
Proof.
  intros H. unfold erosion_step, np_roll.
  rewrite <- (Forall2_length _ _ _ H).
  apply (zip_with_Forall2 Qeq Qeq Qeq); [| assumption |].
  - intros x x' y y' Hx Hy. rewrite Hx, Hy. reflexivity.
  - apply (zip_with_Forall2 Qeq Qeq Qeq).
    + intros x x' y y' Hx Hy. rewrite Hx, Hy. reflexivity.
    + apply rotate_Forall2; assumption.
    + apply rotate_Forall2; assumption.
Qed.

Lemma erosion_succ (intensities : list Q) (N : Z) :
  0 <= N ->
  subtract_iterative_erosion intensities (N + 1)
  = erosion_step (subtract_iterative_erosion intensities N).
Proof.
  intros HN. unfold subtract_iterative_erosion.
  rewrite Z2Nat.inj_add by lia. rewrite Nat.add_comm. reflexivity.
Qed.

Lemma erosion_length (intensities : list Q) (N : Z) :
  length (subtract_iterative_erosion intensities N) = length intensities.
Proof.
  unfold subtract_iterative_erosion.
  induction (Z.to_nat N) as [|n IH]; simpl.
  - reflexivity.
  - rewrite erosion_step_length. exact IH.
Qed.

(** C4.  [subtract_iterative_erosion] starts from the input intensities
    (and returns them unchanged for a non-positive count); each iteration
    replaces every point by the minimum of its current value and the
    average of its two neighbours, the neighbours being looked up
    circularly; hence no point ever increases from one iteration to the
    next; and the result is a function of the input and the count alone
    (equal inputs give equal outputs, whatever fractions represent them). *)
Theorem subtract_iterative_erosion_spec (intensities : list Q) :
  (forall N, N <= 0 ->
     subtract_iterative_erosion intensities N = intensities) /\
  (forall N, 0 <= N ->
     subtract_iterative_erosion intensities (N + 1)
     = erosion_step (subtract_iterative_erosion intensities N)) /\
  (forall (b : list Q) (i : nat), (i < length b)%nat ->
     exists c l r,
       b !! i = Some c /\
       b !! Z.to_nat ((Z.of_nat i - 1) mod Z.of_nat (length b)) = Some l /\
       b !! Z.to_nat ((Z.of_nat i + 1) mod Z.of_nat (length b)) = Some r /\
       erosion_step b !! i = Some (Qmin c ((l + r) / 2))) /\
  (forall N (i : nat) x y, 0 <= N ->
     subtract_iterative_erosion intensities N !! i = Some x ->
     subtract_iterative_erosion intensities (N + 1) !! i = Some y ->
     (y <= x)%Q) /\
  (forall N,
     length (subtract_iterative_erosion intensities N)
     = length intensities) /\
  (forall intensities' N,
     Forall2 Qeq intensities intensities' ->
     Forall2 Qeq (subtract_iterative_erosion intensities N)
                 (subtract_iterative_erosion intensities' N)).
Proof.
  repeat split.
  - intros N HN. unfold subtract_iterative_erosion.
    replace (Z.to_nat N) with 0%nat by lia. reflexivity.
  - apply erosion_succ.
  - apply erosion_step_lookup.
  - intros N i x y HN Hx Hy. rewrite erosion_succ in Hy by assumption.
    eapply erosion_step_le; eassumption.
  - apply erosion_length.
  - intros intensities' N H. unfold subtract_iterative_erosion.
    induction (Z.to_nat N) as [|n IH]; simpl.
    + assumption.
    + apply erosion_step_proper. exact IH.
Qed.

(** The theorem on a flat signal with one peak: the first iteration is one
    step from the input, and the peak does not rise. *)
Lemma subtract_iterative_erosion_spec_witness :
  subtract_iterative_erosion [1; 1; 9; 1; 1]%Q (0 + 1)
  = erosion_step (subtract_iterative_erosion [1; 1; 9; 1; 1]%Q 0) /\
  exists y,
    subtract_iterative_erosion [1; 1; 9; 1; 1]%Q (0 + 1) !! 2%nat = Some y /\
    (y <= 9)%Q.
Proof.
  destruct (subtract_iterative_erosion_spec [1; 1; 9; 1; 1]%Q)
    as (_ & Hsucc & _ & Hmono & _).
  split.
  - apply Hsucc. lia.
  - eexists. split; [reflexivity |].
    apply (Hmono 0 2%nat); [lia | reflexivity | reflexivity].
Defined.

End BackgroundSpec.

(** ** Quantitative phase analysis *)

Module QpaSpec.
Import Qpa.

Example rir_equal_weights :
  exists w,
    calculate_rir_quantification
      [mk_phase 950 1; mk_phase 750 1; mk_phase 550 1] = Ok w /\
    map Qred w = [380 # 9; 100 # 3; 220 # 9]%Q /\
    Qred (Qsum w) = 100%Q.
Proof.
  eexists. split; [reflexivity |]. split; vm_compute; reflexivity.
Qed.

Lemma fold_left_Qplus (l : list Q) (s : Q) :
  (fold_left Qplus l s == s + Qsum l)%Q.
Proof.
  revert s. induction l as [|x l IH]; intros s; simpl.
  - ring.
  - rewrite IH. ring.
Qed.

Lemma rir_loop_raises (phase_data : list phase) (s : Q) (vs : list Q) :
  (exists p, p ∈ phase_data /\ (get p "rir" <= 0)%Q) ->
  rir_loop phase_data s vs = Raise QpaError.
Proof.
  revert s vs. induction phase_data as [|q rest IH]; intros s vs (p & Hin & Hle).
  - inversion Hin.
  - simpl. destruct (Qle_bool (get q "rir") 0) eqn:Hq; [reflexivity |].
    apply IH. exists p. split; [| assumption].
    apply elem_of_cons in Hin as [-> | Hin]; [| assumption].
    apply Qle_bool_iff in Hle. congruence.
Qed.

Lemma rir_loop_returns (phase_data : list phase) (s : Q) (vs : list Q) :
  (forall p, p ∈ phase_data -> (0 < get p "rir")%Q) ->
  rir_loop phase_data s vs
  = Ok (fold_left Qplus (map phase_value phase_data) s,
        vs ++ map phase_value phase_data).
Proof.
  revert s vs. induction phase_data as [|q rest IH]; intros s vs Hpos; simpl.
  - rewrite app_nil_r. reflexivity.
  - destruct (Qle_bool (get q "rir") 0) eqn:Hq.
    + apply Qle_bool_iff in Hq.
      pose proof (Hpos q (list_elem_of_here q rest)) as Hlt.
      exfalso. exact (Qlt_not_le _ _ Hlt Hq).
    + rewrite IH.
      * rewrite <- app_assoc. reflexivity.
      * intros p Hp. apply Hpos. apply list_elem_of_further. exact Hp.
Qed.

Lemma weights_Forall2 (vs : list Q) (s s' : Q) :
  (s == s')%Q ->
  Forall2 Qeq (map (fun val => (val / s * 100)%Q) vs)
              (map (fun val => (val / s' * 100)%Q) vs).
Proof.
  intros Hs. induction vs as [|v vs IH]; simpl; constructor.
  - rewrite Hs. reflexivity.
  - exact IH.
Qed.

(** C8.  [calculate_rir_quantification] returns the empty list for an
    empty phase list; raises [QpaError] if some phase has an RIR that is
    not positive; and otherwise, with [v_i = intensity_i / RIR_i], returns
    a zero for every phase when the [v_i] sum to 0, and
    [v_i / sum * 100] for every phase when they do not. *)
Theorem calculate_rir_quantification_spec (phase_data : list phase) :
  calculate_rir_quantification [] = Ok [] /\
  ((exists p, p ∈ phase_data /\ (get p "rir" <= 0)%Q) ->
   calculate_rir_quantification phase_data = Raise QpaError) /\
  ((forall p, p ∈ phase_data -> (0 < get p "rir")%Q) ->
   let v := map phase_value phase_data in
   ((Qsum v == 0)%Q ->
    calculate_rir_quantification phase_data
    = Ok (replicate (length phase_data) 0%Q)) /\
   (~ (Qsum v == 0)%Q ->
    exists w,
      calculate_rir_quantification phase_data = Ok w /\
      Forall2 Qeq w (map (fun x => (x / Qsum v * 100)%Q) v))).
Proof.
  split; [reflexivity |]. split.
  - intros Hbad. destruct phase_data as [|q rest].
    + destruct Hbad as (p & Hin & _). inversion Hin.
    + unfold calculate_rir_quantification.
      rewrite (rir_loop_raises _ _ _ Hbad). reflexivity.
  - intros Hpos v.
    assert (Hsum : (fold_left Qplus v 0 == Qsum v)%Q).
    { rewrite fold_left_Qplus. ring. }
    destruct phase_data as [|q rest].
    + split.
      * intros _. reflexivity.
      * intros H. exfalso. apply H. reflexivity.
    + unfold calculate_rir_quantification.
      rewrite (rir_loop_returns _ _ _ Hpos). fold v. split.
      * intros Hz.
        destruct (Qeq_bool (fold_left Qplus v 0%Q) 0%Q) eqn:Hb; [reflexivity |].
        apply Qeq_bool_neq in Hb. exfalso. apply Hb.
        rewrite Hsum. exact Hz.
      * intros Hnz.
        destruct (Qeq_bool (fold_left Qplus v 0%Q) 0%Q) eqn:Hb.
        -- apply Qeq_bool_iff in Hb. exfalso. apply Hnz.
           rewrite <- Hsum. exact Hb.
        -- eexists. split; [reflexivity |]. simpl app.
           apply weights_Forall2. exact Hsum.
Qed.

(** The theorem at the three phases of the specification's example, and
    at a phase list with a zero RIR. *)
Lemma calculate_rir_quantification_spec_witness :
  (exists w,
     calculate_rir_quantification
       [mk_phase 950 1; mk_phase 750 1; mk_phase 550 1] = Ok w /\
     Forall2 Qeq w
       [950 / 2250 * 100; 750 / 2250 * 100; 550 / 2250 * 100]%Q) /\
  calculate_rir_quantification [mk_phase 950 1; mk_phase 750 0]
  = Raise QpaError.
Proof.
  split.
  - destruct (proj2 (proj2 (calculate_rir_quantification_spec
                              [mk_phase 950 1; mk_phase 750 1;
                               mk_phase 550 1])))
      as [_ (w & Hcall & Hw)].
    + intros p Hp. repeat (apply elem_of_cons in Hp as [-> | Hp]);
        [reflexivity .. | inversion Hp].
    + vm_compute. discriminate.
    + exists w. split; [exact Hcall |].
      eapply Forall2_impl; [exact Hw |]. 
      intros x y Hxy. exact Hxy.
  - apply (proj1 (proj2 (calculate_rir_quantification_spec
                           [mk_phase 950 1; mk_phase 750 0]))).
    exists (mk_phase 750 0). split.
    + apply list_elem_of_further, list_elem_of_here.
    + vm_compute. discriminate.
Defined.

Lemma rir_loop_same_reads (pd pd' : list phase) :
  Forall2 same_reads pd pd' ->
  forall s vs, rir_loop pd s vs = rir_loop pd' s vs.
Proof.
  induction 1 as [|p q pd pd' [Hi Hr] _ IH]; intros s vs; simpl.
  - reflexivity.
  - rewrite Hi, Hr. destruct (Qle_bool (get q "rir") 0); [reflexivity |].
    apply IH.
Qed.

Lemma calculate_same_reads (pd pd' : list phase) :
  Forall2 same_reads pd pd' ->
  calculate_rir_quantification pd = calculate_rir_quantification pd'.
Proof.
  intros H. pose proof (Forall2_length _ _ _ H) as Hlen.
  pose proof (rir_loop_same_reads _ _ H 0%Q []) as Hloop.
  destruct H as [|p q pd pd' Hpq H]; [reflexivity |].
  unfold calculate_rir_quantification.
  rewrite Hloop, Hlen. reflexivity.
Qed.

Lemma same_reads_refl (pd : list phase) : Forall2 same_reads pd pd.
Proof. induction pd; constructor; [split; reflexivity | assumption]. Qed.

Lemma same_reads_default (p : phase) (key : string) :
  p !! key = None -> same_reads p (<[key := 0%Q]> p).
Proof.
  intros Hnone. unfold same_reads, get. split.
  - destruct (decide (key = "intensity")) as [-> | Hne].
    + rewrite lookup_insert_eq, Hnone. reflexivity.
    + rewrite lookup_insert_ne by assumption. reflexivity.
  - destruct (decide (key = "rir")) as [-> | Hne].
    + rewrite lookup_insert_eq, Hnone. reflexivity.
    + rewrite lookup_insert_ne by assumption. reflexivity.
Qed.

Lemma calculate_insert_default (before after : list phase) (p : phase)
    (key : string) :
  p !! key = None ->
  calculate_rir_quantification (before ++ p :: after)
  = calculate_rir_quantification (before ++ <[key := 0%Q]> p :: after).
Proof.
  intros Hnone. apply calculate_same_reads.
  apply Forall2_app; [apply same_reads_refl |].
  constructor; [apply same_reads_default; assumption | apply same_reads_refl].
Qed.

(** C10.  A phase without the ['rir'] key is read as RIR 0, so a phase
    list that contains it always raises [QpaError]; a phase without the
    ['intensity'] key is read as intensity 0: the key's absence raises
    nothing, and whenever the call returns (all RIRs positive) the weight
    percent of that phase is 0. *)
Theorem calculate_rir_quantification_missing_keys
    (before after : list phase) (p : phase) :
  let phase_data := before ++ p :: after in
  (p !! "rir" = None ->
   calculate_rir_quantification phase_data
   = calculate_rir_quantification (before ++ <["rir" := 0%Q]> p :: after) /\
   calculate_rir_quantification phase_data = Raise QpaError) /\
  (p !! "intensity" = None ->
   calculate_rir_quantification phase_data
   = calculate_rir_quantification
       (before ++ <["intensity" := 0%Q]> p :: after) /\
   ((forall q, q ∈ phase_data -> (0 < get q "rir")%Q) ->
    exists w x,
      calculate_rir_quantification phase_data = Ok w /\
      length w = length phase_data /\
      w !! length before = Some x /\ (x == 0)%Q)).
Proof.
  intros phase_data. split.
  - intros Hnone. split; [apply calculate_insert_default; assumption |].
    assert (Hbad : exists q, q ∈ phase_data /\ (get q "rir" <= 0)%Q).
    { exists p. split.
      - apply elem_of_app. right. apply list_elem_of_here.
      - unfold get. rewrite Hnone. apply Qle_refl. }
    unfold calculate_rir_quantification.
    rewrite (rir_loop_raises _ _ _ Hbad).
    subst phase_data. destruct before; reflexivity.
  - intros Hnone. split; [apply calculate_insert_default; assumption |].
    intros Hpos.
    assert (Hcalc : calculate_rir_quantification phase_data =
      let v := map phase_value phase_data in
      let s := fold_left Qplus v 0%Q in
      if Qeq_bool s 0 then Ok (replicate (length phase_data) 0%Q)
      else Ok (map (fun val => (val / s * 100)%Q) v)).
    { unfold calculate_rir_quantification.
      rewrite (rir_loop_returns _ _ _ Hpos).
      subst phase_data. destruct before; reflexivity. }
    rewrite Hcalc. cbv zeta.
    assert (Hlt : (length before < length phase_data)%nat).
    { subst phase_data. rewrite length_app. simpl. lia. }
    destruct (Qeq_bool _ 0).
    + exists (replicate (length phase_data) 0%Q), 0%Q.
      split; [reflexivity |]. split; [apply length_replicate |].
      split; [| reflexivity].
      apply lookup_replicate_2. exact Hlt.
    + eexists _, _. split; [reflexivity |].
      split; [rewrite !length_map; reflexivity |]. split.
      * rewrite list_lookup_fmap. subst phase_data.
        rewrite list_lookup_fmap, list_lookup_middle by reflexivity.
        reflexivity.
      * unfold phase_value, get at 1. rewrite Hnone. simpl default.
        unfold Qdiv. ring.
Qed.

(** The theorem at a concrete phase list: the second phase lacks a key. *)
Lemma calculate_rir_quantification_missing_keys_witness :
  calculate_rir_quantification
    [mk_phase 950 1; <["intensity" := 750%Q]> ∅; mk_phase 550 1]
  = Raise QpaError /\
  exists w x,
    calculate_rir_quantification
      [mk_phase 950 1; <["rir" := 2%Q]> ∅; mk_phase 550 1] = Ok w /\
    length w = 3%nat /\ w !! 1%nat = Some x /\ (x == 0)%Q.
Proof.
  split.
  - apply (proj1 (calculate_rir_quantification_missing_keys
                    [mk_phase 950 1] [mk_phase 550 1]
                    (<["intensity" := 750%Q]> ∅))).
    reflexivity.
  - apply (proj2 (calculate_rir_quantification_missing_keys
                    [mk_phase 950 1] [mk_phase 550 1]
                    (<["rir" := 2%Q]> ∅))).
    + reflexivity.
    + intros q Hq. repeat (apply elem_of_cons in Hq as [-> | Hq]);
        [reflexivity .. | inversion Hq].
Defined.

End QpaSpec.

(** ** Search-match scoring *)

Module SearchMatchSpec.
Import SearchMatch.

Example good_match :
  exists fom table,
    perform_search_match stable_sort_values
      (peaks_frame [3175 # 100; 40; 4548 # 100; 5652 # 100]%Q) nacl (1 # 10)
    = Ok (Finite fom, table) /\ Qred fom = 100%Q /\ length table = 3%nat.
Proof. eexists _, _. split; [vm_compute; reflexivity |]. split; reflexivity. Qed.

Example poor_match :
  perform_search_match stable_sort_values
    (peaks_frame [20; 25; 50]%Q) nacl (1 # 10)
  = Ok (Finite 0, []).
Proof. vm_compute. reflexivity. Qed.

Example partial_match :
  exists fom table,
    perform_search_match stable_sort_values
      (peaks_frame [4551 # 100; 5649 # 100]%Q) nacl (1 # 10)
    = Ok (Finite fom, table) /\ Qred fom = (175 # 3)%Q /\ length table = 2%nat.
Proof. eexists _, _. split; [vm_compute; reflexivity |]. split; reflexivity. Qed.

(** *** Sorting

    The stable instance sorts by intensity. *)

Lemma insert_desc_perm (r : ref_row) (l : list ref_row) :
  insert_desc r l ≡ₚ r :: l.
Proof.
  induction l as [|h t IH]; simpl.
  - reflexivity.
  - destruct (Qle_bool (r_intensity h) (r_intensity r)).
    + reflexivity.
    + rewrite IH. apply Permutation_swap.
Qed.

Lemma insert_desc_sorted (r : ref_row) (l : list ref_row) :
  StronglySorted stronger l -> StronglySorted stronger (insert_desc r l).
Proof.
  induction 1 as [|h t Ht IH Hh]; simpl.
  - repeat constructor.
  - destruct (Qle_bool (r_intensity h) (r_intensity r)) eqn:Hle.
    + apply Qle_bool_iff in Hle. constructor.
      * constructor; assumption.
      * constructor; [exact Hle |].
        eapply Forall_impl; [exact Hh |].
        intros x Hx. unfold stronger in *. eapply Qle_trans; eassumption.
    + constructor; [exact IH |].
      rewrite (insert_desc_perm r t). constructor; [| exact Hh].
      unfold stronger. apply Qlt_le_weak, Qnot_le_lt.
      intros Hc. apply Qle_bool_iff in Hc. congruence.
Qed.

Lemma stable_sort_values_sorts : sorts_by_intensity stable_sort_values.
Proof.
  intros l. induction l as [|r l [IHp IHs]]; simpl.
  - split; [reflexivity | constructor].
  - split.
    + rewrite insert_desc_perm, IHp. reflexivity.
    + apply insert_desc_sorted. exact IHs.
Qed.

Example stable_sort_keeps_ties :
  map r_angle
    (stable_sort_values
       (rows (reference_frame [(1, 5); (2, 7); (3, 5); (4, 9); (5, 7)]%Q)))
  = [4; 2; 5; 1; 3]%Q.
Proof. reflexivity. Qed.

Lemma Qsum_perm (l k : list Q) : l ≡ₚ k -> (Qsum l == Qsum k)%Q.
Proof.
  induction 1 as [|x l k _ IH|x y l|l k m _ IH1 _ IH2]; simpl.
  - reflexivity.
  - rewrite IH. reflexivity.
  - ring.
  - rewrite IH1. exact IH2.
Qed.

Lemma total_intensity_perm (l k : list ref_row) :
  l ≡ₚ k -> (Qsum (map r_intensity l) == Qsum (map r_intensity k))%Q.
Proof. intros H. apply Qsum_perm, fmap_Permutation, H. Qed.

(** *** One step of the loop *)

Lemma nth_elem_of {A : Type} (n : nat) (l : list A) (d : A) :
  d ∈ l -> nth n l d ∈ l.
Proof.
  intros Hd. destruct (Nat.lt_ge_cases n (length l)) as [Hlt | Hge].
  - apply list_elem_of_In, nth_In. exact Hlt.
  - rewrite nth_overflow by exact Hge. exact Hd.
Qed.

Lemma potential_matches_spec (experimental_peaks : list peak_row)
    (a tol : Q) (used : gset Z) (e : peak_row) :
  e ∈ potential_matches experimental_peaks a tol used <->
  e ∈ experimental_peaks /\
  in_window (a - tol) (a + tol) e = true /\
  row_name e ∉ used.
Proof.
  unfold potential_matches.
  rewrite list_elem_of_In, !filter_In, <- list_elem_of_In.
  unfold unused. rewrite negb_true_iff, bool_decide_eq_false. tauto.
Qed.

Lemma match_step_cases (experimental_peaks : list peak_row) (tol : Q)
    (st : state) (r : ref_row) :
  (potential_matches experimental_peaks (r_angle r) tol (used_exp_indices st)
   = [] /\
   match_step experimental_peaks tol st r = st) \/
  (exists e,
     e ∈ potential_matches experimental_peaks (r_angle r) tol
           (used_exp_indices st) /\
     match_step experimental_peaks tol st r
     = {| used_exp_indices := {[row_name e]} ∪ used_exp_indices st;
          matched_peaks_info := matched_peaks_info st ++ [record_of r e];
          matched_reference_intensity :=
            (matched_reference_intensity st + r_intensity r)%Q |}).
Proof.
  unfold match_step.
  destruct (potential_matches experimental_peaks (r_angle r) tol
              (used_exp_indices st)) as [|first rest] eqn:Hpm.
  - left. split; reflexivity.
  - right. exists (closest (r_angle r) first (first :: rest)). split.
    + apply nth_elem_of. apply list_elem_of_here.
    + reflexivity.
Qed.

(** *** The loop as a whole *)

Lemma traces_shift (r : ref_row) (reference : list ref_row)
    (recs : list match_record) (chosen : list (nat * peak_row)) :
  traces reference recs chosen ->
  traces (r :: reference) recs (map shift chosen).
Proof.
  unfold traces. intros H. apply Forall2_fmap_r.
  eapply Forall2_impl; [exact H |].
  intros rec c (r' & Hr' & Hrec). exists r'. split; assumption.
Qed.

Lemma shift_sorted (chosen : list (nat * peak_row)) :
  StronglySorted lt (map fst chosen) ->
  StronglySorted lt (map fst (map shift chosen)).
Proof.
  induction chosen as [|c chosen IH]; simpl; intros H.
  - constructor.
  - apply StronglySorted_inv in H as [Hs Hall]. constructor.
    + apply IH. exact Hs.
    + rewrite Forall_forall in Hall |- *. intros i Hi.
      apply list_elem_of_In, in_map_iff in Hi as (c' & <- & Hc').
      apply in_map_iff in Hc' as (c'' & <- & Hc''). simpl.
      apply -> Nat.succ_lt_mono. apply Hall.
      apply list_elem_of_In, in_map. exact Hc''.
Qed.

Lemma shift_positive (chosen : list (nat * peak_row)) :
  Forall (lt 0) (map fst (map shift chosen)).
Proof.
  induction chosen as [|c chosen IH]; simpl; constructor.
  - lia.
  - exact IH.
Qed.

Lemma shift_names (chosen : list (nat * peak_row)) :
  map (fun c => row_name c.2) (map shift chosen)
  = map (fun c => row_name c.2) chosen.
Proof. rewrite map_map. reflexivity. Qed.

Lemma shift_bound (n : nat) (chosen : list (nat * peak_row)) :
  Forall (fun c => (c.1 < n)%nat) chosen ->
  Forall (fun c => (c.1 < S n)%nat) (map shift chosen).
Proof.
  intros H. apply List.Forall_map. eapply Forall_impl; [exact H |].
  intros c Hc. simpl in *. lia.
Qed.

(** The invariant of the loop, stated for a run that starts in any state. *)
Lemma match_loop_trace (experimental_peaks : list peak_row) (tol : Q)
    (reference : list ref_row) :
  forall st,
  exists recs chosen,
    let st' := match_loop experimental_peaks tol reference st in
    let names := map (fun c => row_name c.2) chosen in
    matched_peaks_info st' = matched_peaks_info st ++ recs /\
    traces reference recs chosen /\
    StronglySorted lt (map fst chosen) /\
    Forall (fun c => (c.1 < length reference)%nat) chosen /\
    NoDup names /\
    Forall (fun c => c.2 ∈ experimental_peaks /\
                     row_name c.2 ∉ used_exp_indices st) chosen /\
    used_exp_indices st' = list_to_set names ∪ used_exp_indices st /\
    (matched_reference_intensity st'
     == matched_reference_intensity st + Qsum (map ref_intensity recs))%Q.
Proof.
  induction reference as [|r reference IH]; intros st.
  - exists [], []. simpl. rewrite app_nil_r.
    repeat split; try constructor.
    + rewrite (left_id_L ∅ (∪)). reflexivity.
    + ring.
  - unfold match_loop. simpl fold_left.
    fold (match_loop experimental_peaks tol reference
            (match_step experimental_peaks tol st r)).
    destruct (IH (match_step experimental_peaks tol st r))
      as (recs & chosen & Hinfo & Htr & Hsort & Hlt & Hnd & Hall & Hused & Hsum).
    cbv zeta in *.
    destruct (match_step_cases experimental_peaks tol st r)
      as [[_ Hst] | (e & He & Hst)]; rewrite Hst in *; clear Hst.
    + exists recs, (map shift chosen). rewrite shift_names.
      repeat split; try assumption.
      * apply traces_shift. exact Htr.
      * apply shift_sorted. exact Hsort.
      * apply shift_bound. exact Hlt.
      * apply List.Forall_map. exact Hall.
    + simpl in *. apply potential_matches_spec in He as (Hin & _ & Hfresh).
      exists (record_of r e :: recs), ((0%nat, e) :: map shift chosen).
      simpl. rewrite shift_names.
      repeat split.
      * rewrite Hinfo, <- app_assoc. reflexivity.
      * constructor; [| apply traces_shift; exact Htr].
        exists r. split; reflexivity.
      * constructor; [apply shift_sorted; exact Hsort | apply shift_positive].
      * constructor; [simpl; lia | apply shift_bound; exact Hlt].
      * constructor; [| exact Hnd].
        intros Hdup.
        apply list_elem_of_In, in_map_iff in Hdup as (c & Hname & Hc).
        rewrite Forall_forall in Hall.
        destruct (Hall c (proj2 (list_elem_of_In _ _) Hc)) as [_ Hnot].
        apply Hnot. rewrite Hname.
        apply elem_of_union_l, elem_of_singleton. reflexivity.
      * constructor; [split; assumption |].
        apply List.Forall_map. eapply Forall_impl; [exact Hall |].
        intros c [Hc1 Hc2]. split; [exact Hc1 |]. simpl.
        intros Hc3. apply Hc2, elem_of_union_r, Hc3.
      * rewrite Hused, (assoc_L (∪)).
        rewrite (comm_L (∪) (list_to_set _) {[row_name e]}). reflexivity.
      * rewrite Hsum. ring.
Qed.

Lemma match_loop_bounds (experimental_peaks : list peak_row) (tol : Q)
    (reference : list ref_row) :
  Forall (fun r => (0 <= r_intensity r)%Q) reference ->
  forall st,
    let st' := match_loop experimental_peaks tol reference st in
    (matched_reference_intensity st <= matched_reference_intensity st')%Q /\
    (matched_reference_intensity st'
     <= matched_reference_intensity st + Qsum (map r_intensity reference))%Q.
Proof.
  induction 1 as [|r reference Hr _ IH]; intros st; cbv zeta.
  - simpl. split; lra.
  - unfold match_loop. simpl fold_left.
    fold (match_loop experimental_peaks tol reference
            (match_step experimental_peaks tol st r)).
    destruct (IH (match_step experimental_peaks tol st r)) as [Hlo Hhi].
    destruct (match_step_cases experimental_peaks tol st r)
      as [[_ Hst] | (e & _ & Hst)]; rewrite Hst in *; clear Hst; simpl in *.
    + split; lra.
    + split; lra.
Qed.

(** What the function returns once the column checks pass. *)
Lemma perform_search_match_returns
    (sort_values : list ref_row -> list ref_row)
    (experimental_peaks : DataFrame peak_row)
    (reference_pattern : DataFrame ref_row) (tol : Q) :
  sorts_by_intensity sort_values ->
  has_columns experimental_peaks ["angle"] = true ->
  has_columns reference_pattern ["angle"; "intensity"] = true ->
  let reference := sort_values (rows reference_pattern) in
  let st := match_loop (rows experimental_peaks) tol reference
              initial_state in
  perform_search_match sort_values experimental_peaks reference_pattern tol
  = Ok (match matched_peaks_info st with
        | [] => Finite 0
        | _ => np_mul_100
                 (np_div (matched_reference_intensity st)
                         (Qsum (map r_intensity reference)))
        end,
        matched_peaks_info st).
Proof.
  intros Hsorts He Hr. unfold perform_search_match. rewrite He, Hr.
  simpl negb. cbv iota.
  destruct (rows reference_pattern) as [|r l] eqn:Hrows.
  - destruct (Hsorts []) as [Hperm _].
    apply Permutation_nil_r in Hperm. rewrite Hperm. reflexivity.
  - cbv zeta.
    destruct (matched_peaks_info
                (match_loop (rows experimental_peaks) tol
                   (sort_values (r :: l)) initial_state)); reflexivity.
Qed.

(** Where the figure of merit is what its docstring promises.  With the
    required columns present the call returns, whichever way the sort
    orders rows of equal intensity.  An empty reference pattern gives
    [0.0] and the empty table, and so does a run without any match.  When
    the total reference intensity is not zero the figure of merit is the
    sum of the matched reference intensities over the total, times 100;
    when moreover no reference intensity is negative, it lies between 0
    and 100. *)
Theorem perform_search_match_figure_of_merit
    (sort_values : list ref_row -> list ref_row)
    (experimental_peaks : DataFrame peak_row)
    (reference_pattern : DataFrame ref_row) (angle_tolerance : Q) :
  sorts_by_intensity sort_values ->
  has_columns experimental_peaks ["angle"] = true ->
  has_columns reference_pattern ["angle"; "intensity"] = true ->
  exists fom table,
    perform_search_match sort_values experimental_peaks reference_pattern
      angle_tolerance
    = Ok (fom, table) /\
    (rows reference_pattern = [] -> fom = Finite 0 /\ table = []) /\
    (table = [] -> fom = Finite 0) /\
    let matched := Qsum (map ref_intensity table) in
    let total := Qsum (map r_intensity (rows reference_pattern)) in
    (~ (total == 0)%Q ->
     exists q, fom = Finite q /\ (q == matched / total * 100)%Q) /\
    (Forall (fun r => (0 <= r_intensity r)%Q) (rows reference_pattern) ->
     (0 < total)%Q ->
     exists q, fom = Finite q /\ (0 <= q)%Q /\ (q <= 100)%Q).
Proof.
  intros Hsorts He Hr.
  rewrite (perform_search_match_returns _ _ _ angle_tolerance Hsorts He Hr).
  cbv zeta.
  destruct (Hsorts (rows reference_pattern)) as [Hperm _].
  set (reference := sort_values (rows reference_pattern)) in *.
  set (st := match_loop (rows experimental_peaks) angle_tolerance reference
               initial_state).
  pose proof (total_intensity_perm _ _ Hperm) as Htotal.
  destruct (match_loop_trace (rows experimental_peaks) angle_tolerance
              reference initial_state)
    as (recs & chosen & Hinfo & _ & _ & _ & _ & _ & _ & Hsum).
  cbv zeta in Hinfo, Hsum. fold st in Hinfo, Hsum. simpl in Hinfo, Hsum.
  rewrite Qplus_0_l in Hsum.
  eexists _, _. split; [reflexivity |].
  rewrite Hinfo. split; [| split; [| split]].
  - intros Hrows. rewrite Hrows in Hperm.
    apply Permutation_nil_r in Hperm. subst st. rewrite Hperm in Hinfo.
    simpl in Hinfo. rewrite <- Hinfo. split; reflexivity.
  - intros ->. reflexivity.
  - intros Hnz.
    assert (Hb : Qeq_bool (Qsum (map r_intensity reference)) 0 = false).
    { destruct (Qeq_bool _ 0) eqn:Hb; [| reflexivity].
      apply Qeq_bool_iff in Hb. rewrite Htotal in Hb. contradiction. }
    destruct recs as [|rec recs].
    + exists 0%Q. split; [reflexivity |]. simpl. unfold Qdiv. ring.
    + unfold np_div. rewrite Hb. simpl np_mul_100.
      eexists. split; [reflexivity |].
      rewrite Hsum, Htotal. reflexivity.
  - intros Hnonneg Hpos.
    assert (Hnonneg' : Forall (fun r => (0 <= r_intensity r)%Q) reference).
    { rewrite Forall_forall in Hnonneg |- *. intros r Hin.
      apply Hnonneg. rewrite <- Hperm. exact Hin. }
    destruct (match_loop_bounds (rows experimental_peaks) angle_tolerance
                reference Hnonneg' initial_state) as [Hlo Hhi].
    cbv zeta in Hlo, Hhi. fold st in Hlo, Hhi. simpl in Hlo, Hhi.
    rewrite Qplus_0_l in Hhi.
    assert (Hpos' : (0 < Qsum (map r_intensity reference))%Q).
    { rewrite Htotal. exact Hpos. }
    assert (Hb : Qeq_bool (Qsum (map r_intensity reference)) 0 = false).
    { destruct (Qeq_bool _ 0) eqn:Hb; [| reflexivity].
      apply Qeq_bool_iff in Hb. rewrite Hb in Hpos'.
      exfalso. exact (Qlt_irrefl _ Hpos'). }
    destruct recs as [|rec recs].
    + exists 0%Q. split; [reflexivity |]. split; [apply Qle_refl | discriminate].
    + unfold np_div. rewrite Hb. simpl np_mul_100.
      eexists. split; [reflexivity |]. split.
      * apply Qmult_le_0_compat; [| discriminate].
        apply Qle_shift_div_l; [exact Hpos' |].
        rewrite Qmult_0_l. exact Hlo.
      * rewrite <- (Qmult_1_l 100) at 2.
        apply Qmult_le_compat_r; [| discriminate].
        apply Qle_shift_div_r; [exact Hpos' |].
        rewrite Qmult_1_l. exact Hhi.
Qed.

(** The theorem at the module's own partial-match test: the figure of
    merit is [(80 + 60) / 240 * 100]. *)
Lemma perform_search_match_figure_of_merit_witness :
  exists fom table,
    perform_search_match stable_sort_values
      (peaks_frame [4551 # 100; 5649 # 100]%Q) nacl (1 # 10)
    = Ok (fom, table) /\
    (exists q, fom = Finite q /\
               (q == Qsum (map ref_intensity table) / 240 * 100)%Q) /\
    (exists q, fom = Finite q /\ (0 <= q)%Q /\ (q <= 100)%Q).
Proof.
  destruct (perform_search_match_figure_of_merit stable_sort_values
              (peaks_frame [4551 # 100; 5649 # 100]%Q) nacl (1 # 10)
              stable_sort_values_sorts eq_refl eq_refl)
    as (fom & table & Hcall & _ & _ & Hvalue & Hrange).
  exists fom, table. split; [exact Hcall |]. split.
  - apply Hvalue. vm_compute. discriminate.
  - apply Hrange.
    + repeat constructor; vm_compute; discriminate.
    + reflexivity.
Defined.

(** C1.  The function at the inputs where it leaves the range its
    docstring gives (["A score from 0-100"]).  The total reference
    intensity is divided by without a check, although the empty reference
    and the run without a match are guarded: a reference pattern whose
    intensities sum to zero, with its one peak matched, gives [nan] and a
    table of one record, and a reference pattern with a negative
    intensity gives a figure of merit of 200. *)
Lemma perform_search_match_fom_out_of_range :
  (exists q table,
     perform_search_match stable_sort_values (peaks_frame [10]%Q)
       (reference_frame [(10, 100); (20, -50)]%Q) (1 # 10)
     = Ok (Finite q, table) /\ (q == 200)%Q /\ ~ (q <= 100)%Q) /\
  (exists table,
     perform_search_match stable_sort_values (peaks_frame [10]%Q)
       (reference_frame [(10, 0)]%Q) (1 # 10)
     = Ok (NaN, table) /\ length table = 1%nat).
Proof.
  split.
  - eexists _, _. split; [vm_compute; reflexivity |].
    split; [reflexivity |]. intros H. vm_compute in H. apply H. reflexivity.
  - eexists. split; [vm_compute; reflexivity | reflexivity].
Qed.

(** *** One-to-one assignment *)

Lemma positions_of (experimental_peaks : list peak_row)
    (chosen : list (nat * peak_row)) :
  Forall (fun c => c.2 ∈ experimental_peaks) chosen ->
  NoDup (map (fun c => row_name c.2) chosen) ->
  exists js,
    Forall2 (fun c j => experimental_peaks !! j = Some c.2) chosen js /\
    NoDup js.
Proof.
  induction chosen as [|c chosen IH]; intros Hin Hnd.
  - exists []. split; constructor.
  - apply Forall_cons in Hin as [Hc Hin].
    simpl in Hnd. apply NoDup_cons in Hnd as [Hfresh Hnd].
    destruct (IH Hin Hnd) as (js & Hjs & Hndjs).
    apply list_elem_of_lookup in Hc as [j Hj].
    exists (j :: js). split; [constructor; assumption |].
    constructor; [| exact Hndjs].
    intros Hdup. apply Hfresh.
    apply list_elem_of_lookup in Hdup as [k Hk].
    destruct (Forall2_lookup_r _ _ _ _ _ Hjs Hk) as (c' & Hc' & Hrow).
    assert (Hsame : c'.2 = c.2) by congruence.
    rewrite <- Hsame.
    apply list_elem_of_In, in_map_iff. exists c'. split; [reflexivity |].
    apply list_elem_of_In, list_elem_of_lookup. exists k. exact Hc'.
Qed.

Lemma traces_assigns (reference : list ref_row)
    (experimental_peaks : list peak_row) (recs : list match_record)
    (chosen : list (nat * peak_row)) (js : list nat) :
  traces reference recs chosen ->
  Forall2 (fun c j => experimental_peaks !! j = Some c.2) chosen js ->
  assigns reference experimental_peaks recs (zip (map fst chosen) js).
Proof.
  intros Htr. revert js.
  induction Htr as [|rec c recs chosen (r & Hr & Hrec) _ IH]; intros js Hjs.
  - constructor.
  - destruct js as [|j js]; [inversion Hjs |].
    apply Forall2_cons in Hjs as [Hj Hjs]. simpl. constructor.
    + exists r, c.2. auto.
    + apply IH. exact Hjs.
Qed.

Lemma increasing_length (l : list nat) :
  StronglySorted lt l ->
  forall m n, Forall (fun x => (m <= x < n)%nat) l -> (length l <= n - m)%nat.
Proof.
  induction 1 as [|a l _ IH Ha]; intros m n Hall; simpl.
  - lia.
  - apply Forall_cons in Hall as [Hma Hall].
    assert (Hl : (length l <= n - S a)%nat).
    { apply IH. rewrite Forall_forall in Ha, Hall |- *.
      intros x Hx. specialize (Ha x Hx). specialize (Hall x Hx). lia. }
    lia.
Qed.

(** C5.  The match table is a one-to-one assignment, whichever way the
    sort orders reference rows of equal intensity.  The reference rows are
    visited in order of decreasing intensity, and the records of the table
    can be attributed, in order, to strictly increasing positions of that
    order (so no reference peak has two records, and there are at most as
    many records as reference peaks) and to pairwise distinct rows of the
    experimental peaks.  The mechanism: a row whose label is in the used
    set is in no candidate set, and a step never removes a label from the
    used set. *)
Theorem perform_search_match_one_to_one
    (sort_values : list ref_row -> list ref_row)
    (experimental_peaks : DataFrame peak_row)
    (reference_pattern : DataFrame ref_row) (angle_tolerance : Q) :
  sorts_by_intensity sort_values ->
  has_columns experimental_peaks ["angle"] = true ->
  has_columns reference_pattern ["angle"; "intensity"] = true ->
  exists fom table pairs,
    perform_search_match sort_values experimental_peaks reference_pattern
      angle_tolerance
    = Ok (fom, table) /\
    assigns (sort_values (rows reference_pattern)) (rows experimental_peaks)
            table pairs /\
    StronglySorted lt (map fst pairs) /\
    NoDup (map snd pairs) /\
    (length table <= length (rows reference_pattern))%nat /\
    (forall used a e,
       row_name e ∈ used ->
       e ∉ potential_matches (rows experimental_peaks) a angle_tolerance
             used) /\
    (forall st r,
       used_exp_indices st ⊆
       used_exp_indices
         (match_step (rows experimental_peaks) angle_tolerance st r)).
Proof.
  intros Hsorts He Hr.
  rewrite (perform_search_match_returns _ _ _ angle_tolerance Hsorts He Hr).
  cbv zeta.
  destruct (Hsorts (rows reference_pattern)) as [Hperm _].
  set (reference := sort_values (rows reference_pattern)) in *.
  destruct (match_loop_trace (rows experimental_peaks) angle_tolerance
              reference initial_state)
    as (recs & chosen & Hinfo & Htr & Hsort & Hlt & Hnd & Hall & _ & _).
  cbv zeta in Hinfo. simpl in Hinfo.
  assert (Hrows : Forall (fun c => c.2 ∈ rows experimental_peaks) chosen).
  { eapply Forall_impl; [exact Hall |]. intros c [Hc _]. exact Hc. }
  destruct (positions_of _ _ Hrows Hnd) as (js & Hjs & Hndjs).
  pose proof (Forall2_length _ _ _ Hjs) as Hlen.
  eexists _, _, (zip (map fst chosen) js). split; [reflexivity |].
  rewrite Hinfo.
  split; [apply traces_assigns; assumption |].
  split; [rewrite fst_zip by (rewrite length_map; lia); exact Hsort |].
  split; [rewrite snd_zip by (rewrite length_map; lia); exact Hndjs |].
  split; [| split].
  - rewrite (Forall2_length _ _ _ Htr), <- (length_map fst chosen).
    rewrite <- (Permutation_length Hperm).
    rewrite <- (Nat.sub_0_r (length reference)).
    apply increasing_length; [exact Hsort |].
    apply List.Forall_map. eapply Forall_impl; [exact Hlt |].
    intros c Hc. simpl in *. lia.
  - intros used a e Hused Hin.
    apply potential_matches_spec in Hin as (_ & _ & Hnot). contradiction.
  - intros st r.
    destruct (match_step_cases (rows experimental_peaks) angle_tolerance st r)
      as [[_ Hst] | (e & _ & Hst)]; rewrite Hst; simpl.
    + reflexivity.
    + apply union_subseteq_r.
Qed.

(** The theorem at the module's own full-match test: three records, for
    the reference peaks in order of intensity, taking rows 0, 2 and 3. *)
Lemma perform_search_match_one_to_one_witness :
  exists fom table pairs,
    perform_search_match stable_sort_values
      (peaks_frame [3175 # 100; 40; 4548 # 100; 5652 # 100]%Q) nacl (1 # 10)
    = Ok (fom, table) /\
    assigns (stable_sort_values (rows nacl))
      (rows (peaks_frame [3175 # 100; 40; 4548 # 100; 5652 # 100]%Q))
      table pairs /\
    StronglySorted lt (map fst pairs) /\
    NoDup (map snd pairs) /\
    (length table <= 3)%nat.
Proof.
  destruct (perform_search_match_one_to_one stable_sort_values
              (peaks_frame [3175 # 100; 40; 4548 # 100; 5652 # 100]%Q)
              nacl (1 # 10) stable_sort_values_sorts eq_refl eq_refl)
    as (fom & table & pairs & Hcall & Has & Hsort & Hnd & Hlen & _).
  exists fom, table, pairs. auto.
Defined.

End SearchMatchSpec.

(** ** Generic text reader *)

Module GenericReaderSpec.
Import Text GenericReader.
Open Scope string_scope.

Example read_sample :
  read_generic_text_file decimal_float {[ "sample.xy" := sample ]} "sample.xy"
  = Ok ([10; 101 # 10; 51 # 5]%Q, [301 # 2; 200; 901 # 5]%Q).
Proof. vm_compute. reflexivity. Qed.

Example read_missing :
  read_generic_text_file decimal_float {[ "sample.xy" := sample ]} "other.xy"
  = Raise FileNotFound.
Proof. vm_compute. reflexivity. Qed.

Example read_comma_separated :
  read_generic_text_file decimal_float
    {[ "t.csv" := "20.5,500" +:+ nl +:+ "20.6,520" +:+ nl +:+ "20.7,550" ]}
    "t.csv"
  = Ok ([41 # 2; 103 # 5; 207 # 10]%Q, [500; 520; 550]%Q).
Proof. vm_compute. reflexivity. Qed.

(** *** Header detection *)

Lemma lstrip_head (s : string) (c : ascii) (t : string) :
  lstrip s = String c t -> is_space c = false.
Proof.
  induction s as [|a s IH]; simpl; [discriminate |].
  destruct (is_space a) eqn:Ha; [exact IH |].
  intros [= <- <-]. exact Ha.
Qed.

Lemma strip_first (s : string) :
  match first_nonspace s with
  | None => strip s = ""
  | Some c => exists t, strip s = String c t /\ is_space c = false
  end.
Proof.
  unfold first_nonspace, strip.
  destruct (lstrip s) as [|c t] eqn:Hs; [reflexivity |].
  pose proof (lstrip_head _ _ _ Hs) as Hc.
  exists (rstrip t). simpl. rewrite Hc, andb_false_r. auto.
Qed.

Lemma prefix_char (p c : ascii) (t : string) :
  String.prefix (String p "") (String c t) = Ascii.eqb p c.
Proof.
  simpl. destruct (ascii_dec p c) as [-> | Hne].
  - rewrite Ascii.eqb_refl. destruct t; reflexivity.
  - symmetry. apply Ascii.eqb_neq. exact Hne.
Qed.

Lemma header_line_spec (line : string) :
  header_line line = true <->
  match first_nonspace line with
  | None => True
  | Some c => c = "#"%char \/ c = "!"%char \/ c = "/"%char
  end.
Proof.
  unfold header_line. pose proof (strip_first line) as H.
  destruct (first_nonspace line) as [c|].
  - destruct H as (t & -> & Hc). unfold startswith. cbn [existsb is_empty].
    rewrite !prefix_char, orb_false_r, orb_false_l.
    rewrite !orb_true_iff, !Ascii.eqb_eq.
    split.
    + intros [H | [H | [H | H]]]; auto.
      subst c. discriminate.
    + intros [H | [H | H]]; auto.
  - rewrite H. simpl. tauto.
Qed.

Lemma count_header_rows_prefix (hs rest : list string) (i : nat) :
  Forall (fun l => header_line l = true) hs ->
  count_header_rows (hs ++ rest) i i
  = count_header_rows rest (i + length hs) (i + length hs).
Proof.
  intros H. revert i.
  induction H as [|h hs Hh _ IH]; intros i; cbn [app count_header_rows length].
  - rewrite Nat.add_0_r. reflexivity.
  - unfold header_line in Hh. rewrite Hh.
    replace (i + 1)%nat with (S i) by lia.
    rewrite IH. f_equal; lia.
Qed.

Lemma count_header_rows_stop (d : string) (rest : list string) (i h : nat) :
  header_line d = false -> count_header_rows (d :: rest) i h = h.
Proof.
  unfold header_line. intros H. cbn [count_header_rows].
  rewrite H. reflexivity.
Qed.

(** C7 (as amended).  A line counts as a header line exactly when it is
    blank or its first character after leading whitespace is ['#'], ['!']
    or ['/'].  The header-row count is the number of leading lines of that
    form: counting stops at the first line that is not, even when that
    line begins with whitespace, and the rows handed to the parser start
    with that line; for a file made of header lines only, all lines are
    counted. *)
Theorem count_header_rows_spec :
  (forall line,
     header_line line = true <->
     match first_nonspace line with
     | None => True
     | Some c => c = "#"%char \/ c = "!"%char \/ c = "/"%char
     end) /\
  (forall hs d rest,
     Forall (fun l => header_line l = true) hs ->
     header_line d = false ->
     count_header_rows (hs ++ d :: rest) 0 0 = length hs /\
     drop (count_header_rows (hs ++ d :: rest) 0 0) (hs ++ d :: rest)
     = d :: rest) /\
  (forall hs,
     Forall (fun l => header_line l = true) hs ->
     count_header_rows hs 0 0 = length hs).
Proof.
  split; [exact header_line_spec |]. split.
  - intros hs d rest Hhs Hd.
    assert (Hcount : count_header_rows (hs ++ d :: rest) 0 0 = length hs).
    { rewrite count_header_rows_prefix by exact Hhs.
      apply count_header_rows_stop. exact Hd. }
    split; [exact Hcount |].
    rewrite Hcount. apply drop_app_length.
  - intros hs Hhs. rewrite <- (app_nil_r hs) at 1.
    rewrite count_header_rows_prefix by exact Hhs. reflexivity.
Qed.

(** The theorem at a file with an indented comment, a blank line and an
    indented data line. *)
Lemma count_header_rows_spec_witness :
  count_header_rows
    (readlines ("  # two theta" +:+ nl +:+ nl +:+ " 10.0 5.0" +:+ nl
                +:+ "# not a header" +:+ nl)) 0 0
  = 2%nat.
Proof.
  apply (proj1 (proj2 count_header_rows_spec)
           ["  # two theta"; ""] " 10.0 5.0" ["# not a header"]).
  - repeat constructor.
  - reflexivity.
Defined.

(** Every line the loop takes for a header line is one in the wording of
    the specification; the converse fails for lines that begin with
    whitespace, as the file below shows. *)
Lemma header_line_claimed (line : string) :
  header_line line = true -> claimed_header_line line = true.
Proof.
  intros H. apply header_line_spec in H. unfold first_nonspace in H.
  destruct line as [|c t]; [reflexivity |].
  cbn [claimed_header_line]. cbn [lstrip] in H.
  destruct (is_space c) eqn:Hc; [apply orb_true_r |].
  rewrite orb_false_r.
  destruct H as [-> | [-> | ->]]; reflexivity.
Qed.

(** The claim C7 as stated fails: both lines of this file begin with a
    space, yet no header row is counted and both are read as data. *)
Lemma indented_data_is_not_header :
  let content := " 10.0 5.0" +:+ nl +:+ " 10.1 6.0" +:+ nl in
  Forall (fun l => claimed_header_line l = true) (readlines content) /\
  length (readlines content) = 2%nat /\
  count_header_rows (readlines content) 0 0 = 0%nat /\
  read_generic_text_file decimal_float {[ "d.xy" := content ]} "d.xy"
  = Ok ([10; 101 # 10]%Q, [5; 6]%Q).
Proof.
  cbv zeta. split; [repeat constructor |].
  split; [reflexivity |]. split; [reflexivity |].
  vm_compute. reflexivity.
Qed.

(** *** A single data row *)

Section SingleRow.
Variable float : string -> option Q.

Lemma squeeze_short (m : list (list Q)) :
  (length m <= 1)%nat -> (ndim (squeeze m) < 2)%nat.
Proof.
  destruct m as [|r [|r' m]]; simpl; intros H.
  - lia.
  - destruct r as [|x [|y r]]; simpl; lia.
  - lia.
Qed.

Lemma loadtxt_short (lines : list string) (skiprows : nat)
    (delimiter : option ascii) (data : ndarray) :
  (length (field_rows lines skiprows delimiter) <= 1)%nat ->
  loadtxt float lines skiprows delimiter = Some data ->
  (ndim data < 2)%nat.
Proof.
  unfold loadtxt. fold (field_rows lines skiprows delimiter).
  intros Hlen Hload.
  destruct (mapM (mapM float) (field_rows lines skiprows delimiter))
    as [m|] eqn:Hm; [| discriminate].
  apply length_mapM in Hm.
  assert (Hdata : data = squeeze m).
  { destruct m as [|r m']; [congruence |].
    destruct (all_length (length r) (r :: m')); congruence. }
  subst data. apply squeeze_short. lia.
Qed.

Lemma try_delimiters_short (lines : list string) (header_rows : nat)
    (delimiters : list (option ascii)) :
  (forall d, d ∈ delimiters ->
             (length (field_rows lines header_rows d) <= 1)%nat) ->
  try_delimiters float lines header_rows delimiters = Raise CouldNotParse.
Proof.
  induction delimiters as [|d rest IH]; intros H; simpl.
  - reflexivity.
  - assert (Hrest : try_delimiters float lines header_rows rest
                    = Raise CouldNotParse).
    { apply IH. intros d' Hd'. apply H. apply list_elem_of_further, Hd'. }
    destruct (loadtxt float lines header_rows d) as [data|] eqn:Hload;
      [| exact Hrest].
    pose proof (loadtxt_short _ _ _ _ (H d (list_elem_of_here d rest)) Hload)
      as Hdim.
    destruct (ndim data =? 2)%nat eqn:Hd2.
    + apply Nat.eqb_eq in Hd2. lia.
    + exact Hrest.
Qed.

Lemma split_line_empty (delimiter : option ascii) :
  split_line delimiter "" = [].
Proof. destruct delimiter; reflexivity. Qed.

Lemma field_rows_empties (empties : list string)
    (delimiter : option ascii) :
  Forall (fun l => l = "") empties ->
  List.filter (fun r => negb (length r =? 0)%nat)
    (map (split_line delimiter) empties) = [].
Proof.
  induction 1 as [|l ls -> _ IH]; simpl.
  - reflexivity.
  - rewrite split_line_empty. simpl. exact IH.
Qed.

Lemma field_rows_single (lines : list string) (skiprows : nat)
    (row : string) (empties : list string) (delimiter : option ascii) :
  drop skiprows lines = row :: empties ->
  Forall (fun l => l = "") empties ->
  (length (field_rows lines skiprows delimiter) <= 1)%nat.
Proof.
  intros Hdrop Hempty. unfold field_rows. rewrite Hdrop. simpl map.
  simpl List.filter. rewrite (field_rows_empties _ _ Hempty).
  destruct (negb _); simpl; lia.
Qed.

Lemma loadtxt_single_pair (lines : list string) (skiprows : nat)
    (row : string) (empties : list string) (delimiter : option ascii)
    (x y : Q) :
  drop skiprows lines = row :: empties ->
  Forall (fun l => l = "") empties ->
  mapM float (split_line delimiter row) = Some [x; y] ->
  loadtxt float lines skiprows delimiter = Some (Array1 [x; y]).
Proof.
  intros Hdrop Hempty Hrow. unfold loadtxt. rewrite Hdrop. simpl map.
  simpl List.filter. rewrite (field_rows_empties _ _ Hempty).
  pose proof (length_mapM _ _ _ Hrow) as Hlen.
  assert (Hkeep : negb (length (split_line delimiter row) =? 0)%nat = true)
    by (rewrite Hlen; reflexivity).
  rewrite Hkeep.
  assert (Hm : mapM (mapM float) [split_line delimiter row] = Some [[x; y]]).
  { apply mapM_Some. constructor; [exact Hrow | constructor]. }
  rewrite Hm. reflexivity.
Qed.

End SingleRow.

(** C9.  When the lines after the header rows are a single line (followed
    at most by empty lines), the call raises the could-not-parse
    [DataImportError], whatever the line holds and whichever fields
    [float] accepts: one row of fields loads as an array of fewer than two
    dimensions, which fails the shape test for each of the three
    delimiters.  In particular a row of two numeric fields loads as the
    one-dimensional array of the two numbers. *)
Theorem read_generic_text_file_single_row
    (float : string -> option Q) (fs : gmap string string)
    (filepath content row : string) (empties : list string) :
  fs !! filepath = Some content ->
  drop (count_header_rows (readlines content) 0 0) (readlines content)
  = row :: empties ->
  Forall (fun l => l = "") empties ->
  read_generic_text_file float fs filepath = Raise CouldNotParse /\
  (forall delimiter data,
     loadtxt float (readlines content)
       (count_header_rows (readlines content) 0 0) delimiter = Some data ->
     (ndim data < 2)%nat) /\
  (forall delimiter x y,
     mapM float (split_line delimiter row) = Some [x; y] ->
     loadtxt float (readlines content)
       (count_header_rows (readlines content) 0 0) delimiter
     = Some (Array1 [x; y])).
Proof.
  intros Hfile Hdrop Hempty. split; [| split].
  - unfold read_generic_text_file. rewrite Hfile.
    apply try_delimiters_short. intros d _.
    eapply field_rows_single; eassumption.
  - intros delimiter data. apply loadtxt_short.
    eapply field_rows_single; eassumption.
  - intros delimiter x y. eapply loadtxt_single_pair; eassumption.
Qed.

(** The theorem at a file with one header line and one valid two-column
    row, which loads as the one-dimensional array [[10.0, 150.5]]. *)
Lemma read_generic_text_file_single_row_witness :
  let content := "# h" +:+ nl +:+ "10.0 150.5" +:+ nl in
  read_generic_text_file decimal_float {[ "one.xy" := content ]} "one.xy"
  = Raise CouldNotParse /\
  loadtxt decimal_float (readlines content) 1 None
  = Some (Array1 [10; 301 # 2]%Q).
Proof.
  cbv zeta.
  destruct (read_generic_text_file_single_row decimal_float
              {[ "one.xy" := "# h" +:+ nl +:+ "10.0 150.5" +:+ nl ]}
              "one.xy" ("# h" +:+ nl +:+ "10.0 150.5" +:+ nl)
              "10.0 150.5" [])
    as (Hraise & _ & Hpair).
  - reflexivity.
  - reflexivity.
  - constructor.
  - split; [exact Hraise |]. apply (Hpair None). reflexivity.
Defined.

End GenericReaderSpec.

(** ** Bruker RAW v4 reader *)

Module BrukerReaderSpec.
Import Text BrukerReader.
Open Scope string_scope.

Example python_float_step :
  python_float "0.02" = Some (S754_finite false 5764607523034235 (-58)).
Proof. vm_compute. reflexivity. Qed.

Example python_float_tenth :
  SF2Q <$> python_float "0.1"
  = Some (Some (3602879701896397 # 36028797018963968)%Q).
Proof. vm_compute. reflexivity. Qed.

(** The double read for 0.02 is within half a unit in the last place of
    1/50, and the single it is cast to within half a unit of the double. *)
Example python_float_step_nearest :
  (Qabs ((5764607523034235 # 1) * Qpower 2 (-58) - (1 # 50))
   <= Qpower 2 (-59))%Q /\
  (Qabs ((10737418 # 1) * Qpower 2 (-29)
         - (5764607523034235 # 1) * Qpower 2 (-58))
   <= Qpower 2 (-30))%Q.
Proof. split; vm_compute; discriminate. Qed.

Example python_float_malformed :
  python_float "1.2.3" = None /\ python_float "." = None.
Proof. split; reflexivity. Qed.

Example float32_step :
  f32_of_f64 (S754_finite false 5764607523034235 (-58))
  = S754_finite false 10737418 (-29).
Proof. vm_compute. reflexivity. Qed.

Example search_skips_failed_start :
  re_search "COUNT=" is_digit "XCOUNT= abc COUNT=   12x" = Some "12".
Proof. vm_compute. reflexivity. Qed.

Example missing_stepsize :
  read_bruker_raw_v4
    {[ "bad.raw" := ljust 2048 ("START= 10.0" +:+ nl +:+ "COUNT= 5") ]}
    "bad.raw"
  = Raise MissingMetadata.
Proof. vm_compute. reflexivity. Qed.

Example truncated_payload :
  read_bruker_raw_v4
    {[ "short.raw" := sample_header +:+ tobytes [0x42C80000; 0x43168000] ]}
    "short.raw"
  = Raise (SizeMismatch 5 2).
Proof. vm_compute. reflexivity. Qed.

(** *** Strings *)

Lemma append_cons (c : ascii) (h p : string) :
  String c h +:+ p = String c (h +:+ p).
Proof. reflexivity. Qed.

Lemma append_nil (p : string) : "" +:+ p = p.
Proof. reflexivity. Qed.

Lemma take_string_app (h p : string) :
  take_string (String.length h) (h +:+ p) = h.
Proof.
  induction h as [|c h IH].
  - rewrite append_nil. destruct p; reflexivity.
  - rewrite append_cons. cbn [String.length take_string].
    rewrite IH. reflexivity.
Qed.

Lemma drop_string_app (h p : string) :
  drop_string (String.length h) (h +:+ p) = p.
Proof.
  induction h as [|c h IH].
  - rewrite append_nil. destruct p; reflexivity.
  - rewrite append_cons. cbn [String.length drop_string]. exact IH.
Qed.

(** *** The payload round trip *)

Lemma byte_of_land (x : Z) :
  byte (ascii_of_nat (Z.to_nat (Z.land x 255))) = Z.land x 255.
Proof.
  unfold byte.
  assert (H : 0 <= Z.land x 255 < 256).
  { change 255 with (Z.ones 8). rewrite Z.land_ones by lia.
    apply Z.mod_pos_bound. lia. }
  rewrite nat_ascii_embedding by lia. lia.
Qed.

Lemma bits_recompose (w : Z) :
  0 <= w < 2 ^ 32 ->
  Z.land (Z.shiftr w (8 * 0)) 255
  + Z.shiftl (Z.land (Z.shiftr w (8 * 1)) 255) 8
  + Z.shiftl (Z.land (Z.shiftr w (8 * 2)) 255) 16
  + Z.shiftl (Z.land (Z.shiftr w (8 * 3)) 255) 24
  = w.
Proof.
  intros Hw. change 255 with (Z.ones 8).
  rewrite !Z.land_ones, !Z.shiftr_div_pow2, !Z.shiftl_mul_pow2 by lia.
  change (2 ^ (8 * 0)) with 1. change (2 ^ (8 * 1)) with 256.
  change (2 ^ (8 * 2)) with (256 * 256).
  change (2 ^ (8 * 3)) with (256 * 256 * 256).
  change (2 ^ 8) with 256. change (2 ^ 16) with 65536.
  change (2 ^ 24) with 16777216. change (2 ^ 32) with 4294967296 in Hw.
  rewrite Z.div_1_r, <- !Z.div_div by lia.
  pose proof (Z.div_mod w 256 ltac:(lia)) as H0.
  pose proof (Z.div_mod (w / 256) 256 ltac:(lia)) as H1.
  pose proof (Z.div_mod (w / 256 / 256) 256 ltac:(lia)) as H2.
  assert (H3 : (w / 256 / 256 / 256) mod 256 = w / 256 / 256 / 256).
  { apply Z.mod_small. split.
    - repeat apply Z.div_pos; lia.
    - repeat (apply Z.div_lt_upper_bound; [lia |]). lia. }
  lia.
Qed.

Lemma fromfile_tobytes (bits : list Z) :
  Forall (fun w => 0 <= w < 2 ^ 32) bits ->
  fromfile_float32 (length bits) (tobytes bits) = map f32_of_bits bits.
Proof.
  induction 1 as [|w bits Hw _ IH]; [reflexivity |].
  cbn [length tobytes fold_right map].
  fold (tobytes bits). unfold bytes_of_bits.
  cbn [map string_of_list_ascii]. rewrite !append_cons, append_nil.
  cbn [fromfile_float32].
  rewrite !byte_of_land, (bits_recompose w Hw), IH. reflexivity.
Qed.

(** *** The reader *)

Lemma read_bruker_raw_v4_returns (fs : gmap string string)
    (filepath header : string) (bits : list Z)
    (start_text step_text count_text : string)
    (start_angle step_size : spec_float) :
  fs !! filepath = Some (header +:+ tobytes bits) ->
  String.length header = 2048%nat ->
  re_search "START=" is_digit_or_dot header = Some start_text ->
  re_search "STEPSIZE=" is_digit_or_dot header = Some step_text ->
  re_search "COUNT=" is_digit header = Some count_text ->
  python_float start_text = Some start_angle ->
  python_float step_text = Some step_size ->
  int_of_digits count_text = Z.of_nat (length bits) ->
  Z.of_nat (length bits) < 2 ^ 63 ->
  Forall (fun w => 0 <= w < 2 ^ 32) bits ->
  read_bruker_raw_v4 fs filepath
  = Ok (map (fun i => angle_float32 start_angle step_size (Z.of_nat i))
            (seq 0 (length bits)),
        map f32_of_bits bits).
Proof.
  intros Hfile Hlen Hstart Hstep Hcount Hfs Hfp Hint Hsmall Hbits.
  unfold read_bruker_raw_v4. rewrite Hfile.
  replace 2048%nat with (String.length header) by exact Hlen.
  rewrite take_string_app, drop_string_app.
  rewrite Hstart, Hstep, Hcount, Hfs, Hfp, Hint. cbv zeta.
  destruct (Z.leb_spec (2 ^ 63) (Z.of_nat (length bits))) as [Hbig | _];
    [lia |].
  rewrite Nat2Z.id, (fromfile_tobytes bits Hbits), length_map.
  rewrite Z.eqb_refl. cbn [negb].
  unfold arange_float32. rewrite Nat2Z.id, map_map. reflexivity.
Qed.

(** C6 (as amended).  For a file with a 2048-byte header holding START,
    STEPSIZE and COUNT, followed by COUNT little-endian 32-bit floats, the
    reader returns the payload values as intensities and COUNT angles,
    angle [i] being the single-precision result of
    [float32(i) * float32(STEPSIZE) + float32(START)].  For START=10.0,
    STEPSIZE=0.02, COUNT=5 these are 10, 10.0200004..., 10.0399999...,
    10.0600004..., 10.0799999...: each within 5e-7 of [10.0 + i * 0.02]. *)
Theorem read_bruker_raw_v4_spec :
  (forall (fs : gmap string string) (filepath header : string)
          (bits : list Z) (start_text step_text count_text : string)
          (start_angle step_size : spec_float),
     fs !! filepath = Some (header +:+ tobytes bits) ->
     String.length header = 2048%nat ->
     re_search "START=" is_digit_or_dot header = Some start_text ->
     re_search "STEPSIZE=" is_digit_or_dot header = Some step_text ->
     re_search "COUNT=" is_digit header = Some count_text ->
     python_float start_text = Some start_angle ->
     python_float step_text = Some step_size ->
     int_of_digits count_text = Z.of_nat (length bits) ->
     Z.of_nat (length bits) < 2 ^ 63 ->
     Forall (fun w => 0 <= w < 2 ^ 32) bits ->
     exists angles,
       read_bruker_raw_v4 fs filepath = Ok (angles, map f32_of_bits bits) /\
       length angles = length bits /\
       forall i : nat,
         (i < length bits)%nat ->
         angles !! i
         = Some (angle_float32 start_angle step_size (Z.of_nat i))) /\
  (exists angles intensities,
     read_bruker_raw_v4 sample_fs "test_bruker.raw"
     = Ok (angles, intensities) /\
     map SF2Q intensities
     = [Some 100; Some (301 # 2); Some 2000; Some (9188147 # 65536);
        Some 90]%Q /\
     map SF2Q angles
     = [Some 10; Some (2626683 # 262144); Some (10527703 # 1048576);
        Some (10548675 # 1048576); Some (5284823 # 524288)]%Q /\
     forall (i : nat) (a : Q),
       (SF2Q <$> angles !! i) = Some (Some a) ->
       (Qabs (a - (10 + inject_Z (Z.of_nat i) * (2 # 100)))
        <= 5 # 10000000)%Q).
Proof.
  split.
  - intros fs filepath header bits start_text step_text count_text
      start_angle step_size Hfile Hlen Hstart Hstep Hcount Hfs Hfp Hint
      Hsmall Hbits.
    eexists. split; [| split].
    + eapply read_bruker_raw_v4_returns; eassumption.
    + rewrite length_map, length_seq. reflexivity.
    + intros i Hi. rewrite list_lookup_fmap, lookup_seq_lt by exact Hi.
      reflexivity.
  - eexists _, _. split; [vm_compute; reflexivity |].
    split; [vm_compute; reflexivity |]. split; [vm_compute; reflexivity |].
    intros i a Hi.
    do 5 (destruct i as [|i];
          [injection Hi as <-; vm_compute; discriminate |]).
    discriminate Hi.
Qed.

(** The general part of the theorem at the test file. *)
Lemma read_bruker_raw_v4_spec_witness :
  exists angles,
    read_bruker_raw_v4 sample_fs "test_bruker.raw"
    = Ok (angles, map f32_of_bits sample_bits) /\
    length angles = 5%nat /\
    angles !! 1%nat = Some (S754_finite false 10506732 (-20)).
Proof.
  destruct (proj1 read_bruker_raw_v4_spec sample_fs "test_bruker.raw"
              sample_header sample_bits "10.0" "0.02" "5"
              (S754_finite false 5629499534213120 (-49))
              (S754_finite false 5764607523034235 (-58)))
    as (angles & Hread & Hlen & Hangle).
  - reflexivity.
  - vm_compute. reflexivity.
  - vm_compute. reflexivity.
  - vm_compute. reflexivity.
  - vm_compute. reflexivity.
  - vm_compute. reflexivity.
  - vm_compute. reflexivity.
  - reflexivity.
  - reflexivity.
  - repeat constructor; discriminate.
  - exists angles. split; [exact Hread |]. split; [exact Hlen |].
    rewrite (Hangle 1%nat) by (simpl; lia). vm_compute. reflexivity.
Defined.

(** The claim C6 as stated fails on its own example: angle 1 is the float32
    10506732 / 2^20 = 10.0200004577..., which is neither the number
    10.0 + 1 * 0.02 nor the double Python computes for that expression. *)
Lemma bruker_angle_not_exact :
  exists angles intensities a,
    read_bruker_raw_v4 sample_fs "test_bruker.raw"
    = Ok (angles, intensities) /\
    angles !! 1%nat = Some a /\
    SF2Q a = Some (2626683 # 262144)%Q /\
    ~ (2626683 # 262144 == 10 + 1 * (2 # 100))%Q /\
    SF2Q a
    <> SF2Q (angle_float64 (S754_finite false 5629499534213120 (-49))
                           (S754_finite false 5764607523034235 (-58)) 1).
Proof.
  eexists _, _, _. split; [vm_compute; reflexivity |].
  split; [reflexivity |]. split; [vm_compute; reflexivity |].
  split; [| vm_compute]; discriminate.
Qed.

End BrukerReaderSpec.

(** ** Background estimation: further properties *)

Module BackgroundProps.
Import Background BackgroundSpec.

(** *** The erosion stays between the global minimum and the data *)

Lemma erosion_step_lower (m : Q) (b : list Q) :
  Forall (fun x => (m <= x)%Q) b ->
  Forall (fun x => (m <= x)%Q) (erosion_step b).
Proof.
  intros Hb. apply Forall_lookup. intros i y Hy.
  destruct (erosion_step_lookup b i) as (c & l & r & Hc & Hl & Hr & Hs).
  { rewrite <- (erosion_step_length b). eapply lookup_lt_Some. exact Hy. }
  rewrite Hy in Hs. injection Hs as Hs. rewrite Hs. clear Hs Hy.
  pose proof (proj1 (Forall_lookup _ _) Hb _ _ Hc) as Hmc.
  pose proof (proj1 (Forall_lookup _ _) Hb _ _ Hl) as Hml.
  pose proof (proj1 (Forall_lookup _ _) Hb _ _ Hr) as Hmr.
  simpl in Hmc, Hml, Hmr.
  apply Q.min_glb; [exact Hmc |].
  apply Qle_shift_div_l; [reflexivity | lra].
Qed.

Lemma erosion_iter_upper (intensities : list Q) (n i : nat) (y : Q) :
  Nat.iter n erosion_step intensities !! i = Some y ->
  exists x, intensities !! i = Some x /\ (y <= x)%Q.
Proof.
  revert y. induction n as [|n IH]; intros y Hy; simpl in Hy.
  - exists y. split; [exact Hy | apply Qle_refl].
  - destruct (erosion_step_lookup (Nat.iter n erosion_step intensities) i)
      as (c & l & r & Hc & _ & _ & Hs).
    { rewrite <- (erosion_step_length _). eapply lookup_lt_Some. exact Hy. }
    destruct (IH c Hc) as (x & Hx & Hcx).
    exists x. split; [exact Hx |].
    eapply Qle_trans; [| exact Hcx].
    eapply erosion_step_le; eassumption.
Qed.

(** X1.  Whatever the iteration count, the eroded background is at every
    point at most the input intensity there and at least any lower bound
    of the whole input (its global minimum in particular): subtracting it
    never yields a negative intensity nor removes more than the data's
    spread. *)
Theorem erosion_between_minimum_and_data
    (intensities : list Q) (iterations : Z) (i : nat) (y : Q) :
  subtract_iterative_erosion intensities iterations !! i = Some y ->
  (exists x, intensities !! i = Some x /\ (y <= x)%Q) /\
  (forall m, Forall (fun x => (m <= x)%Q) intensities -> (m <= y)%Q).
Proof.
  unfold subtract_iterative_erosion. intros Hy. split.
  - eapply erosion_iter_upper. exact Hy.
  - intros m Hm.
    assert (Hall : Forall (fun x => (m <= x)%Q)
                     (Nat.iter (Z.to_nat iterations) erosion_step intensities)).
    { clear Hy. induction (Z.to_nat iterations) as [|n IH]; simpl.
      - exact Hm.
      - apply erosion_step_lower. exact IH. }
    exact (proj1 (Forall_lookup _ _) Hall _ _ Hy).
Qed.

Lemma erosion_between_minimum_and_data_witness :
  exists y,
    subtract_iterative_erosion [3; 1; 9; 2; 4]%Q 2 !! 2%nat = Some y /\
    (y <= 9)%Q /\ (1 <= y)%Q.
Proof.
  eexists. split; [reflexivity |].
  destruct (erosion_between_minimum_and_data [3; 1; 9; 2; 4]%Q 2 2%nat _
              eq_refl) as [(x & Hx & Hle) Hlow].
  split.
  - injection Hx as <-. exact Hle.
  - apply Hlow. repeat constructor; discriminate.
Defined.

(** *** Order and affine maps *)

Lemma erosion_step_mono (b b' : list Q) :
  Forall2 Qle b b' -> Forall2 Qle (erosion_step b) (erosion_step b').
Proof.
  intros H. unfold erosion_step, np_roll.
  rewrite <- (Forall2_length _ _ _ H).
  apply (zip_with_Forall2 Qle Qle Qle); [| assumption |].
  - intros x x' y y' Hx Hy. apply Q.min_le_compat; assumption.
  - apply (zip_with_Forall2 Qle Qle Qle).
    + intros x x' y y' Hx Hy.
      apply Qmult_le_compat_r; [lra | discriminate].
    + apply rotate_Forall2; assumption.
    + apply rotate_Forall2; assumption.
Qed.

(** X2.  Erosion preserves the pointwise order of signals: if one
    intensity array lies below another at every point, so do their
    backgrounds after the same number of iterations. *)
Theorem erosion_monotone (intensities intensities' : list Q)
    (iterations : Z) :
  Forall2 Qle intensities intensities' ->
  Forall2 Qle (subtract_iterative_erosion intensities iterations)
              (subtract_iterative_erosion intensities' iterations).
Proof.
  intros H. unfold subtract_iterative_erosion.
  induction (Z.to_nat iterations) as [|n IH]; simpl.
  - exact H.
  - apply erosion_step_mono. exact IH.
Qed.

Lemma erosion_monotone_witness :
  Forall2 Qle (subtract_iterative_erosion [3; 1; 9; 2; 4]%Q 3)
              (subtract_iterative_erosion [3; 2; 9; 5; 4]%Q 3).
Proof.
  apply erosion_monotone. repeat constructor; discriminate.
Defined.

Lemma rotate_map {A B : Type} (f : A -> B) (n : nat) (l : list A) :
  rotate n (map f l) = map f (rotate n l).
Proof.
  unfold rotate. rewrite length_map, map_app, skipn_map, firstn_map.
  reflexivity.
Qed.

Lemma zip_with_map_Forall2 (f : Q -> Q) (g : Q -> Q -> Q) :
  (forall x y, (g (f x) (f y) == f (g x y))%Q) ->
  forall u v,
    Forall2 Qeq (zip_with g (map f u) (map f v)) (map f (zip_with g u v)).
Proof.
  intros Hg u. induction u as [|x u IH]; intros v; simpl.
  - constructor.
  - destruct v as [|y v]; simpl; constructor; [apply Hg | apply IH].
Qed.

Lemma Forall2_Qeq_refl (l : list Q) : Forall2 Qeq l l.
Proof. induction l; constructor; [reflexivity | assumption]. Qed.

Lemma Forall2_Qeq_trans (l k m : list Q) :
  Forall2 Qeq l k -> Forall2 Qeq k m -> Forall2 Qeq l m.
Proof.
  intros H. revert m. induction H as [|x y l k Hxy _ IH]; intros m Hm.
  - exact Hm.
  - destruct m as [|z m]; [inversion Hm |].
    apply Forall2_cons in Hm as [Hyz Hm].
    constructor; [rewrite Hxy; exact Hyz | apply IH; exact Hm].
Qed.

Section Affine.
Variables k c : Q.
Hypothesis k_nonneg : (0 <= k)%Q.

Lemma affine_min (x y : Q) :
  (Qmin (affine k c x) (affine k c y) == affine k c (Qmin x y))%Q.
Proof.
  unfold affine. apply (Q.min_mono (fun t => k * t + c)%Q).
  - intros a b Hab. rewrite Hab. reflexivity.
  - intros a b Hab.
    apply Qplus_le_compat; [| apply Qle_refl].
    rewrite (Qmult_comm k a), (Qmult_comm k b).
    apply Qmult_le_compat_r; assumption.
Qed.

Lemma affine_avg (x y : Q) :
  ((affine k c x + affine k c y) / 2 == affine k c ((x + y) / 2))%Q.
Proof. unfold affine. field. Qed.

Lemma erosion_step_affine (b : list Q) :
  Forall2 Qeq (erosion_step (map (affine k c) b))
              (map (affine k c) (erosion_step b)).
Proof.
  unfold erosion_step, np_roll.
  rewrite length_map, !rotate_map.
  eapply Forall2_Qeq_trans.
  - apply (zip_with_Forall2 Qeq Qeq Qeq Qmin).
    + intros x x' y y' Hx Hy. rewrite Hx, Hy. reflexivity.
    + apply Forall2_Qeq_refl.
    + apply (zip_with_map_Forall2 (affine k c)
               (fun l r => ((l + r) / 2)%Q)).
      apply affine_avg.
  - apply (zip_with_map_Forall2 (affine k c) Qmin). apply affine_min.
Qed.
End Affine.

(** X3.  Erosion commutes with a change of intensity scale and offset:
    for a factor [k >= 0] and any offset [c], eroding [k * I + c] gives
    [k * B + c], where [B] is the eroded [I].  Counts and counts per second,
    or data with a constant detector offset, give the same background up
    to that change. *)
Theorem erosion_affine (k c : Q) (intensities : list Q) (iterations : Z) :
  (0 <= k)%Q ->
  Forall2 Qeq
    (subtract_iterative_erosion (map (affine k c) intensities) iterations)
    (map (affine k c) (subtract_iterative_erosion intensities iterations)).
Proof.
  intros Hk. unfold subtract_iterative_erosion.
  induction (Z.to_nat iterations) as [|n IH]; simpl.
  - apply Forall2_Qeq_refl.
  - eapply Forall2_Qeq_trans.
    + apply erosion_step_proper. exact IH.
    + apply erosion_step_affine. exact Hk.
Qed.

Lemma erosion_affine_witness :
  Forall2 Qeq
    (subtract_iterative_erosion (map (affine 2 10) [3; 1; 9; 2; 4]%Q) 2)
    (map (affine 2 10) (subtract_iterative_erosion [3; 1; 9; 2; 4]%Q 2)).
Proof. apply erosion_affine. discriminate. Defined.

(** X4.  Iteration counts add up: eroding the result of [N] iterations
    [M] more times is eroding [N + M] times, a negative count standing for
    none. *)
Theorem erosion_compose (intensities : list Q) (N M : Z) :
  subtract_iterative_erosion (subtract_iterative_erosion intensities N) M
  = subtract_iterative_erosion intensities (Z.max 0 N + Z.max 0 M).
Proof.
  unfold subtract_iterative_erosion.
  replace (Z.to_nat (Z.max 0 N + Z.max 0 M))
    with (Z.to_nat M + Z.to_nat N)%nat by lia.
  symmetry. apply Nat.iter_add.
Qed.

(** *** Anchor indices of [subtract_polynomial] *)

Lemma np_index_None {A : Type} (a : list A) (i : Z) :
  np_index a i = None <->
  ~ (- Z.of_nat (length a) <= i < Z.of_nat (length a)).
Proof.
  unfold np_index.
  destruct (Z.leb_spec 0 i), (Z.ltb_spec i (Z.of_nat (length a))),
    (Z.leb_spec (- Z.of_nat (length a)) i), (Z.ltb_spec i 0);
    cbn [andb]; rewrite ?lookup_ge_None;
    (split; [intros ?; lia | intros ?; first [reflexivity | lia]]).
Qed.

Lemma np_take_None {A : Type} (a : list A) (idx : list Z) :
  np_take a idx = None <->
  Exists (fun i => ~ (- Z.of_nat (length a) <= i < Z.of_nat (length a))) idx.
Proof.
  unfold np_take. rewrite mapM_None, !Exists_exists.
  split; intros (i & Hin & Hi); exists i; (split; [exact Hin |]);
    apply np_index_None; exact Hi.
Qed.

Lemma np_index_wrap {A : Type} (a : list A) (i : Z) :
  0 <= i < Z.of_nat (length a) ->
  np_index a (i - Z.of_nat (length a)) = np_index a i.
Proof.
  intros Hi. unfold np_index.
  destruct (Z.leb_spec 0 (i - Z.of_nat (length a))); [lia |].
  destruct (Z.leb_spec 0 i); [| lia].
  destruct (Z.ltb_spec i (Z.of_nat (length a))); [| lia].
  destruct (Z.leb_spec (- Z.of_nat (length a)) (i - Z.of_nat (length a)));
    [| lia].
  destruct (Z.ltb_spec (i - Z.of_nat (length a)) 0); [| lia].
  cbn [andb]. f_equal. lia.
Qed.

(** X5.  Once the anchor count passes the guard, [subtract_polynomial]
    raises [IndexError] exactly when some anchor index lies outside
    [-n, n), [n] being the number of points; and indices in [-n, 0) count
    from the end: anchor [i - n] is anchor [i].  (Angles and intensities
    have the same length [n].) *)
Theorem subtract_polynomial_anchor_indices
    (polyfit : list Q -> list Q -> Z -> option (list Q))
    (angles intensities : list Q) (selected_indices : list Z)
    (poly_order : Z) :
  let n := Z.of_nat (length angles) in
  length intensities = length angles ->
  poly_order < Z.of_nat (length selected_indices) ->
  (subtract_polynomial polyfit angles intensities selected_indices poly_order
   = Raise IndexError <->
   Exists (fun i => ~ (- n <= i < n)) selected_indices) /\
  (Forall (fun i => 0 <= i < n) selected_indices ->
   subtract_polynomial polyfit angles intensities
     (map (fun i => i - n) selected_indices) poly_order
   = subtract_polynomial polyfit angles intensities selected_indices
       poly_order).
Proof.
  intros n Hlen Hguard. split.
  - unfold subtract_polynomial.
    destruct (Z.leb_spec (Z.of_nat (length selected_indices)) poly_order);
      [lia |].
    pose proof (np_take_None angles selected_indices) as Ha.
    pose proof (np_take_None intensities selected_indices) as Hi.
    rewrite Hlen in Hi. fold n in Ha, Hi.
    destruct (np_take angles selected_indices) as [sa|].
    + destruct (np_take intensities selected_indices) as [si|].
      * split.
        -- destruct (polyfit sa si poly_order); discriminate.
        -- intros Hex. apply Ha in Hex. discriminate.
      * split; [intros _; apply Hi; reflexivity | reflexivity].
    + split; [intros _; apply Ha; reflexivity | reflexivity].
  - intros Hall. unfold subtract_polynomial. rewrite length_map.
    assert (Htake : forall (a : list Q),
               length a = length angles ->
               np_take a (map (fun i => i - n) selected_indices)
               = np_take a selected_indices).
    { intros a Ha. unfold np_take. subst n. rewrite <- Ha in Hall |- *.
      apply Forall2_mapM_ext, Forall2_fmap_l, Forall_Forall2_diag.
      eapply Forall_impl; [exact Hall |].
      intros i Hi. simpl. apply np_index_wrap. exact Hi. }
    rewrite (Htake angles eq_refl), (Htake intensities Hlen). reflexivity.
Qed.

Lemma subtract_polynomial_anchor_indices_witness :
  subtract_polynomial lstsq_polyfit [10; 20; 30]%Q [1; 3; 9]%Q [0; 3] 1
  = Raise IndexError /\
  subtract_polynomial lstsq_polyfit [10; 20; 30]%Q [1; 3; 9]%Q [-3; -1] 1
  = subtract_polynomial lstsq_polyfit [10; 20; 30]%Q [1; 3; 9]%Q [0; 2] 1.
Proof.
  split.
  - apply (proj1 (subtract_polynomial_anchor_indices lstsq_polyfit
                    [10; 20; 30]%Q [1; 3; 9]%Q [0; 3] 1 eq_refl eq_refl)).
    apply Exists_cons_tl, Exists_cons_hd. simpl. lia.
  - apply (proj2 (subtract_polynomial_anchor_indices lstsq_polyfit
                    [10; 20; 30]%Q [1; 3; 9]%Q [0; 2] 1 eq_refl eq_refl)).
    repeat constructor; simpl; lia.
Defined.

(** X6.  The background of [subtract_polynomial] depends on the
    intensities through the anchor points only: two intensity arrays that
    agree at the selected indices give the same outcome, raised errors
    included; and a successful call returns one background value per
    angle. *)
Theorem subtract_polynomial_reads_anchors_only
    (polyfit : list Q -> list Q -> Z -> option (list Q))
    (angles intensities intensities' : list Q) (selected_indices : list Z)
    (poly_order : Z) :
  Forall (fun i => np_index intensities i = np_index intensities' i)
         selected_indices ->
  subtract_polynomial polyfit angles intensities selected_indices poly_order
  = subtract_polynomial polyfit angles intensities' selected_indices
      poly_order /\
  (forall background,
     subtract_polynomial polyfit angles intensities selected_indices
       poly_order = Ok background ->
     length background = length angles).
Proof.
  intros Hsame. split.
  - unfold subtract_polynomial, np_take.
    rewrite (Forall_mapM_ext _ _ _ Hsame). reflexivity.
  - unfold subtract_polynomial. intros background.
    destruct (_ <=? _); [discriminate |].
    destruct (np_take angles selected_indices); [| discriminate].
    destruct (np_take intensities selected_indices); [| discriminate].
    destruct (polyfit _ _ _); [| discriminate].
    intros [= <-]. apply length_map.
Qed.

Lemma subtract_polynomial_reads_anchors_only_witness :
  subtract_polynomial lstsq_polyfit [10; 20; 30]%Q [1; 3; 9]%Q [0; 2] 1
  = subtract_polynomial lstsq_polyfit [10; 20; 30]%Q [1; 700; 9]%Q [0; 2] 1.
Proof.
  apply (subtract_polynomial_reads_anchors_only lstsq_polyfit
           [10; 20; 30]%Q [1; 3; 9]%Q [1; 700; 9]%Q [0; 2] 1).
  repeat constructor.
Defined.

End BackgroundProps.

(** ** Search-match scoring: further properties *)

Module SearchMatchProps.
Import SearchMatch SearchMatchSpec.

(** *** Invariants of the records *)

Lemma in_window_tolerance (a tol : Q) (e : peak_row) :
  in_window (a - tol) (a + tol) e = true <->
  (Qabs (row_angle e - a) <= tol)%Q.
Proof.
  unfold in_window.
  rewrite andb_true_iff, !Qle_bool_iff, Qabs_Qle_condition.
  split; intros [H1 H2]; split; lra.
Qed.





(** *** The nearest candidate *)

Lemma argmin_from_spec (l : list Q) :
  forall (pre : list Q) (best : nat) (best_val : Q),
    pre !! best = Some best_val ->
    Forall (fun x => (best_val <= x)%Q) pre ->
    exists m,
      (pre ++ l) !! argmin_from best best_val (length pre) l = Some m /\
      Forall (fun x => (m <= x)%Q) (pre ++ l).
Proof.
  induction l as [|x l IH]; intros pre best best_val Hbest Hmin.
  - simpl. rewrite app_nil_r. exists best_val. split; assumption.
  - simpl. destruct (Qle_bool best_val x) eqn:Hle.
    + apply Qle_bool_iff in Hle.
      destruct (IH (pre ++ [x]) best best_val) as (m & Hm & Hall).
      * apply lookup_app_l_Some. exact Hbest.
      * apply Forall_app. split; [exact Hmin |]. constructor; [exact Hle |].
        constructor.
      * rewrite length_app, Nat.add_1_r in Hm. rewrite <- app_assoc in Hm, Hall.
        exists m. split; assumption.
    + assert (Hlt : (x < best_val)%Q).
      { apply Qnot_le_lt. intros H. apply Qle_bool_iff in H. congruence. }
      destruct (IH (pre ++ [x]) (length pre) x) as (m & Hm & Hall).
      * rewrite lookup_app_r, Nat.sub_diag by lia. reflexivity.
      * apply Forall_app. split.
        -- eapply Forall_impl; [exact Hmin |]. intros y Hy. simpl in Hy. lra.
        -- constructor; [apply Qle_refl | constructor].
      * rewrite length_app, Nat.add_1_r in Hm. rewrite <- app_assoc in Hm, Hall.
        exists m. split; assumption.
Qed.

Lemma argmin_spec (x : Q) (l : list Q) :
  exists m,
    (x :: l) !! argmin (x :: l) = Some m /\
    Forall (fun y => (m <= y)%Q) (x :: l).
Proof.
  apply (argmin_from_spec l [x] 0%nat x).
  - reflexivity.
  - constructor; [apply Qle_refl | constructor].
Qed.

(** [closest] returns a candidate, and no candidate is nearer. *)
Lemma closest_nearest (r : ref_row) (first : peak_row)
    (rest : list peak_row) :
  let e := closest (r_angle r) first (first :: rest) in
  e ∈ first :: rest /\
  Forall (fun e' => (distance r e <= distance r e')%Q) (first :: rest).
Proof.
  intros e. unfold e, closest.
  set (f := fun e : peak_row => Qabs (row_angle e - r_angle r)).
  set (cands := first :: rest).
  destruct (argmin_spec (f first) (map f rest)) as (m & Hm & Hall).
  change (f first :: map f rest) with (map f cands) in Hm, Hall.
  rewrite (list_lookup_fmap f) in Hm.
  destruct (cands !! argmin (map f cands)) as [e0|] eqn:He0; [| discriminate].
  injection Hm as Hm.
  rewrite (nth_lookup_Some _ _ _ _ He0).
  split.
  - apply list_elem_of_lookup. eexists. exact He0.
  - apply (proj1 (List.Forall_map f _ cands)) in Hall.
    eapply Forall_impl; [exact Hall |].
    intros e' He'. unfold distance. fold (f e0) (f e'). simpl in He'.
    rewrite Hm. exact He'.
Qed.

(** [match_step_cases], with what [argmin] guarantees of the row taken. *)
Lemma match_step_nearest (experimental_peaks : list peak_row) (tol : Q)
    (st : state) (r : ref_row) :
  let candidates :=
    potential_matches experimental_peaks (r_angle r) tol
      (used_exp_indices st) in
  (candidates = [] /\
   match_step experimental_peaks tol st r = st) \/
  (exists e,
     e ∈ candidates /\
     Forall (fun e' => (distance r e <= distance r e')%Q) candidates /\
     match_step experimental_peaks tol st r
     = {| used_exp_indices := {[row_name e]} ∪ used_exp_indices st;
          matched_peaks_info := matched_peaks_info st ++ [record_of r e];
          matched_reference_intensity :=
            (matched_reference_intensity st + r_intensity r)%Q |}).
Proof.
  intros candidates. unfold match_step. fold candidates.
  destruct candidates as [|first rest] eqn:Hc.
  - left. split; reflexivity.
  - right. destruct (closest_nearest r first rest) as [Hin Hall].
    exists (closest (r_angle r) first (first :: rest)).
    split; [exact Hin |]. split; [exact Hall |]. reflexivity.
Qed.

Lemma taken_shift (chosen : list (nat * peak_row)) :
  taken (map shift chosen) = taken chosen.
Proof. apply shift_names. Qed.

(** The greedy run: every row taken is nearest among the rows of the
    window that are still free, and a reference row is passed over only
    when its window has no free row left. *)
Lemma match_loop_greedy (experimental_peaks : list peak_row) (tol : Q)
    (reference : list ref_row) :
  forall st,
  exists recs chosen,
    let st' := match_loop experimental_peaks tol reference st in
    matched_peaks_info st' = matched_peaks_info st ++ recs /\
    traces reference recs chosen /\
    (forall k c r e',
       chosen !! k = Some c ->
       reference !! c.1 = Some r ->
       e' ∈ experimental_peaks ->
       in_window (r_angle r - tol) (r_angle r + tol) e' = true ->
       row_name e' ∉ used_exp_indices st ->
       row_name e' ∉ taken (take k chosen) ->
       (distance r c.2 <= distance r e')%Q) /\
    (forall i r e',
       reference !! i = Some r ->
       i ∉ map fst chosen ->
       e' ∈ experimental_peaks ->
       in_window (r_angle r - tol) (r_angle r + tol) e' = true ->
       row_name e' ∈ used_exp_indices st \/
       exists c, c ∈ chosen /\ (c.1 < i)%nat /\ row_name c.2 = row_name e').
Proof.
  induction reference as [|r reference IH]; intros st.
  - exists [], []. simpl. rewrite app_nil_r.
    repeat split; try constructor; intros; discriminate.
  - unfold match_loop. simpl fold_left.
    fold (match_loop experimental_peaks tol reference
            (match_step experimental_peaks tol st r)).
    destruct (IH (match_step experimental_peaks tol st r))
      as (recs & chosen & Hinfo & Htr & Hnear & Hfull).
    cbv zeta in *.
    destruct (match_step_nearest experimental_peaks tol st r)
      as [[Hnone Hst] | (e & He & Hbest & Hst)]; rewrite Hst in *; clear Hst.
    + exists recs, (map shift chosen).
      split; [exact Hinfo |]. split; [apply traces_shift; exact Htr |]. split.
      * intros k c r' e' Hk Hr' He' Hwin Hfree Hnot.
        rewrite list_lookup_fmap in Hk.
        destruct (chosen !! k) as [c0|] eqn:Hc0; [| discriminate].
        injection Hk as <-. simpl in Hr' |- *.
        apply (Hnear k c0 r' e' Hc0 Hr' He' Hwin Hfree).
        rewrite <- fmap_take, taken_shift in Hnot. exact Hnot.
      * intros [|i] r' e' Hr' Hi He' Hwin.
        -- injection Hr' as <-. left.
           destruct (decide (row_name e' ∈ used_exp_indices st)) as [H | H];
             [exact H | exfalso].
           assert (Hin : e' ∈ potential_matches experimental_peaks
                           (r_angle r) tol (used_exp_indices st)).
           { apply potential_matches_spec. auto. }
           rewrite Hnone in Hin. inversion Hin.
        -- simpl in Hr'.
           destruct (Hfull i r' e' Hr') as [H | (c & Hc & Hlt & Hname)];
             try assumption.
           ++ intros Hin. apply Hi.
              apply list_elem_of_fmap in Hin as (c & -> & Hc).
              apply list_elem_of_fmap. exists (shift c). split; [reflexivity |].
              apply list_elem_of_fmap. exists c. auto.
           ++ left. exact H.
           ++ right. exists (shift c). split; [| split].
              ** apply list_elem_of_fmap. exists c. auto.
              ** simpl. lia.
              ** exact Hname.
    + simpl in *.
      exists (record_of r e :: recs), ((0%nat, e) :: map shift chosen).
      split; [rewrite Hinfo, <- app_assoc; reflexivity |]. split.
      { constructor; [| apply traces_shift; exact Htr].
        exists r. split; reflexivity. }
      split.
      * intros [|k] c r' e' Hk Hr' He' Hwin Hfree Hnot.
        -- injection Hk as <-. simpl in Hr'. injection Hr' as <-. simpl.
           rewrite Forall_forall in Hbest. apply Hbest.
           apply potential_matches_spec. auto.
        -- simpl in Hk, Hnot. rewrite list_lookup_fmap in Hk.
           destruct (chosen !! k) as [c0|] eqn:Hc0; [| discriminate].
           injection Hk as <-. simpl in Hr' |- *.
           apply not_elem_of_cons in Hnot as [Hne Hnot].
           apply (Hnear k c0 r' e' Hc0 Hr' He' Hwin).
           ++ intros Hu. apply elem_of_union in Hu as [Hu | Hu].
              ** apply elem_of_singleton in Hu. congruence.
              ** contradiction.
           ++ rewrite <- fmap_take, taken_shift in Hnot. exact Hnot.
      * intros [|i] r' e' Hr' Hi He' Hwin.
        -- exfalso. apply Hi. simpl. apply list_elem_of_here.
        -- simpl in Hr'.
           destruct (Hfull i r' e' Hr') as [H | (c & Hc & Hlt & Hname)];
             try assumption.
           ++ intros Hin. apply Hi. simpl. apply list_elem_of_further.
              apply list_elem_of_fmap in Hin as (c & -> & Hc).
              apply list_elem_of_fmap. exists (shift c). split; [reflexivity |].
              apply list_elem_of_fmap. exists c. auto.
           ++ apply elem_of_union in H as [H | H].
              ** apply elem_of_singleton in H. right.
                 exists (0%nat, e). split; [apply list_elem_of_here |].
                 split; [simpl; lia | simpl; congruence].
              ** left. exact H.
           ++ right. exists (shift c). split; [| split].
              ** apply list_elem_of_further, list_elem_of_fmap. exists c. auto.
              ** simpl. lia.
              ** exact Hname.
Qed.


Lemma in_window_distance (r : ref_row) (tol : Q) (e : peak_row) :
  in_window (r_angle r - tol) (r_angle r + tol) e = true <->
  (distance r e <= tol)%Q.
Proof. apply in_window_tolerance. Qed.

(** X8.  Each record holds the experimental row nearest to its reference
    row: no row within the tolerance that the earlier records left free
    is nearer. *)
Theorem perform_search_match_takes_nearest
    (sort_values : list ref_row -> list ref_row)
    (experimental_peaks : DataFrame peak_row)
    (reference_pattern : DataFrame ref_row) (angle_tolerance : Q) :
  sorts_by_intensity sort_values ->
  has_columns experimental_peaks ["angle"] = true ->
  has_columns reference_pattern ["angle"; "intensity"] = true ->
  exists fom table chosen,
    perform_search_match sort_values experimental_peaks reference_pattern
      angle_tolerance
    = Ok (fom, table) /\
    traces (sort_values (rows reference_pattern)) table chosen /\
    forall k c r e',
      chosen !! k = Some c ->
      sort_values (rows reference_pattern) !! c.1 = Some r ->
      e' ∈ rows experimental_peaks ->
      (distance r e' <= angle_tolerance)%Q ->
      row_name e' ∉ taken (take k chosen) ->
      (distance r c.2 <= distance r e')%Q.
Proof.
  intros Hsorts He Hr.
  rewrite (perform_search_match_returns _ _ _ _ Hsorts He Hr). cbv zeta.
  destruct (match_loop_greedy (rows experimental_peaks) angle_tolerance
              (sort_values (rows reference_pattern)) initial_state)
    as (recs & chosen & Hinfo & Htr & Hnear & _).
  cbv zeta in Hinfo. simpl in Hinfo.
  eexists _, _, chosen. split; [reflexivity |].
  rewrite Hinfo. split; [exact Htr |].
  intros k c r e' Hk Hc He' Hd Hfree.
  apply (Hnear k c r e' Hk Hc He'); [| | exact Hfree].
  - apply in_window_distance. exact Hd.
  - simpl. apply not_elem_of_empty.
Qed.

Lemma perform_search_match_takes_nearest_witness :
  exists fom table chosen,
    perform_search_match stable_sort_values
      (peaks_frame [4558 # 100; 4551 # 100; 5649 # 100]%Q) nacl (1 # 10)
    = Ok (fom, table) /\
    traces (stable_sort_values (rows nacl)) table chosen /\
    forall k c r e',
      chosen !! k = Some c ->
      stable_sort_values (rows nacl) !! c.1 = Some r ->
      e' ∈ rows (peaks_frame [4558 # 100; 4551 # 100; 5649 # 100]%Q) ->
      (distance r e' <= 1 # 10)%Q ->
      row_name e' ∉ taken (take k chosen) ->
      (distance r c.2 <= distance r e')%Q.
Proof.
  apply (perform_search_match_takes_nearest stable_sort_values
           (peaks_frame [4558 # 100; 4551 # 100; 5649 # 100]%Q) nacl
           (1 # 10) stable_sort_values_sorts eq_refl eq_refl).
Defined.

(** X9.  A reference row is left without a record only when every
    experimental row within the tolerance of it has been taken by a
    reference row that comes before it in the order of the sort. *)
Theorem perform_search_match_passes_over_taken_only
    (sort_values : list ref_row -> list ref_row)
    (experimental_peaks : DataFrame peak_row)
    (reference_pattern : DataFrame ref_row) (angle_tolerance : Q) :
  sorts_by_intensity sort_values ->
  has_columns experimental_peaks ["angle"] = true ->
  has_columns reference_pattern ["angle"; "intensity"] = true ->
  exists fom table chosen,
    perform_search_match sort_values experimental_peaks reference_pattern
      angle_tolerance
    = Ok (fom, table) /\
    traces (sort_values (rows reference_pattern)) table chosen /\
    forall i r e',
      sort_values (rows reference_pattern) !! i = Some r ->
      i ∉ map fst chosen ->
      e' ∈ rows experimental_peaks ->
      (distance r e' <= angle_tolerance)%Q ->
      exists c, c ∈ chosen /\ (c.1 < i)%nat /\ row_name c.2 = row_name e'.
Proof.
  intros Hsorts He Hr.
  rewrite (perform_search_match_returns _ _ _ _ Hsorts He Hr). cbv zeta.
  destruct (match_loop_greedy (rows experimental_peaks) angle_tolerance
              (sort_values (rows reference_pattern)) initial_state)
    as (recs & chosen & Hinfo & Htr & _ & Hfull).
  cbv zeta in Hinfo. simpl in Hinfo.
  eexists _, _, chosen. split; [reflexivity |].
  rewrite Hinfo. split; [exact Htr |].
  intros i r e' Hi Hnot He' Hd.
  destruct (Hfull i r e' Hi Hnot He') as [H | H].
  - apply in_window_distance. exact Hd.
  - simpl in H. exfalso. exact (not_elem_of_empty _ H).
  - exact H.
Qed.

Lemma perform_search_match_passes_over_taken_only_witness :
  exists fom table chosen,
    perform_search_match stable_sort_values
      (peaks_frame [5 # 100]%Q)
      (reference_frame [(0, 100); (1 # 10, 80)]%Q) (1 # 10)
    = Ok (fom, table) /\
    traces
      (stable_sort_values
         (rows (reference_frame [(0, 100); (1 # 10, 80)]%Q))) table chosen /\
    forall i r e',
      stable_sort_values
        (rows (reference_frame [(0, 100); (1 # 10, 80)]%Q)) !! i = Some r ->
      i ∉ map fst chosen ->
      e' ∈ rows (peaks_frame [5 # 100]%Q) ->
      (distance r e' <= 1 # 10)%Q ->
      exists c, c ∈ chosen /\ (c.1 < i)%nat /\ row_name c.2 = row_name e'.
Proof.
  apply (perform_search_match_passes_over_taken_only stable_sort_values
           (peaks_frame [5 # 100]%Q)
           (reference_frame [(0, 100); (1 # 10, 80)]%Q)
           (1 # 10) stable_sort_values_sorts eq_refl eq_refl).
Defined.

(** *** The empty table *)





(** *** A full score *)





(** *** The order of the table *)

Lemma StronglySorted_lookup {A : Type} (R : A -> A -> Prop) (l : list A) :
  StronglySorted R l ->
  forall i j a b,
    (i < j)%nat -> l !! i = Some a -> l !! j = Some b -> R a b.
Proof.
  induction 1 as [|x l Hl IH Hx]; intros i j a b Hij Ha Hb.
  - discriminate.
  - destruct j as [|j]; [lia |]. simpl in Hb. destruct i as [|i].
    + injection Ha as <-. rewrite Forall_forall in Hx. apply Hx.
      apply list_elem_of_lookup. eexists. exact Hb.
    + simpl in Ha. apply (IH i j); [lia | assumption ..].
Qed.

Lemma traces_sorted (reference : list ref_row) (recs : list match_record)
    (chosen : list (nat * peak_row)) :
  StronglySorted stronger reference ->
  traces reference recs chosen ->
  StronglySorted lt (map fst chosen) ->
  StronglySorted (fun a b => (ref_intensity b <= ref_intensity a)%Q) recs.
Proof.
  intros Href Htr. induction Htr as [|rec c recs chosen Hrec Htr IH];
    intros Hsort.
  - constructor.
  - simpl in Hsort. apply StronglySorted_inv in Hsort as [Hsort Hlt].
    constructor; [apply IH; exact Hsort |].
    apply Forall_forall. intros rec' Hin.
    apply list_elem_of_lookup in Hin as [k Hk].
    destruct (Forall2_lookup_l _ _ _ _ _ Htr Hk) as (c' & Hc' & r' & Hr' & ->).
    destruct Hrec as (r & Hr & ->). simpl.
    apply (StronglySorted_lookup stronger reference Href c.1 c'.1);
      [| assumption ..].
    rewrite Forall_forall in Hlt. apply Hlt.
    apply list_elem_of_fmap. exists c'. split; [reflexivity |].
    apply list_elem_of_lookup. eexists. exact Hc'.
Qed.

(** X12.  The records of the match table come in order of decreasing
    reference intensity, whatever the order of the rows of the reference
    pattern. *)
Theorem perform_search_match_table_order
    (sort_values : list ref_row -> list ref_row)
    (experimental_peaks : DataFrame peak_row)
    (reference_pattern : DataFrame ref_row) (angle_tolerance : Q) :
  sorts_by_intensity sort_values ->
  has_columns experimental_peaks ["angle"] = true ->
  has_columns reference_pattern ["angle"; "intensity"] = true ->
  exists fom table,
    perform_search_match sort_values experimental_peaks reference_pattern
      angle_tolerance
    = Ok (fom, table) /\
    StronglySorted (fun a b => (ref_intensity b <= ref_intensity a)%Q) table.
Proof.
  intros Hsorts He Hr.
  rewrite (perform_search_match_returns _ _ _ _ Hsorts He Hr). cbv zeta.
  destruct (Hsorts (rows reference_pattern)) as [_ Hsorted].
  destruct (match_loop_trace (rows experimental_peaks) angle_tolerance
              (sort_values (rows reference_pattern)) initial_state)
    as (recs & chosen & Hinfo & Htr & Hsort & _).
  cbv zeta in Hinfo. simpl in Hinfo.
  eexists _, _. split; [reflexivity |]. rewrite Hinfo.
  exact (traces_sorted _ _ _ Hsorted Htr Hsort).
Qed.

Lemma perform_search_match_table_order_witness :
  exists fom table,
    perform_search_match stable_sort_values
      (peaks_frame [3175 # 100; 4548 # 100; 5652 # 100]%Q)
      (reference_frame [(565 # 10, 60); (317 # 10, 100); (455 # 10, 80)]%Q)
      (1 # 10)
    = Ok (fom, table) /\
    StronglySorted (fun a b => (ref_intensity b <= ref_intensity a)%Q) table.
Proof.
  apply (perform_search_match_table_order stable_sort_values
           (peaks_frame [3175 # 100; 4548 # 100; 5652 # 100]%Q)
           (reference_frame
              [(565 # 10, 60); (317 # 10, 100); (455 # 10, 80)]%Q)
           (1 # 10) stable_sort_values_sorts eq_refl eq_refl).
Defined.


(** *** What the result does not depend on *)

Lemma filter_filter_subsumed {A : Type} (p q : A -> bool) (l : list A) :
  (forall x, q x = true -> p x = true) ->
  List.filter q (List.filter p l) = List.filter q l.
Proof.
  intros Hpq. induction l as [|x l IH]; [reflexivity |]. simpl.
  destruct (p x) eqn:Hp; simpl.
  - rewrite IH. reflexivity.
  - destruct (q x) eqn:Hq; [| exact IH].
    rewrite (Hpq x Hq) in Hp. discriminate.
Qed.

Lemma match_loop_select (experimental_peaks : list peak_row) (tol : Q)
    (pattern reference : list ref_row) :
  Forall (fun r => r ∈ pattern) reference ->
  forall st,
    match_loop (List.filter (near_reference pattern tol) experimental_peaks)
      tol reference st
    = match_loop experimental_peaks tol reference st.
Proof.
  induction reference as [|r reference IH]; intros Hin st; [reflexivity |].
  apply Forall_cons in Hin as [Hr Hin].
  unfold match_loop. simpl fold_left.
  fold (match_loop experimental_peaks tol reference
          (match_step experimental_peaks tol st r)).
  rewrite <- (IH Hin). unfold match_loop. f_equal.
  unfold match_step, potential_matches.
  rewrite (filter_filter_subsumed (near_reference pattern tol)); [reflexivity |].
  intros e He. unfold near_reference. apply existsb_exists.
  exists r. split; [apply list_elem_of_In; exact Hr | exact He].
Qed.

(** X13.  Experimental rows that lie outside the window of every
    reference row have no influence: the call returns the same with and
    without them. *)
Theorem perform_search_match_ignores_far_rows
    (sort_values : list ref_row -> list ref_row)
    (experimental_peaks : DataFrame peak_row)
    (reference_pattern : DataFrame ref_row) (angle_tolerance : Q) :
  sorts_by_intensity sort_values ->
  perform_search_match sort_values
    (select_rows (near_reference (rows reference_pattern) angle_tolerance)
       experimental_peaks)
    reference_pattern angle_tolerance
  = perform_search_match sort_values experimental_peaks reference_pattern
      angle_tolerance.
Proof.
  intros Hsorts. unfold perform_search_match.
  change (has_columns (select_rows _ experimental_peaks) ["angle"])
    with (has_columns experimental_peaks ["angle"]).
  destruct (negb (has_columns experimental_peaks ["angle"])); [reflexivity |].
  destruct (negb (has_columns reference_pattern ["angle"; "intensity"]));
    [reflexivity |].
  destruct (rows reference_pattern) as [|r0 l0] eqn:Hrows; [reflexivity |].
  cbv zeta. simpl rows.
  rewrite match_loop_select; [reflexivity |].
  destruct (Hsorts (r0 :: l0)) as [Hperm _].
  apply Forall_forall. intros r Hr. rewrite <- Hperm. exact Hr.
Qed.

Lemma perform_search_match_ignores_far_rows_witness :
  perform_search_match stable_sort_values
    (peaks_frame [3175 # 100; 4548 # 100; 5652 # 100]%Q) nacl (1 # 10)
  = perform_search_match stable_sort_values
      (peaks_frame [3175 # 100; 4548 # 100; 5652 # 100; 40; 70]%Q) nacl
      (1 # 10).
Proof.
  exact (perform_search_match_ignores_far_rows stable_sort_values
           (peaks_frame [3175 # 100; 4548 # 100; 5652 # 100; 40; 70]%Q)
           nacl (1 # 10) stable_sort_values_sorts).
Defined.

Lemma sorted_perm_unique (l1 : list ref_row) :
  forall l2,
    distinct_intensities l1 ->
    StronglySorted stronger l1 ->
    StronglySorted stronger l2 ->
    l1 ≡ₚ l2 ->
    l1 = l2.
Proof.
  induction l1 as [|a l1 IH]; intros l2 Hdist H1 H2 Hperm.
  - apply Permutation_nil_l. exact Hperm.
  - destruct l2 as [|b l2].
    { apply Permutation_nil_r in Hperm. discriminate. }
    apply StronglySorted_inv in H1 as [H1 Ha].
    apply StronglySorted_inv in H2 as [H2 Hb].
    rewrite Forall_forall in Ha, Hb.
    assert (Hab : a = b).
    { assert (Hain : a ∈ b :: l2) by (rewrite <- Hperm; apply list_elem_of_here).
      assert (Hbin : b ∈ a :: l1) by (rewrite Hperm; apply list_elem_of_here).
      apply elem_of_cons in Hain as [Heq | Hain]; [exact Heq |].
      apply elem_of_cons in Hbin as [Heq | Hbin]; [symmetry; exact Heq |].
      apply Hdist.
      - apply list_elem_of_here.
      - apply list_elem_of_further. exact Hbin.
      - apply Qle_antisym; [apply Hb, Hain | apply Ha, Hbin]. }
    subst b. f_equal. apply IH; try assumption.
    + intros x y Hx Hy. apply Hdist; apply list_elem_of_further; assumption.
    + exact (Permutation_cons_inv Hperm).
Qed.

(** X14.  When no two reference rows have the same intensity, the result
    depends neither on the order of the rows of the reference pattern nor
    on the sorting algorithm. *)
Theorem perform_search_match_reference_order
    (sort_values sort_values' : list ref_row -> list ref_row)
    (experimental_peaks : DataFrame peak_row)
    (reference_pattern reference_pattern' : DataFrame ref_row)
    (angle_tolerance : Q) :
  sorts_by_intensity sort_values ->
  sorts_by_intensity sort_values' ->
  columns reference_pattern = columns reference_pattern' ->
  rows reference_pattern ≡ₚ rows reference_pattern' ->
  distinct_intensities (rows reference_pattern) ->
  perform_search_match sort_values experimental_peaks reference_pattern
    angle_tolerance
  = perform_search_match sort_values' experimental_peaks reference_pattern'
      angle_tolerance.
Proof.
  intros Hs Hs' Hcols Hperm Hdist. unfold perform_search_match.
  assert (Hc : has_columns reference_pattern ["angle"; "intensity"]
               = has_columns reference_pattern' ["angle"; "intensity"]).
  { unfold has_columns. rewrite Hcols. reflexivity. }
  rewrite Hc.
  destruct (negb (has_columns experimental_peaks ["angle"])); [reflexivity |].
  destruct (negb (has_columns reference_pattern' ["angle"; "intensity"]));
    [reflexivity |].
  destruct (Hs (rows reference_pattern)) as [Hp1 Hsorted1].
  destruct (Hs' (rows reference_pattern')) as [Hp2 Hsorted2].
  assert (Heq : sort_values (rows reference_pattern)
                = sort_values' (rows reference_pattern')).
  { apply sorted_perm_unique; try assumption.
    - intros a b Ha Hb. apply Hdist; rewrite <- Hp1; assumption.
    - rewrite Hp1, Hp2. exact Hperm. }
  destruct (rows reference_pattern) as [|r l] eqn:Hrows;
    destruct (rows reference_pattern') as [|r' l'] eqn:Hrows'.
  - reflexivity.
  - apply Permutation_nil_l in Hperm. discriminate.
  - apply Permutation_nil_r in Hperm. discriminate.
  - cbv zeta. rewrite Heq. reflexivity.
Qed.

Lemma perform_search_match_reference_order_witness :
  perform_search_match stable_sort_values
    (peaks_frame [4551 # 100; 5649 # 100]%Q) nacl (1 # 10)
  = perform_search_match stable_sort_values
      (peaks_frame [4551 # 100; 5649 # 100]%Q)
      (reference_frame [(565 # 10, 60); (317 # 10, 100); (455 # 10, 80)]%Q)
      (1 # 10).
Proof.
  apply (perform_search_match_reference_order stable_sort_values
           stable_sort_values (peaks_frame [4551 # 100; 5649 # 100]%Q) nacl
           (reference_frame
              [(565 # 10, 60); (317 # 10, 100); (455 # 10, 80)]%Q)
           (1 # 10) stable_sort_values_sorts stable_sort_values_sorts
           eq_refl).
  - simpl. symmetry. apply (Permutation_cons_append [_; _] _).
  - intros a b Ha Hb.
    repeat (apply elem_of_cons in Ha as [-> | Ha]); [| | | inversion Ha];
      repeat (apply elem_of_cons in Hb as [-> | Hb]);
      try (inversion Hb; fail);
      intros H; first [reflexivity | vm_compute in H; discriminate H].
Defined.

End SearchMatchProps.

(** ** Quantitative phase analysis: further properties *)

Module QpaProps.
Import Qpa QpaSpec.

Lemma positive_or_not (phase_data : list phase) :
  {Forall (fun p => (0 < get p "rir")%Q) phase_data} +
  {Exists (fun p => (get p "rir" <= 0)%Q) phase_data}.
Proof.
  apply Forall_Exists_dec. intros p. apply Qlt_le_dec.
Qed.

(** The call, once the loop is known to pass every phase. *)
Lemma calculate_returns (phase_data : list phase) :
  Forall (fun p => (0 < get p "rir")%Q) phase_data ->
  calculate_rir_quantification phase_data
  = let v := map phase_value phase_data in
    let s := fold_left Qplus v 0%Q in
    if Qeq_bool s 0 then Ok (replicate (length phase_data) 0%Q)
    else Ok (map (fun val => (val / s * 100)%Q) v).
Proof.
  intros Hpos. rewrite Forall_forall in Hpos.
  unfold calculate_rir_quantification.
  rewrite (rir_loop_returns _ _ _ Hpos).
  destruct phase_data; reflexivity.
Qed.

Lemma calculate_raises (phase_data : list phase) :
  Exists (fun p => (get p "rir" <= 0)%Q) phase_data ->
  calculate_rir_quantification phase_data = Raise QpaError.
Proof.
  intros Hbad. apply Exists_exists in Hbad.
  unfold calculate_rir_quantification.
  rewrite (rir_loop_raises _ _ _ Hbad).
  destruct phase_data as [|p l]; [| reflexivity].
  destruct Hbad as (p & Hin & _). inversion Hin.
Qed.

Lemma calculate_Ok (phase_data : list phase) (w : list Q) :
  calculate_rir_quantification phase_data = Ok w ->
  Forall (fun p => (0 < get p "rir")%Q) phase_data.
Proof.
  intros Hcall. destruct (positive_or_not phase_data) as [H | H]; [exact H |].
  rewrite (calculate_raises _ H) in Hcall. discriminate.
Qed.

Lemma Qsum_weights (v : list Q) (s : Q) :
  (Qsum (map (fun val => val / s * 100) v) == Qsum v / s * 100)%Q.
Proof.
  induction v as [|x v IH]; simpl.
  - unfold Qdiv. ring.
  - rewrite IH. unfold Qdiv. ring.
Qed.

Lemma Qsum_replicate_0 (n : nat) : (Qsum (replicate n 0) == 0)%Q.
Proof. induction n as [|n IH]; simpl; [reflexivity | rewrite IH; ring]. Qed.

Lemma fold_left_Qsum (v : list Q) : (fold_left Qplus v 0 == Qsum v)%Q.
Proof. rewrite fold_left_Qplus. ring. Qed.

(** X15.  A returned list has one weight per phase, and the weights add up
    to 100 exactly when the values [intensity / rir] do not add up to 0
    (they are all 0 otherwise). *)
Theorem calculate_rir_quantification_total (phase_data : list phase)
    (w : list Q) :
  calculate_rir_quantification phase_data = Ok w ->
  length w = length phase_data /\
  ((Qsum w == 100)%Q <-> ~ (Qsum (map phase_value phase_data) == 0)%Q) /\
  ((Qsum w == 0)%Q <-> (Qsum (map phase_value phase_data) == 0)%Q).
Proof.
  intros Hcall. pose proof (calculate_Ok _ _ Hcall) as Hpos.
  rewrite (calculate_returns _ Hpos) in Hcall. cbv zeta in Hcall.
  pose proof (fold_left_Qsum (map phase_value phase_data)) as Hs.
  destruct (Qeq_bool _ 0) eqn:Hz; injection Hcall as <-.
  - apply Qeq_bool_iff in Hz. rewrite Hs in Hz.
    split; [apply length_replicate |].
    rewrite Qsum_replicate_0. split; split; intros H.
    + discriminate H.
    + contradiction.
    + exact Hz.
    + reflexivity.
  - apply Qeq_bool_neq in Hz.
    split; [rewrite !length_map; reflexivity |].
    rewrite Qsum_weights, <- Hs.
    set (s := fold_left Qplus (map phase_value phase_data) 0%Q) in *.
    assert (H100 : (s / s * 100 == 100)%Q) by (field; exact Hz).
    rewrite H100. split; split; intros H.
    + exact Hz.
    + reflexivity.
    + discriminate H.
    + contradiction.
Qed.

Lemma calculate_rir_quantification_total_witness :
  exists w,
    calculate_rir_quantification
      [mk_phase 950 (3 # 2); mk_phase 750 1; mk_phase 550 4] = Ok w /\
    length w = 3%nat /\ (Qsum w == 100)%Q.
Proof.
  eexists. split; [reflexivity |].
  destruct (calculate_rir_quantification_total
              [mk_phase 950 (3 # 2); mk_phase 750 1; mk_phase 550 4] _
              eq_refl) as (Hlen & Hsum & _).
  split; [exact Hlen |]. apply Hsum. vm_compute. discriminate.
Defined.

Lemma phase_value_nonneg (p : phase) :
  (0 <= get p "intensity")%Q -> (0 < get p "rir")%Q -> (0 <= phase_value p)%Q.
Proof.
  intros Hi Hr. unfold phase_value. apply Qle_shift_div_l; [exact Hr |]. lra.
Qed.

Lemma Qsum_nonneg (v : list Q) :
  Forall (fun x => (0 <= x)%Q) v -> (0 <= Qsum v)%Q.
Proof.
  induction 1 as [|x v Hx _ IH]; simpl; [apply Qle_refl | lra].
Qed.

Lemma Qsum_bounds_element (v : list Q) :
  Forall (fun x => (0 <= x)%Q) v -> Forall (fun x => (x <= Qsum v)%Q) v.
Proof.
  induction 1 as [|x v Hx Hv IH]; [constructor |]. simpl.
  pose proof (Qsum_nonneg v Hv) as Hs. constructor; [lra |].
  eapply Forall_impl; [exact IH |]. intros y Hy. simpl in Hy. lra.
Qed.

(** X16.  When no phase has a negative intensity, every returned weight
    lies between 0 and 100. *)
Theorem calculate_rir_quantification_range (phase_data : list phase)
    (w : list Q) :
  Forall (fun p => (0 <= get p "intensity")%Q) phase_data ->
  calculate_rir_quantification phase_data = Ok w ->
  Forall (fun x => (0 <= x)%Q /\ (x <= 100)%Q) w.
Proof.
  intros Hint Hcall. pose proof (calculate_Ok _ _ Hcall) as Hpos.
  rewrite (calculate_returns _ Hpos) in Hcall. cbv zeta in Hcall.
  pose proof (fold_left_Qsum (map phase_value phase_data)) as Hs.
  assert (Hv : Forall (fun x => (0 <= x)%Q) (map phase_value phase_data)).
  { apply List.Forall_map. rewrite Forall_forall in Hint, Hpos |- *.
    intros p Hp. apply phase_value_nonneg; auto. }
  destruct (Qeq_bool _ 0) eqn:Hz; injection Hcall as <-.
  - apply Forall_replicate. split; [apply Qle_refl | discriminate].
  - apply Qeq_bool_neq in Hz.
    set (s := fold_left Qplus (map phase_value phase_data) 0%Q) in *.
    assert (Hspos : (0 < s)%Q).
    { pose proof (Qsum_nonneg _ Hv) as H0. rewrite <- Hs in H0.
      destruct (Qlt_le_dec 0 s) as [H | H]; [exact H |].
      exfalso. apply Hz. apply Qle_antisym; assumption. }
    apply List.Forall_map.
    pose proof (Qsum_bounds_element _ Hv) as Hle.
    rewrite Forall_forall in Hv, Hle |- *. intros x Hx.
    specialize (Hv x Hx). specialize (Hle x Hx). simpl in Hle.
    rewrite <- Hs in Hle.
    assert (H0 : (0 <= x / s)%Q) by (apply Qle_shift_div_l; [exact Hspos | lra]).
    assert (H1 : (x / s <= 1)%Q) by (apply Qle_shift_div_r; [exact Hspos | lra]).
    split; lra.
Qed.

Lemma calculate_rir_quantification_range_witness :
  exists w,
    calculate_rir_quantification
      [mk_phase 950 (3 # 2); mk_phase 0 1; mk_phase 550 4] = Ok w /\
    Forall (fun x => (0 <= x)%Q /\ (x <= 100)%Q) w.
Proof.
  eexists. split; [reflexivity |].
  apply (calculate_rir_quantification_range
           [mk_phase 950 (3 # 2); mk_phase 0 1; mk_phase 550 4]).
  - repeat constructor; vm_compute; discriminate.
  - reflexivity.
Defined.

(** *** Units *)








End QpaProps.

(** ** Generic text reader: further properties *)

Module GenericReaderProps.
Import Text GenericReader GenericReaderSpec.

Section Outcomes.
Variable float : string -> option Q.

Lemma all_length_Forall {A : Type} (n : nat) (m : list (list A)) :
  all_length n m = true <-> Forall (fun r => length r = n) m.
Proof.
  unfold all_length. rewrite forallb_forall, Forall_forall. split.
  - intros H r Hr. apply Nat.eqb_eq, H, list_elem_of_In, Hr.
  - intros H r Hr. apply Nat.eqb_eq, H, list_elem_of_In, Hr.
Qed.

(** [squeeze] on two rows or more. *)
Lemma squeeze_rows (r r' : list Q) (rest : list (list Q)) :
  squeeze (r :: r' :: rest)
  = if (length r =? 1)%nat then Array1 (concat (r :: r' :: rest))
    else Array2 (r :: r' :: rest).
Proof. destruct r as [|x [|y r]]; reflexivity. Qed.

(** When [squeeze] keeps two dimensions. *)
Lemma squeeze_Array2 (m : list (list Q)) :
  (ndim (squeeze m) =? 2)%nat && (2 <=? shape1 (squeeze m))%nat = true ->
  squeeze m = Array2 m /\ (2 <= length m)%nat /\
  exists r rest, m = r :: rest /\ (2 <= length r)%nat.
Proof.
  destruct m as [|r [|r' rest]].
  - simpl. discriminate.
  - destruct r as [|x [|y r]]; simpl; discriminate.
  - rewrite squeeze_rows.
    destruct (length r =? 1)%nat eqn:H1; [simpl; discriminate |].
    cbn [ndim shape1 Nat.eqb andb]. intros H. apply Nat.leb_le in H.
    split; [reflexivity |]. split; [simpl; lia |]. eauto.
Qed.

Lemma squeeze_table (m : list (list Q)) (n : nat) :
  (2 <= length m)%nat -> (2 <= n)%nat ->
  Forall (fun r => length r = n) m ->
  squeeze m = Array2 m /\ shape1 (Array2 m) = n.
Proof.
  intros Hm Hn Hall.
  destruct m as [|r [|r' rest]]; simpl in Hm; try lia.
  apply Forall_cons in Hall as [Hr _]. rewrite squeeze_rows.
  destruct (length r =? 1)%nat eqn:H1; [apply Nat.eqb_eq in H1; lia |].
  split; [reflexivity | exact Hr].
Qed.

(** [loadtxt] passes the test of the loop exactly on a table. *)
Lemma loadtxt_accepted (lines : list string) (skiprows : nat)
    (delimiter : option ascii) (data : ndarray) :
  loadtxt float lines skiprows delimiter = Some data ->
  (ndim data =? 2)%nat && (2 <=? shape1 data)%nat = true ->
  exists m, data = Array2 m /\ parses float lines skiprows delimiter m.
Proof.
  unfold loadtxt. fold (field_rows lines skiprows delimiter).
  intros Hload Htest. unfold parses.
  destruct (mapM (mapM float) (field_rows lines skiprows delimiter))
    as [m|] eqn:Hm; [| discriminate].
  assert (Hdata : data = squeeze m /\
                  forall r m', m = r :: m' ->
                               all_length (length r) m = true).
  { destruct m as [|r m'].
    - split; [congruence | discriminate].
    - destruct (all_length (length r) (r :: m')) eqn:Hall; [| discriminate].
      split; [congruence |]. intros r0 m0 [= <- <-]. exact Hall. }
  destruct Hdata as [-> Hall].
  destruct (squeeze_Array2 m Htest) as (Hsq & Hlen & r0 & rest & Heq & Hr0).
  exists m. split; [exact Hsq |]. split; [reflexivity |].
  split; [exact Hlen |]. exists (length r0). split; [exact Hr0 |].
  apply all_length_Forall. exact (Hall r0 rest Heq).
Qed.

Lemma loadtxt_parses (lines : list string) (skiprows : nat)
    (delimiter : option ascii) (m : list (list Q)) :
  parses float lines skiprows delimiter m ->
  loadtxt float lines skiprows delimiter = Some (Array2 m) /\
  (ndim (Array2 m) =? 2)%nat && (2 <=? shape1 (Array2 m))%nat = true /\
  (length (column 0 (Array2 m)) =? 0)%nat = false.
Proof.
  intros (Hm & Hlen & n & Hn & Hall).
  unfold loadtxt. fold (field_rows lines skiprows delimiter). rewrite Hm.
  destruct (squeeze_table m n Hlen Hn Hall) as [Hsq Hshape].
  destruct m as [|r m']; [simpl in Hlen; lia |].
  assert (Hr : length r = n) by (apply Forall_cons in Hall as [H _]; exact H).
  rewrite Hr, (proj2 (all_length_Forall n (r :: m')) Hall), Hsq.
  split; [reflexivity |]. split.
  - rewrite Hshape. cbn [ndim Nat.eqb andb].
    apply (proj2 (Nat.leb_le 2 n)). exact Hn.
  - reflexivity.
Qed.

Lemma parses_functional (lines : list string) (skiprows : nat)
    (delimiter : option ascii) (m m' : list (list Q)) :
  parses float lines skiprows delimiter m ->
  parses float lines skiprows delimiter m' -> m = m'.
Proof. intros [H _] [H' _]. congruence. Qed.

(** The loop returns the first two columns of the table of the first
    delimiter that gives one, and fails if there is none. *)
Lemma try_delimiters_spec (lines : list string) (header_rows : nat)
    (ds : list (option ascii)) :
  (exists before d after m,
     ds = (before ++ d :: after)%list /\
     Forall (fun d' => forall m', ~ parses float lines header_rows d' m')
            before /\
     parses float lines header_rows d m /\
     try_delimiters float lines header_rows ds
     = Ok (column 0 (Array2 m), column 1 (Array2 m))) \/
  (Forall (fun d' => forall m', ~ parses float lines header_rows d' m') ds /\
   try_delimiters float lines header_rows ds = Raise CouldNotParse).
Proof.
  induction ds as [|d rest IH].
  - right. split; [constructor | reflexivity].
  - assert (Hskip :
      (forall m', ~ parses float lines header_rows d m') ->
      try_delimiters float lines header_rows (d :: rest)
      = try_delimiters float lines header_rows rest).
    { intros Hno. cbn [try_delimiters].
      destruct (loadtxt float lines header_rows d) as [data|] eqn:Hload;
        [| reflexivity].
      destruct ((ndim data =? 2)%nat && (2 <=? shape1 data)%nat) eqn:Htest;
        [| reflexivity].
      destruct (loadtxt_accepted _ _ _ _ Hload Htest) as (m & _ & Hm).
      exfalso. exact (Hno m Hm). }
    destruct (loadtxt float lines header_rows d) as [data|] eqn:Hload.
    + destruct ((ndim data =? 2)%nat && (2 <=? shape1 data)%nat) eqn:Htest.
      * destruct (loadtxt_accepted _ _ _ _ Hload Htest) as (m & -> & Hm).
        left. exists [], d, rest, m.
        split; [reflexivity |]. split; [constructor |]. split; [exact Hm |].
        destruct (loadtxt_parses _ _ _ _ Hm) as (_ & _ & Hsize).
        cbn [try_delimiters]. rewrite Hload, Htest, Hsize. reflexivity.
      * assert (Hno : forall m', ~ parses float lines header_rows d m').
        { intros m' Hm'.
          destruct (loadtxt_parses _ _ _ _ Hm') as (Hl & Ht & _).
          rewrite Hl in Hload. injection Hload as <-.
          rewrite Ht in Htest. discriminate. }
        rewrite (Hskip Hno).
        destruct IH as [(before & d' & after & m & -> & Hb & Hm & Hres)
                       | [Hall Hres]].
        -- left. exists (d :: before), d', after, m.
           split; [reflexivity |]. split; [constructor; assumption |].
           split; assumption.
        -- right. split; [constructor; assumption | exact Hres].
    + assert (Hno : forall m', ~ parses float lines header_rows d m').
      { intros m' Hm'.
        destruct (loadtxt_parses _ _ _ _ Hm') as (Hl & _).
        rewrite Hl in Hload. discriminate. }
      rewrite (Hskip Hno).
      destruct IH as [(before & d' & after & m & -> & Hb & Hm & Hres)
                     | [Hall Hres]].
      * left. exists (d :: before), d', after, m.
        split; [reflexivity |]. split; [constructor; assumption |].
        split; assumption.
      * right. split; [constructor; assumption | exact Hres].
Qed.

Lemma column_length (k : nat) (m : list (list Q)) :
  length (column k (Array2 m)) = length m.
Proof. simpl. apply length_map. Qed.

End Outcomes.



(** X19.  The call succeeds exactly when, for one of the delimiters
    whitespace, comma and tab, the rows after the header are a table of
    numbers with at least two rows and at least two columns; it then
    returns the first two columns of the table of the first such
    delimiter, in the order of the file. *)
Theorem read_generic_text_file_first_table (float : string -> option Q)
    (fs : gmap string string) (filepath content : string)
    (angles intensities : list Q) :
  fs !! filepath = Some content ->
  let lines := readlines content in
  let header_rows := count_header_rows lines 0 0 in
  read_generic_text_file float fs filepath = Ok (angles, intensities) <->
  exists before d after m,
    delimiters = (before ++ d :: after)%list /\
    Forall (fun d' => forall m', ~ parses float lines header_rows d' m')
           before /\
    parses float lines header_rows d m /\
    angles = map (fun r => nth 0 r 0%Q) m /\
    intensities = map (fun r => nth 1 r 0%Q) m.
Proof.
  intros Hfile lines header_rows.
  unfold read_generic_text_file. rewrite Hfile.
  fold lines. fold header_rows. fold delimiters.
  destruct (try_delimiters_spec float lines header_rows delimiters)
    as [(before & d & after & m & Hds & Hb & Hm & Hres) | [Hall Hres]];
    rewrite Hres; clear Hres.
  - split.
    + intros [= <- <-]. exists before, d, after, m. auto.
    + intros (before' & d' & after' & m' & Hds' & Hb' & Hm' & -> & ->).
      assert (Hsame : before = before' /\ d = d').
      { rewrite Hds in Hds'. clear Hds.
        revert before' Hds' Hb'.
        induction before as [|x before IH]; intros [|x' before'] Heq Hb'.
        - injection Heq as -> _. auto.
        - injection Heq as -> _.
          apply Forall_cons in Hb' as [Hx _]. exfalso. exact (Hx m Hm).
        - injection Heq as -> _.
          apply Forall_cons in Hb as [Hx _]. exfalso. exact (Hx m' Hm').
        - injection Heq as -> Heq.
          apply Forall_cons in Hb as [_ Hb].
          apply Forall_cons in Hb' as [_ Hb'].
          destruct (IH Hb before' Heq Hb') as [-> ->]. auto. }
      destruct Hsame as [<- <-].
      rewrite (parses_functional float _ _ _ _ _ Hm Hm'). reflexivity.
  - split; [discriminate |].
    intros (before' & d' & after' & m' & Hds' & _ & Hm' & _).
    exfalso. rewrite Hds' in Hall.
    apply Forall_app in Hall as [_ Hall].
    apply Forall_cons in Hall as [Hd _]. exact (Hd m' Hm').
Qed.

Lemma read_generic_text_file_first_table_witness :
  read_generic_text_file decimal_float
    {[ "t.csv" := "20.5,500,1" +:+ nl +:+ "20.6,520,2" ]} "t.csv"
  = Ok ([41 # 2; 103 # 5]%Q, [500; 520]%Q).
Proof.
  assert (Hfile : ({[ "t.csv" := "20.5,500,1" +:+ nl +:+ "20.6,520,2" ]}
                   : gmap string string) !! "t.csv"
                  = Some ("20.5,500,1" +:+ nl +:+ "20.6,520,2"))
    by reflexivity.
  apply (proj2 (read_generic_text_file_first_table decimal_float
                  {[ "t.csv" := "20.5,500,1" +:+ nl +:+ "20.6,520,2" ]}
                  "t.csv" ("20.5,500,1" +:+ nl +:+ "20.6,520,2")
                  [41 # 2; 103 # 5]%Q [500; 520]%Q Hfile)).
  exists [None], (Some ","%char), [Some "009"%char],
    [[41 # 2; 500; 1]; [103 # 5; 520; 2]]%Q.
  split; [reflexivity |]. split.
  - constructor; [| constructor]. intros m' [Hm' _]. vm_compute in Hm'.
    discriminate Hm'.
  - split; [| split; reflexivity].
    split; [vm_compute; reflexivity |]. split; [simpl; lia |].
    exists 3%nat. split; [lia |]. repeat constructor.
Defined.

(** X20.  A file that is empty, or that holds nothing but blank lines and
    lines whose first non-blank character is ['#'], ['!'] or ['/'], is
    rejected with the could-not-parse error. *)
Theorem read_generic_text_file_header_only (float : string -> option Q)
    (fs : gmap string string) (filepath content : string) :
  fs !! filepath = Some content ->
  Forall (fun l => header_line l = true) (readlines content) ->
  read_generic_text_file float fs filepath = Raise CouldNotParse.
Proof.
  intros Hfile Hall. unfold read_generic_text_file. rewrite Hfile.
  apply try_delimiters_short. intros d _.
  unfold field_rows.
  assert (Hcount : count_header_rows (readlines content) 0 0
                   = length (readlines content)).
  { rewrite <- (app_nil_r (readlines content)) at 1.
    rewrite count_header_rows_prefix by exact Hall. reflexivity. }
  rewrite Hcount, drop_all. simpl. lia.
Qed.

Lemma read_generic_text_file_header_only_witness :
  read_generic_text_file decimal_float {[ "e.xy" := "" ]} "e.xy"
  = Raise CouldNotParse /\
  read_generic_text_file decimal_float
    {[ "h.xy" := "# two theta" +:+ nl +:+ nl +:+ "  ! counts" +:+ nl ]}
    "h.xy"
  = Raise CouldNotParse.
Proof.
  split.
  - apply (read_generic_text_file_header_only decimal_float
             {[ "e.xy" := "" ]} "e.xy" "").
    + reflexivity.
    + constructor.
  - apply (read_generic_text_file_header_only decimal_float
             {[ "h.xy" := "# two theta" +:+ nl +:+ nl +:+ "  ! counts" +:+ nl ]}
             "h.xy" ("# two theta" +:+ nl +:+ nl +:+ "  ! counts" +:+ nl)).
    + reflexivity.
    + repeat constructor.
Defined.

End GenericReaderProps.

(** ** Bruker reader: further properties *)

Module BrukerReaderProps.
Import Text BrukerReader BrukerReaderSpec.

(** *** How much of the payload is read *)


Lemma fromfile_float32_append (count : nat) (s extra : string) :
  length (fromfile_float32 count s) = count ->
  fromfile_float32 count (s +:+ extra) = fromfile_float32 count s.
Proof.
  revert s. induction count as [|n IH]; intros s Hlen.
  - destruct (s +:+ extra), s; reflexivity.
  - destruct s as [|b0 [|b1 [|b2 [|b3 s]]]]; try discriminate Hlen.
    rewrite !append_cons. cbn [fromfile_float32] in Hlen |- *.
    injection Hlen as Hlen. rewrite (IH s Hlen). reflexivity.
Qed.

Lemma take_string_append (n : nat) (s extra : string) :
  (n <= String.length s)%nat ->
  take_string n (s +:+ extra) = take_string n s.
Proof.
  revert s. induction n as [|n IH]; intros s Hn.
  - destruct (s +:+ extra), s; reflexivity.
  - destruct s as [|c s]; [simpl in Hn; lia |].
    rewrite append_cons. cbn [take_string]. rewrite IH; [reflexivity |].
    simpl in Hn. lia.
Qed.

Lemma drop_string_append (n : nat) (s extra : string) :
  (n <= String.length s)%nat ->
  drop_string n (s +:+ extra) = drop_string n s +:+ extra.
Proof.
  revert s. induction n as [|n IH]; intros s Hn.
  - destruct s; [destruct extra |]; reflexivity.
  - destruct s as [|c s]; [simpl in Hn; lia |].
    rewrite append_cons. cbn [drop_string]. apply IH. simpl in Hn. lia.
Qed.

Lemma int_of_digits_nonneg (s : string) : 0 <= int_of_digits s.
Proof.
  unfold int_of_digits.
  assert (H : forall l acc,
            0 <= acc ->
            0 <= fold_left
                   (fun acc c => 10 * acc + Z.of_nat (nat_of_ascii c - 48))
                   l acc).
  { induction l as [|c l IH]; intros acc Hacc; [exact Hacc |].
    simpl. apply IH. lia. }
  apply H. lia.
Qed.




(** X22.  Bytes that follow the COUNT values are ignored: appending
    anything to a file that reads successfully, and is at least 2048
    bytes long, gives the same result. *)
Theorem read_bruker_raw_v4_ignores_trailing_bytes (fs : gmap string string)
    (filepath file extra : string)
    (r : list spec_float * list spec_float) :
  fs !! filepath = Some file ->
  (2048 <= String.length file)%nat ->
  read_bruker_raw_v4 fs filepath = Ok r ->
  read_bruker_raw_v4 (<[filepath := file +:+ extra]> fs) filepath = Ok r.
Proof.
  intros Hfile Hlong. unfold read_bruker_raw_v4.
  rewrite lookup_insert_eq, Hfile.
  rewrite (take_string_append 2048 file extra Hlong).
  rewrite (drop_string_append 2048 file extra Hlong).
  destruct (re_search "START=" is_digit_or_dot (take_string 2048 file))
    as [start_text|]; [| discriminate].
  destruct (re_search "STEPSIZE=" is_digit_or_dot (take_string 2048 file))
    as [step_text|]; [| discriminate].
  destruct (re_search "COUNT=" is_digit (take_string 2048 file))
    as [count_text|]; [| discriminate].
  destruct (python_float start_text) as [start_angle|]; [| discriminate].
  destruct (python_float step_text) as [step_size|]; [| discriminate].
  cbv zeta.
  destruct (2 ^ 63 <=? int_of_digits count_text)%Z; [discriminate |].
  pose proof (int_of_digits_nonneg count_text) as Hnonneg.
  set (count := int_of_digits count_text) in *.
  set (payload := drop_string 2048 file).
  destruct (Z.eqb_spec (Z.of_nat (length (fromfile_float32 (Z.to_nat count)
                                            payload))) count)
    as [Hlen | Hlen]; cbn [negb]; [| discriminate].
  intros Hres.
  rewrite fromfile_float32_append by lia.
  destruct (Z.eqb_spec (Z.of_nat (length (fromfile_float32 (Z.to_nat count)
                                            payload))) count)
    as [_ | Hne]; [| contradiction].
  exact Hres.
Qed.

Lemma read_bruker_raw_v4_ignores_trailing_bytes_witness :
  exists angles,
    read_bruker_raw_v4
      (<["test_bruker.raw" :=
           (sample_header +:+ tobytes sample_bits) +:+ "trailing bytes"]>
         sample_fs)
      "test_bruker.raw"
    = Ok (angles, map f32_of_bits sample_bits).
Proof.
  eexists.
  apply (read_bruker_raw_v4_ignores_trailing_bytes sample_fs
           "test_bruker.raw" (sample_header +:+ tobytes sample_bits)
           "trailing bytes").
  - reflexivity.
  - apply Nat.leb_le. vm_compute. reflexivity.
  - apply (read_bruker_raw_v4_returns sample_fs "test_bruker.raw"
             sample_header sample_bits "10.0" "0.02" "5"
             (S754_finite false 5629499534213120 (-49))
             (S754_finite false 5764607523034235 (-58))).
    + reflexivity.
    + vm_compute. reflexivity.
    + vm_compute. reflexivity.
    + vm_compute. reflexivity.
    + vm_compute. reflexivity.
    + vm_compute. reflexivity.
    + vm_compute. reflexivity.
    + reflexivity.
    + reflexivity.
    + repeat constructor; discriminate.
Defined.

End BrukerReaderProps.

(** ** The data container and the session state *)

Module XrdDataProps.
Import SearchMatch XrdData.

Section Container.
Context {peak : Type}.

Example basename_of_path :
  posix_basename "/data/run 1/quartz.xy" = "quartz.xy" /\
  posix_basename "quartz.xy" = "quartz.xy" /\
  posix_basename "/data/" = "".
Proof. repeat split; reflexivity. Qed.

Lemma np_sub_same_length (a b : list Q) :
  length a = length b -> np_sub a b = Ok (zip_with Qminus a b).
Proof.
  intros H. unfold np_sub. rewrite H, Nat.eqb_refl. reflexivity.
Qed.

(** A call leaves the raw data, the name and the angles alone. *)
Lemma after_keeps (self : XRDData peak) (c : call peak) :
  filename (after self c) = filename self /\
  is_reference (after self c) = is_reference self /\
  raw_angles (after self c) = raw_angles self /\
  raw_intensities (after self c) = raw_intensities self /\
  processed_angles (after self c) = processed_angles self.
Proof.
  destruct c as [curve | df |]; simpl; auto.
  unfold set_background. simpl.
  destruct (np_sub (raw_intensities self) curve); simpl; auto.
Qed.

Lemma calls_keep (cs : list (call peak)) :
  forall self : XRDData peak,
    filename (fold_left after cs self) = filename self /\
    is_reference (fold_left after cs self) = is_reference self /\
    raw_angles (fold_left after cs self) = raw_angles self /\
    raw_intensities (fold_left after cs self) = raw_intensities self /\
    processed_angles (fold_left after cs self) = processed_angles self.
Proof.
  induction cs as [|c cs IH]; intros self; simpl; [auto |].
  destruct (IH (after self c)) as (H1 & H2 & H3 & H4 & H5).
  destruct (after_keeps self c) as (K1 & K2 & K3 & K4 & K5).
  rewrite H1, H2, H3, H4, H5. auto.
Qed.

(** X23.  Whatever calls were made on a container, failed ones included,
    its raw data, file name and angles are those it was built with, and
    [reset_processing] brings it back to the state it was built in. *)
Theorem reset_processing_restores (raw_angles raw_intensities : list Q)
    (filename : option string) (is_reference : bool)
    (cs : list (call peak)) :
  let built := init raw_angles raw_intensities filename is_reference in
  let self := fold_left after cs built in
  XrdData.raw_angles self = raw_angles /\
  XrdData.raw_intensities self = raw_intensities /\
  XrdData.filename self = filename /\
  XrdData.is_reference self = is_reference /\
  reset_processing self = built.
Proof.
  intros built self.
  destruct (calls_keep cs built) as (H1 & H2 & H3 & H4 & H5).
  fold self in H1, H2, H3, H4, H5. simpl in H1, H2, H3, H4, H5.
  repeat split; try assumption.
  unfold reset_processing, built, init. rewrite H1, H2, H3, H4, H5.
  reflexivity.
Qed.

Lemma after_consistent (self : XRDData peak) (c : call peak) :
  fits (length (raw_intensities self)) c ->
  consistent self ->
  length (processed_intensities self) = length (raw_intensities self) ->
  consistent (after self c) /\
  length (processed_intensities (after self c))
  = length (raw_intensities self).
Proof.
  intros Hfit Hcons Hlen. destruct c as [curve | df |]; simpl in *.
  - unfold set_background. simpl.
    rewrite np_sub_same_length by (symmetry; exact Hfit).
    unfold consistent. simpl. split; [reflexivity |].
    rewrite length_zip_with. lia.
  - split; assumption.
  - unfold consistent. simpl. split; reflexivity.
Qed.

(** X24.  As long as every curve handed to [set_background] has as many
    points as the raw data, the processed intensities are at all times
    the raw intensities minus the stored curve, point by point, or the
    raw intensities themselves when no curve is stored. *)
Theorem processed_intensities_consistent
    (raw_angles raw_intensities : list Q) (filename : option string)
    (is_reference : bool) (cs : list (call peak)) :
  Forall (fits (length raw_intensities)) cs ->
  let self :=
    fold_left after cs
      (init raw_angles raw_intensities filename is_reference) in
  consistent self /\
  length (processed_intensities self) = length raw_intensities.
Proof.
  intros Hfits.
  set (built := init raw_angles raw_intensities filename is_reference).
  assert (H : forall self : XRDData peak,
            XrdData.raw_intensities self = raw_intensities ->
            consistent self ->
            length (processed_intensities self) = length raw_intensities ->
            consistent (fold_left after cs self) /\
            length (processed_intensities (fold_left after cs self))
            = length raw_intensities).
  { induction Hfits as [|c cs Hc Hcs IH]; intros self Hraw Hcons Hlen.
    - simpl. auto.
    - simpl. rewrite <- Hraw in Hc, Hlen.
      destruct (after_consistent self c Hc Hcons Hlen) as [Hcons' Hlen'].
      apply IH.
      + rewrite <- Hraw. apply (after_keeps self c).
      + exact Hcons'.
      + rewrite Hlen'. rewrite Hraw. reflexivity. }
  apply H; reflexivity.
Qed.

End Container.

Lemma processed_intensities_consistent_witness :
  processed_intensities
    (fold_left after
       [SetBackground [1; 2; 3]%Q; ResetProcessing; SetBackground [3; 1; 2]%Q]
       (init (peak := unit) [10; 11; 12]%Q [5; 6; 7]%Q (Some "a.xy") false))
  = zip_with Qminus [5; 6; 7]%Q [3; 1; 2]%Q.
Proof.
  apply (proj1 (processed_intensities_consistent (peak := unit)
                  [10; 11; 12]%Q [5; 6; 7]%Q (Some "a.xy") false
                  [SetBackground [1; 2; 3]%Q; ResetProcessing;
                   SetBackground [3; 1; 2]%Q]
                  ltac:(repeat constructor))).
Defined.

End XrdDataProps.

Module ProjectProps.
Import SearchMatch XrdData Project.

Section Session.
Context {peak : Type}.
Variable basename : string -> string.

Lemma init_well_formed : well_formed basename (init (peak := peak)).
Proof.
  split.
  - intros x H. discriminate H.
  - intros name x H. simpl in H. rewrite lookup_empty in H. discriminate H.
Qed.

Lemma after_well_formed (self : Project peak) (c : call peak) :
  well_formed basename self -> well_formed basename (after basename self c).
Proof.
  intros [Hexp Href]. destruct c as [x id | x | name |]; simpl.
  - unfold load_experimental_data.
    destruct (is_reference x) eqn:Hx; simpl; [split; assumption |].
    split; [| exact Href]. simpl. intros y [= <-]. exact Hx.
  - unfold add_reference.
    destruct (is_reference x) eqn:Hx; simpl; [| split; assumption].
    split; [exact Hexp |]. simpl. intros name y Hy.
    destruct (decide (display_name basename x = name)) as [<- | Hne].
    + rewrite lookup_insert_eq in Hy. injection Hy as <-. auto.
    + rewrite lookup_insert_ne in Hy by exact Hne. exact (Href name y Hy).
  - unfold remove_reference.
    destruct (reference_data self !! name) eqn:Hname; simpl;
      [| split; assumption].
    split; [exact Hexp |]. simpl. intros name' y Hy.
    destruct (decide (name = name')) as [<- | Hne].
    + rewrite lookup_delete_eq in Hy. discriminate Hy.
    + rewrite lookup_delete_ne in Hy by exact Hne. exact (Href name' y Hy).
  - apply init_well_formed.
Qed.

(** X25.  Whatever calls were made on a project, failed ones included,
    its experimental pattern is not a reference pattern, and each of its
    references is a reference pattern stored under its own display
    name. *)
Theorem project_well_formed (cs : list (call peak)) :
  well_formed basename (fold_left (after basename) cs init).
Proof.
  assert (H : forall self : Project peak,
            well_formed basename self ->
            well_formed basename (fold_left (after basename) cs self)).
  { induction cs as [|c cs IH]; intros self Hwf; [exact Hwf |].
    simpl. apply IH, after_well_formed, Hwf. }
  apply H, init_well_formed.
Qed.

(** X26.  References are kept by display name.  A reference added under
    a name that is taken replaces the one that was there; removing a
    reference that was added under a free name gives the project back;
    removing a name that is not there answers [False] and changes
    nothing. *)
Theorem reference_bookkeeping (self : Project peak)
    (x y : XRDData peak) (name : string) :
  (is_reference x = true -> is_reference y = true ->
   display_name basename x = display_name basename y ->
   (add_reference basename y (add_reference basename x self).1).1
   = (add_reference basename y self).1 /\
   get_reference_by_name (display_name basename x)
     (add_reference basename y (add_reference basename x self).1).1
   = Some y) /\
  (is_reference x = true ->
   get_reference_by_name (display_name basename x) self = None ->
   remove_reference (display_name basename x)
     (add_reference basename x self).1
   = (self, true)) /\
  (get_reference_by_name name self = None ->
   remove_reference name self = (self, false)).
Proof.
  split; [| split].
  - intros Hx Hy Hname. unfold add_reference. rewrite Hx, Hy. simpl.
    rewrite Hname. split.
    + rewrite insert_insert_eq. reflexivity.
    + unfold get_reference_by_name. simpl. apply lookup_insert_eq.
  - intros Hx Hfree. unfold add_reference, remove_reference.
    rewrite Hx. simpl. rewrite lookup_insert_eq.
    unfold get_reference_by_name in Hfree.
    rewrite delete_insert_id by exact Hfree.
    destruct self; reflexivity.
  - intros Hfree. unfold remove_reference.
    unfold get_reference_by_name in Hfree. rewrite Hfree. reflexivity.
Qed.

End Session.

Lemma reference_bookkeeping_witness :
  let x := XrdData.init (peak := unit) [10; 20]%Q [5; 6]%Q
             (Some "/data/a/NaCl.cif") true in
  let y := XrdData.init (peak := unit) [11; 21]%Q [7; 8]%Q
             (Some "/data/b/NaCl.cif") true in
  get_reference_by_name "NaCl.cif (Ref)"
    (add_reference posix_basename y
       (add_reference posix_basename x init).1).1
  = Some y /\
  remove_reference "NaCl.cif (Ref)" (add_reference posix_basename x init).1
  = (init, true) /\
  remove_reference "KCl.cif (Ref)" (init (peak := unit)) = (init, false).
Proof.
  intros x y.
  pose proof (reference_bookkeeping posix_basename (init (peak := unit))
                x y "KCl.cif (Ref)") as (H1 & H2 & H3).
  split; [| split].
  - apply H1; reflexivity.
  - apply H2; reflexivity.
  - apply H3. reflexivity.
Defined.

End ProjectProps.

(** ** The background callbacks *)

Module MainAppProps.
Import SearchMatch Background BackgroundSpec BackgroundProps.
Import XrdData XrdDataProps Project MainApp.

Lemma erosion_iter_lower (m : Q) (intensities : list Q) (n : nat) :
  Forall (fun x => (m <= x)%Q) intensities ->
  Forall (fun x => (m <= x)%Q) (Nat.iter n erosion_step intensities).
Proof.
  intros Hm. induction n as [|n IH]; simpl.
  - exact Hm.
  - apply erosion_step_lower. exact IH.
Qed.

(** A non-empty array has a smallest element. *)
Lemma minimum_exists (l : list Q) :
  l <> [] ->
  exists i m, l !! i = Some m /\ Forall (fun x => (m <= x)%Q) l.
Proof.
  induction l as [|x l IH]; intros Hne; [contradiction |].
  destruct l as [|y l].
  - exists 0%nat, x. split; [reflexivity |].
    constructor; [apply Qle_refl | constructor].
  - destruct IH as (i & m & Hi & Hm); [discriminate |].
    destruct (Qlt_le_dec m x) as [Hlt | Hle].
    + exists (S i), m. split; [exact Hi |].
      constructor; [apply Qlt_le_weak; exact Hlt | exact Hm].
    + exists 0%nat, x. split; [reflexivity |].
      constructor; [apply Qle_refl |].
      eapply Forall_impl; [exact Hm |].
      intros z Hz. simpl in Hz. eapply Qle_trans; eassumption.
Qed.

(** What is left after the eroded background is taken off. *)
Lemma erosion_difference (intensities : list Q) (iterations : Z) :
  let background := subtract_iterative_erosion intensities iterations in
  let difference := zip_with Qminus intensities background in
  length difference = length intensities /\
  Forall (fun z => (0 <= z)%Q) difference /\
  (intensities <> [] -> Exists (fun z => (z == 0)%Q) difference).
Proof.
  intros background difference.
  assert (Hlen : length background = length intensities)
    by apply erosion_length.
  split; [| split].
  - unfold difference. rewrite length_zip_with. lia.
  - apply Forall_lookup. intros i z Hz.
    apply lookup_zip_with_Some in Hz as (x & y & -> & Hx & Hy).
    destruct (erosion_iter_upper intensities _ i y Hy) as (x' & Hx' & Hle).
    rewrite Hx in Hx'. injection Hx' as <-. simpl. lra.
  - intros Hne.
    destruct (minimum_exists intensities Hne) as (i & m & Hi & Hm).
    destruct (lookup_lt_is_Some_2 background i) as [y Hy].
    { rewrite Hlen. eapply lookup_lt_Some. exact Hi. }
    apply Exists_exists. exists (m - y)%Q. split.
    + apply list_elem_of_lookup. exists i.
      apply lookup_zip_with_Some. exists m, y. auto.
    + destruct (erosion_iter_upper intensities _ i y Hy) as (x' & Hx' & Hle).
      rewrite Hi in Hx'. injection Hx' as <-.
      pose proof (erosion_iter_lower m intensities
                    (Z.to_nat iterations) Hm) as Hlow.
      pose proof (proj1 (Forall_lookup _ _) Hlow i y Hy) as Hge.
      simpl in Hge. lra.
Qed.

Section Controller.
Context {peak : Type}.

Lemma set_background_erosion (xrd_data : XRDData peak) (iterations : Z) :
  let background :=
    subtract_iterative_erosion (raw_intensities xrd_data) iterations in
  set_background background xrd_data
  = ({| filename := filename xrd_data;
        is_reference := is_reference xrd_data;
        raw_angles := raw_angles xrd_data;
        raw_intensities := raw_intensities xrd_data;
        processed_angles := processed_angles xrd_data;
        processed_intensities :=
          zip_with Qminus (raw_intensities xrd_data) background;
        background_curve := Some background;
        peaks_df := peaks_df xrd_data |},
     Ok tt).
Proof.
  intros background. unfold set_background. cbn [raw_intensities].
  rewrite np_sub_same_length; [reflexivity |].
  symmetry. apply erosion_length.
Qed.

(** X27.  With the erosion method, [apply_background] never raises.
    It stores the eroded raw intensities as background and the raw
    intensities minus that background as processed intensities: as many
    points as the raw data, none of them negative, and, unless the
    pattern is empty, at least one of them zero.  The raw data stay as
    they are. *)
Theorem apply_background_erosion (self : MainApplication peak)
    (xrd_data : XRDData peak) (params : bg_params) :
  experimental_data (project self) = Some xrd_data ->
  method params = "Iterative Erosion" ->
  let background :=
    subtract_iterative_erosion (raw_intensities xrd_data)
      (default 50 (iterations params)) in
  exists self' xrd_data',
    apply_background (Some params) self = (self', Ok tt) /\
    experimental_data (project self') = Some xrd_data' /\
    raw_intensities xrd_data' = raw_intensities xrd_data /\
    raw_angles xrd_data' = raw_angles xrd_data /\
    background_curve xrd_data' = Some background /\
    processed_intensities xrd_data'
    = zip_with Qminus (raw_intensities xrd_data) background /\
    length (processed_intensities xrd_data')
    = length (raw_intensities xrd_data) /\
    Forall (fun z => (0 <= z)%Q) (processed_intensities xrd_data') /\
    (raw_intensities xrd_data <> [] ->
     Exists (fun z => (z == 0)%Q) (processed_intensities xrd_data')).
Proof.
  intros Hexp Hmethod background.
  unfold apply_background. rewrite Hexp, Hmethod.
  cbn [String.eqb Ascii.eqb Bool.eqb andb]. unfold background.
  rewrite (set_background_erosion xrd_data (default 50 (iterations params))).
  fold background.
  destruct (erosion_difference (raw_intensities xrd_data)
              (default 50 (iterations params))) as (Hlen & Hpos & Hzero).
  eexists _, _. split; [reflexivity |].
  cbn [project experimental_data with_experimental_data].
  split; [reflexivity |].
  cbn [raw_intensities raw_angles background_curve processed_intensities].
  repeat split; assumption.
Qed.

Lemma apply_background_keeps_project_fields (params : option bg_params)
    (self : MainApplication peak) :
  let self' := (apply_background params self).1 in
  match experimental_data (project self),
        experimental_data (project self') with
  | Some x, Some x' =>
    filename x' = filename x /\ is_reference x' = is_reference x /\
    raw_angles x' = raw_angles x /\ raw_intensities x' = raw_intensities x /\
    processed_angles x' = processed_angles x
  | None, None => True
  | _, _ => False
  end /\
  db_id (project self') = db_id (project self) /\
  reference_data (project self') = reference_data (project self).
Proof.
  unfold apply_background. cbv zeta.
  destruct (experimental_data (project self)) as [x|] eqn:Hexp.
  - destruct params as [params|]; [| simpl; rewrite ?Hexp; repeat split].
    destruct (String.eqb (method params) "Polynomial");
      [simpl; rewrite ?Hexp; repeat split |].
    destruct (String.eqb (method params) "Iterative Erosion");
      [| simpl; rewrite ?Hexp; repeat split].
    rewrite set_background_erosion. simpl. rewrite ?Hexp. repeat split.
  - simpl. rewrite ?Hexp. repeat split.
Qed.

(** X28.  Applying the background twice with the same parameters leaves
    the project as one application does, since each application starts
    from the raw intensities; and [clear_background] undoes it: the
    project is then as if the background had never been applied. *)
Theorem apply_background_repeat_and_clear (params : option bg_params)
    (self : MainApplication peak) :
  let once := (apply_background params self).1 in
  project (apply_background params once).1 = project once /\
  project (clear_background once) = project (clear_background self).
Proof.
  intros once. split.
  - unfold once, apply_background. cbv zeta.
    destruct (experimental_data (project self)) as [x|] eqn:Hexp;
      [| cbn [fst]; rewrite Hexp; reflexivity].
    destruct params as [params|]; [| cbn [fst]; rewrite Hexp; reflexivity].
    destruct (String.eqb (method params) "Polynomial") eqn:Hpoly.
    { cbn [fst project]. rewrite Hexp. reflexivity. }
    destruct (String.eqb (method params) "Iterative Erosion") eqn:Hero;
      [| cbn [fst]; rewrite Hexp; reflexivity].
    rewrite set_background_erosion.
    cbn [fst project with_experimental_data experimental_data].
    rewrite (set_background_erosion
               {| filename := filename x;
                  is_reference := is_reference x;
                  raw_angles := raw_angles x;
                  raw_intensities := raw_intensities x;
                  processed_angles := processed_angles x;
                  processed_intensities :=
                    zip_with Qminus (raw_intensities x)
                      (subtract_iterative_erosion (raw_intensities x)
                         (default 50 (iterations params)));
                  background_curve :=
                    Some (subtract_iterative_erosion (raw_intensities x)
                            (default 50 (iterations params)));
                  peaks_df := peaks_df x |}
               (default 50 (iterations params))).
    reflexivity.
  - pose proof (apply_background_keeps_project_fields params self)
      as (Hx & Hid & Hrefs).
    fold once in Hx, Hid, Hrefs. unfold clear_background.
    destruct (experimental_data (project self)) as [x|] eqn:Hexp;
      destruct (experimental_data (project once)) as [x'|] eqn:Hexp';
      try contradiction.
    + destruct Hx as (H1 & H2 & H3 & H4 & H5).
      unfold with_experimental_data, reset_processing. simpl.
      rewrite H1, H2, H3, H4, H5, Hid, Hrefs. reflexivity.
    + destruct (project once) as [id e r], (project self) as [id0 e0 r0].
      simpl in *. congruence.
Qed.

End Controller.

Lemma apply_background_erosion_witness :
  let xrd_data := XrdData.init (peak := unit)
                    [10; 11; 12; 13; 14]%Q [3; 1; 9; 2; 4]%Q
                    (Some "a.xy") false in
  let self :=
    {| project := {| db_id := None; experimental_data := Some xrd_data;
                     reference_data := ∅ |};
       view := [] |} in
  exists self' xrd_data',
    apply_background (Some (erosion_params 2)) self = (self', Ok tt) /\
    experimental_data (project self') = Some xrd_data' /\
    Forall (fun z => (0 <= z)%Q) (processed_intensities xrd_data') /\
    Exists (fun z => (z == 0)%Q) (processed_intensities xrd_data').
Proof.
  intros xrd_data self.
  destruct (apply_background_erosion self xrd_data (erosion_params 2)
              eq_refl eq_refl)
    as (self' & xrd_data' & Hcall & Hexp & _ & _ & _ & _ & _ & Hpos & Hzero).
  exists self', xrd_data'.
  split; [exact Hcall |]. split; [exact Hexp |]. split; [exact Hpos |].
  apply Hzero. discriminate.
Defined.

End MainAppProps.

(** ** The importer engine *)

Module ImportersProps.
Import Text Importers.

Example splitext_examples :
  posix_splitext "/data/run.1/Quartz.RAW" = ("/data/run.1/Quartz", ".RAW") /\
  posix_splitext "archive.tar.gz" = ("archive.tar", ".gz") /\
  posix_splitext "/data/run.1/quartz" = ("/data/run.1/quartz", "") /\
  posix_splitext "/data/.cif" = ("/data/.cif", "") /\
  posix_splitext "...raw" = ("...raw", "").
Proof. repeat split; reflexivity. Qed.

Example lower_example : lower "Quartz.RAW" = "quartz.raw".
Proof. reflexivity. Qed.

(** *** The readers look at the contents of the file only *)



Lemma read_bruker_sizes (fs : gmap string string) (p : string)
    (angles intensities : list spec_float) :
  BrukerReader.read_bruker_raw_v4 fs p = Ok (angles, intensities) ->
  length angles = length intensities.
Proof.
  unfold BrukerReader.read_bruker_raw_v4.
  destruct (fs !! p) as [file|]; [| discriminate]. cbv zeta.
  destruct (BrukerReader.re_search "START=" _ _); [| discriminate].
  destruct (BrukerReader.re_search "STEPSIZE=" _ _); [| discriminate].
  destruct (BrukerReader.re_search "COUNT=" _ _) as [count_text|];
    [| discriminate].
  destruct (BrukerReader.python_float _); [| discriminate].
  destruct (BrukerReader.python_float _); [| discriminate].
  destruct (2 ^ 63 <=? int_of_digits count_text)%Z; [discriminate |].
  set (read := BrukerReader.fromfile_float32
                 (Z.to_nat (int_of_digits count_text))
                 (drop_string 2048 file)).
  destruct (Z.eqb_spec (Z.of_nat (length read)) (int_of_digits count_text))
    as [Hlen | Hlen]; cbn [negb]; [| discriminate].
  intros [= <- <-].
  rewrite length_map. unfold BrukerReader.arange_float32.
  rewrite length_map, length_seq. lia.
Qed.

Lemma read_generic_sizes (float : string -> option Q)
    (fs : gmap string string) (p : string) :
  match GenericReader.read_generic_text_file float fs p with
  | Ok (angles, intensities) =>
    length angles = length intensities /\ (2 <= length angles)%nat
  | Raise e =>
    e = GenericReader.CouldNotParse \/
    (e = GenericReader.FileNotFound /\ fs !! p = None)
  end.
Proof.
  unfold GenericReader.read_generic_text_file.
  destruct (fs !! p) as [content|]; [| right; auto].
  destruct (GenericReaderProps.try_delimiters_spec float
              (GenericReader.readlines content)
              (GenericReader.count_header_rows
                 (GenericReader.readlines content) 0 0)
              [None; Some ","%char; Some "009"%char])
    as [(before & d & after & m & _ & _ & Hm & ->) | [_ ->]].
  - cbn [GenericReader.column]. rewrite !length_map.
    split; [reflexivity |]. destruct Hm as (_ & Hlen & _). exact Hlen.
  - left. reflexivity.
Qed.

Section Engine.
Variable float : string -> option Q.
Variable splitext : string -> string * string.
Variable panalytical_reader :
  gmap string string -> string -> option (list Q * list Q).
Variable cif_reader :
  gmap string string -> string -> option (list Q * list Q).

(** X29.  [load_data] raises its file-not-found error exactly when
    nothing is at the path.  An error of the text reader that comes out
    as it is, is neither that reader's file-not-found error nor its
    no-data-points error.  An error of the Bruker reader always comes out
    inside the unexpected-error wrapper, the class of the error not being
    the one [load_data] catches, and is never that reader's own
    file-not-found error.  Arrays from the Bruker reader have the same
    length; arrays from the text reader have the same length, which is at
    least two. *)
Theorem load_data_outcomes (fs : gmap string string) (filepath : string) :
  let outcome :=
    load_data float splitext panalytical_reader cif_reader fs filepath in
  let reader :=
    default read_generic_text_file
      (READER_MAPPING (lower (splitext filepath).2)) in
  (outcome = Raise FileNotFound <-> fs !! filepath = None) /\
  (forall e, outcome = Raise (Reader e) ->
             e <> GenericReader.FileNotFound /\
             e <> GenericReader.NoDataPoints /\
             reader = read_generic_text_file) /\
  (forall e, outcome = Raise (UnexpectedError (FromBruker e)) ->
             e <> BrukerReader.FileNotFound /\
             reader = read_bruker_raw_v4) /\
  (forall angles intensities,
     outcome = Ok (Float32 angles intensities) ->
     length angles = length intensities /\ reader = read_bruker_raw_v4) /\
  (forall angles intensities,
     outcome = Ok (Float64 angles intensities) ->
     reader = read_generic_text_file ->
     length angles = length intensities /\ (2 <= length angles)%nat).
Proof.
  intros outcome reader. unfold outcome, load_data.
  destruct (fs !! filepath) as [content|] eqn:Hfile.
  - cbv zeta. fold reader.
    split; [split; [| discriminate] |].
    { destruct reader.
      - destruct (BrukerReader.read_bruker_raw_v4 fs filepath) as [[a i]|];
          discriminate.
      - destruct (panalytical_reader fs filepath) as [[a i]|]; discriminate.
      - destruct (cif_reader fs filepath) as [[a i]|]; discriminate.
      - destruct (GenericReader.read_generic_text_file float fs filepath)
          as [[a i]|]; discriminate. }
    destruct reader.
    + destruct (BrukerReader.read_bruker_raw_v4 fs filepath)
        as [[a i]|e0] eqn:Hread.
      * split; [discriminate |]. split; [discriminate |].
        split; [| discriminate].
        intros angles intensities [= <- <-].
        split; [exact (read_bruker_sizes _ _ _ _ Hread) | reflexivity].
      * split; [discriminate |]. split; [| split; discriminate].
        intros e [= <-]. split; [| reflexivity].
        intros ->. unfold BrukerReader.read_bruker_raw_v4 in Hread.
        rewrite Hfile in Hread. cbv zeta in Hread.
        destruct (BrukerReader.re_search "START=" _ _); [| discriminate].
        destruct (BrukerReader.re_search "STEPSIZE=" _ _); [| discriminate].
        destruct (BrukerReader.re_search "COUNT=" _ _); [| discriminate].
        destruct (BrukerReader.python_float _); [| discriminate].
        destruct (BrukerReader.python_float _); [| discriminate].
        destruct (2 ^ 63 <=? _)%Z; [discriminate |].
        destruct (negb _); discriminate.
    + destruct (panalytical_reader fs filepath) as [[a i]|].
      * split; [discriminate |]. split; [discriminate |].
        split; [discriminate |]. intros angles intensities _ H.
        discriminate H.
      * split; [discriminate |]. split; [discriminate |].
        split; discriminate.
    + destruct (cif_reader fs filepath) as [[a i]|].
      * split; [discriminate |]. split; [discriminate |].
        split; [discriminate |]. intros angles intensities _ H.
        discriminate H.
      * split; [discriminate |]. split; [discriminate |].
        split; discriminate.
    + pose proof (read_generic_sizes float fs filepath) as Hgen.
      destruct (GenericReader.read_generic_text_file float fs filepath)
        as [[a i]|e0].
      * split; [discriminate |]. split; [discriminate |].
        split; [discriminate |].
        intros angles intensities [= <- <-] _. exact Hgen.
      * split; [| split; [discriminate | split; discriminate]].
        intros e [= <-].
        destruct Hgen as [-> | [_ Hnone]].
        -- split; [discriminate |]. split; [discriminate | reflexivity].
        -- rewrite Hfile in Hnone. discriminate.
  - split; [split; reflexivity |].
    split; [discriminate |]. split; [discriminate |].
    split; discriminate.
Qed.


End Engine.

Lemma load_data_outcomes_witness :
  exists angles intensities,
    load_data GenericReader.decimal_float posix_splitext
      (fun _ _ => None) (fun _ _ => None)
      {[ "run/Sample.DAT" := GenericReader.sample ]} "run/Sample.DAT"
    = Ok (Float64 angles intensities) /\
    length angles = length intensities /\ (2 <= length angles)%nat.
Proof.
  eexists _, _. split; [reflexivity |].
  apply (proj2 (proj2 (proj2 (proj2
           (load_data_outcomes GenericReader.decimal_float posix_splitext
              (fun _ _ => None) (fun _ _ => None)
              {[ "run/Sample.DAT" := GenericReader.sample ]}
              "run/Sample.DAT"))))).
  - reflexivity.
  - reflexivity.
Defined.


End ImportersProps.
